(** * UDP tracker client (lib/client/udp-tracker.js)

    A shallow embedding of the UDP tracker client of bittorrent-tracker:
    the wire encoders, the per-request closure state ([cleanup], [onError],
    [onSocketMessage], the request timeout) and the session operations
    ([announce], [scrape], [destroy]), followed by the properties of the
    specification that concern them. *)

From Stdlib Require Import ZArith List String Ascii Bool Arith Lia DecimalString
  Permutation.
Import ListNotations.
Local Open Scope Z_scope.

(* ================================================================== *)
(** ** Buffers *)
(* ================================================================== *)

(** A Node [Buffer] is a list of octets, each in [0, 256). *)
Definition Buffer := list Z.

Definition is_byte (b : Z) : Prop := 0 <= b < 256.

(** [buf.readUInt32BE(off)]: the four octets at [off] weighted big-endian.
    Every call site reads inside the buffer (the lengths are checked before). *)
Definition readUInt32BE (buf : Buffer) (off : nat) : Z :=
  nth off buf 0 * 2 ^ 24 + nth (off + 1) buf 0 * 2 ^ 16
  + nth (off + 2) buf 0 * 2 ^ 8 + nth (off + 3) buf 0.

(** [buf.slice(start, end)] and [buf.slice(start)]; both clamp to the buffer. *)
Definition slice (buf : Buffer) (start stop : nat) : Buffer :=
  firstn (stop - start) (skipn start buf).

Definition slice_from (buf : Buffer) (start : nat) : Buffer := skipn start buf.

(** [k] octets of [n], most significant first. *)
Fixpoint be_bytes (k : nat) (n : Z) : Buffer :=
  match k with
  | O => []
  | S k' => (n / 256 ^ Z.of_nat k') mod 256 :: be_bytes k' n
  end.

(** The value of a buffer read as one big-endian number. *)
Definition be_value (buf : Buffer) : Z :=
  fold_left (fun acc b => acc * 256 + b) buf 0.

(** [buf.writeUInt16BE(n, 0)] on a fresh 2-byte buffer.  The write checks its
    value: outside 0..65535 it throws, which is [None]. *)
Definition toUInt16 (n : Z) : option Buffer :=
  if (0 <=? n) && (n <=? 65535) then Some (be_bytes 2 n) else None.

(** [buf.toString('hex')]. *)
Definition hex_digit (d : Z) : ascii :=
  nth (Z.to_nat d) (list_ascii_of_string "0123456789abcdef") "0"%char.

Fixpoint toString_hex (buf : Buffer) : string :=
  match buf with
  | [] => EmptyString
  | b :: rest => String (hex_digit (b / 16)) (String (hex_digit (b mod 16)) (toString_hex rest))
  end.

(** [Buffer.from(s, 'hex')]: two hexadecimal digits per octet; decoding stops
    at the first pair that is not hexadecimal. *)
Definition hex_value (c : ascii) : option Z :=
  let n := Z.of_nat (nat_of_ascii c) in
  if (48 <=? n) && (n <=? 57) then Some (n - 48)
  else if (97 <=? n) && (n <=? 102) then Some (n - 87)
  else if (65 <=? n) && (n <=? 70) then Some (n - 55)
  else None.

Fixpoint Buffer_from_hex (s : string) : Buffer :=
  match s with
  | String hi (String lo rest) =>
      match hex_value hi, hex_value lo with
      | Some h, Some l => (h * 16 + l) :: Buffer_from_hex rest
      | _, _ => []
      end
  | _ => []
  end.

(* ================================================================== *)
(** ** lib/common.js (not among the sources) *)
(* ================================================================== *)

Module common.

(** Modelled from the spec: [common.toUInt32] is missing from the sources; the
    spec describes every 32-bit field as 4 bytes, big-endian. *)
Definition toUInt32 (n : Z) : Buffer := be_bytes 4 n.

(** Modelled from the spec: [common.CONNECTION_ID] is missing from the
    sources; the wire-format table gives conn_id=0x0000041727101980 (8B). *)
Definition CONNECTION_ID : Buffer := toUInt32 0x417 ++ toUInt32 0x27101980.

(** Modelled from the spec: [common.ACTIONS] is missing from the sources; the
    glossary gives connect=0, announce=1, scrape=2, error=3. *)
Module ACTIONS.
Definition CONNECT : Z := 0.
Definition ANNOUNCE : Z := 1.
Definition SCRAPE : Z := 2.
Definition ERROR : Z := 3.
End ACTIONS.

(** Modelled from the spec: [common.EVENTS] is missing from the sources; the
    spec gives the enum none=0/completed=1/started=2/stopped=3.  The lookup
    [common.EVENTS[opts.event] || 0] is [EVENTS_or_0]. *)
Definition EVENTS_or_0 (event : option string) : Z :=
  match event with
  | Some e =>
      if String.eqb e "completed" then 1
      else if String.eqb e "started" then 2
      else if String.eqb e "stopped" then 3
      else 0
  | None => 0
  end.

End common.

(* ================================================================== *)
(** ** toUInt64 *)
(* ================================================================== *)

(** The byte counts handed to [toUInt64] are integers, held either in a
    JavaScript number ([JNumber n]: a number whose value is the integer [n])
    or in a string of decimal digits with an optional sign ([JString n]). *)
Inductive JsNumeric :=
| JNumber (n : Z)
| JString (n : Z).

Definition numeric_value (v : JsNumeric) : Z :=
  match v with JNumber n => n | JString n => n end.

Definition is_string (v : JsNumeric) : bool :=
  match v with JNumber _ => false | JString _ => true end.

Definition MAX_UINT : Z := 4294967295.

(** bn.js, [new BN(n)]: a string is read digit by digit, whatever its length;
    a number is taken only below 2^53 in magnitude, above that the
    constructor fails its assertion and throws, which is [None]. *)
Definition new_BN (v : JsNumeric) : option Z :=
  match v with
  | JString n => Some n
  | JNumber n => if Z.abs n <? 2 ^ 53 then Some n else None
  end.

(** bn.js, [bn.toArray()]: the big-endian octets of the magnitude of [n] (the
    sign is dropped), as many as its byte length and at least one. *)
Definition BN_byteLength (n : Z) : nat :=
  if n <=? 0 then O else Z.to_nat (Z.log2 n / 8 + 1).

Definition BN_toArray (n : Z) : list Z :=
  be_bytes (Nat.max 1 (BN_byteLength (Z.abs n))) (Z.abs n).

(** [while (bytes.length < 8) bytes.unshift(0)]; the loop body runs at most
    eight times, which is the fuel given by [toUInt64]. *)
Fixpoint unshift_to_8 (fuel : nat) (bytes : list Z) : list Z :=
  match fuel with
  | O => bytes
  | S fuel' =>
      if (List.length bytes <? 8)%nat then unshift_to_8 fuel' (0 :: bytes) else bytes
  end.

(** [None] when [new BN(n)] throws. *)
Definition toUInt64 (n : JsNumeric) : option Buffer :=
  if (numeric_value n >? MAX_UINT) || is_string n then
    match new_BN n with
    | Some bn => Some (unshift_to_8 8 (BN_toArray bn))
    | None => None
    end
  else
    Some (common.toUInt32 0 ++ common.toUInt32 (numeric_value n)).

(* ================================================================== *)
(** ** compact2string (npm dependency) *)
(* ================================================================== *)

Definition decimal (n : Z) : string := NilZero.string_of_uint (N.to_uint (Z.to_N n)).

(** [compact2string(buf)] on a 6-byte unit: dotted quad, colon, port. *)
Definition compact2string (buf : Buffer) : string :=
  (decimal (nth 0 buf 0) ++ "." ++ decimal (nth 1 buf 0) ++ "." ++
   decimal (nth 2 buf 0) ++ "." ++ decimal (nth 3 buf 0) ++ ":" ++
   decimal (nth 4 buf 0 * 256 + nth 5 buf 0))%string.

Fixpoint chunks6 (n : nat) (buf : Buffer) : list Buffer :=
  match n with
  | O => []
  | S n' => firstn 6 buf :: chunks6 n' (skipn 6 buf)
  end.

Definition compact2string_error : string :=
  "buf length isn't multiple of compact IP/PORTs (6 bytes)".

(** [compact2string.multi(buf)]: throws (left) unless the length is a multiple
    of six, else decodes every 6-byte unit (right). *)
Definition compact2string_multi (buf : Buffer) : string + list string :=
  if (Nat.eqb (List.length buf mod 6) 0)
  then inr (map compact2string (chunks6 (List.length buf / 6) buf))
  else inl compact2string_error.

(* ================================================================== *)
(** ** The data of a tracker session *)
(* ================================================================== *)

(** What Node supplies: the result of the [k]-th call of [randombytes(4)],
    [url.parse] (port and hostname), and [buf.toString()] (UTF-8). *)
Record ParsedUrl := { port : option Z; hostname : string }.

Class Runtime := {
  randombytes4 : nat -> Buffer;
  randombytes4_length : forall k, List.length (randombytes4 k) = 4%nat;
  url_parse : string -> ParsedUrl;
  Buffer_toString : Buffer -> string
}.

(** The fields of the parent client that the tracker reads. *)
Record Client := {
  infoHash : string;
  _infoHashBuffer : Buffer;
  _peerIdBuffer : Buffer;
  _port : Z
}.

(** [opts.infoHash]: absent, one buffer, or an array of buffers. *)
Inductive InfoHashOpt :=
| IH_undefined
| IH_buffer (b : Buffer)
| IH_array (l : list Buffer).

(** The options object; [event] is [None] when undefined, [left] is [None]
    when null or undefined.  The caller owns the object and may pass it to
    several calls: [object_id] is its identity, the same for every call made
    with that object, and the other fields are its content when it is passed
    for the first time.  The caller is taken to leave an object alone once it
    has passed it; the tracker itself writes [_scrape] into it. *)
Record Opts := {
  object_id : nat;
  event : option string;
  _scrape : bool;
  opts_infoHash : InfoHashOpt;
  downloaded : JsNumeric;
  opts_left : option JsNumeric;
  uploaded : JsNumeric;
  numwant : Z
}.

Definition set_scrape (o : Opts) : Opts :=
  {| object_id := object_id o;
     event := event o; _scrape := true; opts_infoHash := opts_infoHash o;
     downloaded := downloaded o; opts_left := opts_left o;
     uploaded := uploaded o; numwant := numwant o |}.

(** The variables captured by the closures of one [_request] call.  [timeout]
    and [socket] are [false] once the variable is null.  [opts] is the
    caller's object, shared with every other request made from it (those
    with the same [object_id]). *)
Record Request := {
  opts : Opts;
  transactionId : Buffer;
  timeout : bool;
  socket : bool;
  parsedUrl : ParsedUrl
}.

(** The tracker object.  A cleanup closure is named by the index of its
    request in [requests].  [maybeDestroyCleanup] and [destroyTimeout] (the
    [timeout] variable of [destroy]) hold the callback of the [destroy] call
    whose closure they belong to.  [entropy] counts the calls of
    [randombytes]. *)
Record UDPTracker := {
  client : Client;
  announceUrl : string;
  destroyed : bool;
  interval : option Z;
  cleanupFns : list nat;
  maybeDestroyCleanup : option nat;
  destroyTimeout : option nat;
  requests : list Request;
  entropy : nat
}.

(** Events emitted on the client. *)
Inductive ClientEvent :=
| warning (message : string)
| update (announce : string) (complete incomplete : Z)
| peer (addr : string)
| scrape_event (announce : string) (hash : option string)
    (complete downloaded incomplete : Z).

(** What a handler does to the outside, in order.  [Uncaught] is an
    exception that leaves the handler: nothing in this file catches it. *)
Inductive Effect :=
| Emit (e : ClientEvent)
| SocketSend (rid : nat) (message : Buffer) (to_port : Z) (to_host : string)
| SocketClose (rid : nat)
| Callback (cb : nat)
| Uncaught.

(* ---- field updates ---- *)

Definition with_timeout (b : bool) (r : Request) : Request :=
  {| opts := opts r; transactionId := transactionId r; timeout := b;
     socket := socket r; parsedUrl := parsedUrl r |}.

Definition with_socket (b : bool) (r : Request) : Request :=
  {| opts := opts r; transactionId := transactionId r; timeout := timeout r;
     socket := b; parsedUrl := parsedUrl r |}.

Definition with_transactionId (t : Buffer) (r : Request) : Request :=
  {| opts := opts r; transactionId := t; timeout := timeout r;
     socket := socket r; parsedUrl := parsedUrl r |}.

Definition with_opts (o : Opts) (r : Request) : Request :=
  {| opts := o; transactionId := transactionId r; timeout := timeout r;
     socket := socket r; parsedUrl := parsedUrl r |}.

Definition with_port (p : Z) (r : Request) : Request :=
  {| opts := opts r; transactionId := transactionId r; timeout := timeout r;
     socket := socket r;
     parsedUrl := {| port := Some p; hostname := hostname (parsedUrl r) |} |}.

Fixpoint list_update {A} (i : nat) (f : A -> A) (l : list A) : list A :=
  match l, i with
  | [], _ => []
  | x :: t, O => f x :: t
  | x :: t, S i' => x :: list_update i' f t
  end.

Definition set_destroyed (b : bool) (s : UDPTracker) : UDPTracker :=
  {| client := client s; announceUrl := announceUrl s; destroyed := b;
     interval := interval s; cleanupFns := cleanupFns s;
     maybeDestroyCleanup := maybeDestroyCleanup s;
     destroyTimeout := destroyTimeout s; requests := requests s;
     entropy := entropy s |}.

Definition set_interval (i : option Z) (s : UDPTracker) : UDPTracker :=
  {| client := client s; announceUrl := announceUrl s; destroyed := destroyed s;
     interval := i; cleanupFns := cleanupFns s;
     maybeDestroyCleanup := maybeDestroyCleanup s;
     destroyTimeout := destroyTimeout s; requests := requests s;
     entropy := entropy s |}.

Definition set_cleanupFns (l : list nat) (s : UDPTracker) : UDPTracker :=
  {| client := client s; announceUrl := announceUrl s; destroyed := destroyed s;
     interval := interval s; cleanupFns := l;
     maybeDestroyCleanup := maybeDestroyCleanup s;
     destroyTimeout := destroyTimeout s; requests := requests s;
     entropy := entropy s |}.

Definition set_maybeDestroyCleanup (f : option nat) (s : UDPTracker) : UDPTracker :=
  {| client := client s; announceUrl := announceUrl s; destroyed := destroyed s;
     interval := interval s; cleanupFns := cleanupFns s;
     maybeDestroyCleanup := f;
     destroyTimeout := destroyTimeout s; requests := requests s;
     entropy := entropy s |}.

Definition set_destroyTimeout (t : option nat) (s : UDPTracker) : UDPTracker :=
  {| client := client s; announceUrl := announceUrl s; destroyed := destroyed s;
     interval := interval s; cleanupFns := cleanupFns s;
     maybeDestroyCleanup := maybeDestroyCleanup s;
     destroyTimeout := t; requests := requests s;
     entropy := entropy s |}.

Definition set_requests (l : list Request) (s : UDPTracker) : UDPTracker :=
  {| client := client s; announceUrl := announceUrl s; destroyed := destroyed s;
     interval := interval s; cleanupFns := cleanupFns s;
     maybeDestroyCleanup := maybeDestroyCleanup s;
     destroyTimeout := destroyTimeout s; requests := l;
     entropy := entropy s |}.

Definition set_entropy (n : nat) (s : UDPTracker) : UDPTracker :=
  {| client := client s; announceUrl := announceUrl s; destroyed := destroyed s;
     interval := interval s; cleanupFns := cleanupFns s;
     maybeDestroyCleanup := maybeDestroyCleanup s;
     destroyTimeout := destroyTimeout s; requests := requests s;
     entropy := n |}.

Definition update_request (rid : nat) (f : Request -> Request) (s : UDPTracker)
  : UDPTracker :=
  set_requests (list_update rid f (requests s)) s.

(* ================================================================== *)
(** ** unordered-array-remove and Array.prototype.indexOf *)
(* ================================================================== *)

(** [arr.indexOf(x)]: the first index holding [x], or -1. *)
Fixpoint indexOf (arr : list nat) (x : nat) : Z :=
  match arr with
  | [] => -1
  | y :: rest =>
      if Nat.eqb y x then 0
      else let i := indexOf rest x in if i <? 0 then -1 else i + 1
  end.

(** [arrayRemove(arr, i)]: out of range does nothing; otherwise pop the last
    element and, unless [i] was the last index, store it at [i]. *)
Definition arrayRemove (arr : list nat) (i : Z) : list nat :=
  if (i >=? Z.of_nat (List.length arr)) || (i <? 0) then arr
  else
    let last_elt := last arr O in
    let arr' := removelast arr in
    if i <? Z.of_nat (List.length arr')
    then list_update (Z.to_nat i) (fun _ => last_elt) arr'
    else arr'.

(* ================================================================== *)
(** ** Handlers: state passing with an effect log *)
(* ================================================================== *)

Definition Action := UDPTracker -> UDPTracker * list Effect.

Definition skip : Action := fun self => (self, []).

Definition andThen (a b : Action) : Action :=
  fun self =>
    let (s1, o1) := a self in
    let (s2, o2) := b s1 in
    (s2, o1 ++ o2).

Declare Scope action_scope.
Delimit Scope action_scope with action.
Bind Scope action_scope with Action.
Notation "a ;; b" := (andThen a b) (at level 61, right associativity) : action_scope.
Local Open Scope action_scope.

Definition effect (e : Effect) : Action := fun self => (self, [e]).

Definition emit (e : ClientEvent) : Action := effect (Emit e).

Definition modify (f : UDPTracker -> UDPTracker) : Action := fun self => (f self, []).

(** Run [k] on the closure variables of request [rid]. *)
Definition withRequest (rid : nat) (k : Request -> Action) : Action :=
  fun self =>
    match nth_error (requests self) rid with
    | Some r => k r self
    | None => (self, [])
    end.

Fixpoint forEach {A} (l : list A) (f : A -> Action) : Action :=
  match l with
  | [] => skip
  | x :: rest => f x ;; forEach rest f
  end.

Definition is_some {A} (o : option A) : bool :=
  match o with Some _ => true | None => false end.

(** Modelled from the spec: [Tracker.prototype.setInterval] (lib/client/tracker.js)
    is missing from the sources; the spec says it resets the periodic
    re-announce timer to the new period. *)
Definition setInterval (ms : Z) : Action := modify (set_interval (Some ms)).

(** [clearInterval(self.interval)]. *)
Definition clearInterval : Action := modify (set_interval None).

Section Handlers.

Context {rt : Runtime}.

(** [UDPTracker.prototype.DEFAULT_ANNOUNCE_INTERVAL], 30 minutes in ms. *)
Definition DEFAULT_ANNOUNCE_INTERVAL : Z := 30 * 60 * 1000.

(** [genTransactionId()]: the next four random bytes. *)
Definition genTransactionId (k : Buffer -> Action) : Action :=
  fun self => k (randombytes4 (entropy self)) (set_entropy (S (entropy self)) self).

(** [cleanup], with the function it calls when [self.maybeDestroyCleanup] is
    set left open ([mdc], given the callback that closure captured). *)
Definition cleanup_ (mdc : nat -> Action) (rid : nat) : Action :=
  withRequest rid (fun r =>
    if timeout r then modify (update_request rid (with_timeout false)) else skip) ;;
  withRequest rid (fun r =>
    if socket r then
      modify (fun self =>
        set_cleanupFns (arrayRemove (cleanupFns self) (indexOf (cleanupFns self) rid)) self) ;;
      effect (SocketClose rid) ;;
      modify (update_request rid (with_socket false))
    else skip) ;;
  (fun self =>
     match maybeDestroyCleanup self with
     | Some cb => mdc cb self
     | None => skip self
     end).

(** [destroyCleanup] of [destroy(cb)], over the cleanup function it calls. *)
Definition destroyCleanup_ (cleanup : nat -> Action) (cb : nat) : Action :=
  (fun self =>
     if is_some (destroyTimeout self)
     then modify (set_destroyTimeout None) self
     else skip self) ;;
  modify (set_maybeDestroyCleanup None) ;;
  (fun self => forEach (cleanupFns self) cleanup self) ;;
  modify (set_cleanupFns []) ;;
  effect (Callback cb).

(** [destroyCleanup] sets [self.maybeDestroyCleanup] to null before it calls
    the cleanup functions, so none of them calls back into it: the recursion
    between [cleanup] and [destroyCleanup] stops there
    (see [destroyCleanup_unfold]). *)
Definition destroyCleanup (cb : nat) : Action :=
  destroyCleanup_ (cleanup_ (fun _ => skip)) cb.

(** The function stored in [self.maybeDestroyCleanup] by [destroy(cb)]. *)
Definition maybeDestroyCleanup_fn (cb : nat) : Action :=
  fun self =>
    if Nat.eqb (List.length (cleanupFns self)) 0 then destroyCleanup cb self
    else skip self.

Definition cleanup (rid : nat) : Action := cleanup_ maybeDestroyCleanup_fn rid.

(** [err.message += ' (' + self.announceUrl + ')'], skipped for an empty message. *)
Definition with_url (message url : string) : string :=
  if String.eqb message "" then message
  else (message ++ " (" ++ url ++ ")")%string.

Definition onError (rid : nat) (message : string) : Action :=
  cleanup rid ;;
  (fun self =>
     if destroyed self then skip self
     else emit (warning (with_url message (announceUrl self))) self).

(** [send(message)]: default the port to 80, then [socket.send]. *)
Definition send (rid : nat) (message : Buffer) : Action :=
  withRequest rid (fun r =>
    match port (parsedUrl r) with
    | Some _ => skip
    | None => modify (update_request rid (with_port 80))
    end) ;;
  withRequest rid (fun r =>
    match port (parsedUrl r) with
    | Some p => effect (SocketSend rid message p (hostname (parsedUrl r)))
    | None => skip
    end).

(** [opts.left != null ? toUInt64(opts.left) : Buffer.from('FFFFFFFFFFFFFFFF', 'hex')]. *)
Definition left_field (o : Opts) : option Buffer :=
  match opts_left o with
  | Some l => toUInt64 l
  | None => Some (Buffer_from_hex "FFFFFFFFFFFFFFFF")
  end.

(** The buffers concatenated by the inner [announce]; [None] when one of the
    encoders throws while the array is built. *)
Definition announce_fields (c : Client) (connectionId tid : Buffer) (o : Opts)
  : option (list Buffer) :=
  match toUInt64 (downloaded o), left_field o, toUInt64 (uploaded o),
        toUInt16 (_port c) with
  | Some downloaded_bytes, Some left_bytes, Some uploaded_bytes, Some port_bytes =>
      Some [ connectionId;
             common.toUInt32 common.ACTIONS.ANNOUNCE;
             tid;
             _infoHashBuffer c;
             _peerIdBuffer c;
             downloaded_bytes;
             left_bytes;
             uploaded_bytes;
             common.toUInt32 (common.EVENTS_or_0 (event o));
             common.toUInt32 0;
             common.toUInt32 0;
             common.toUInt32 (numwant o);
             port_bytes ]
  | _, _, _, _ => None
  end.

(** The inner [announce]: the transaction id is replaced first; an exception
    of an encoder then leaves the handler before anything is sent. *)
Definition announce (rid : nat) (connectionId : Buffer) (o : Opts) : Action :=
  genTransactionId (fun tid =>
    modify (update_request rid (with_transactionId tid)) ;;
    (fun self =>
       match announce_fields (client self) connectionId tid o with
       | Some fields => send rid (List.concat fields) self
       | None => effect Uncaught self
       end)).

(** The hashes of a scrape request: [Buffer.concat(opts.infoHash)] for a
    non-empty array, else [opts.infoHash || self.client._infoHashBuffer].  An
    empty array is truthy, so it is itself handed to the outer
    [Buffer.concat] as an element, which throws: [None]. *)
Definition scrape_hashes (c : Client) (o : Opts) : option Buffer :=
  match opts_infoHash o with
  | IH_array (h :: t) => Some (List.concat (h :: t))
  | IH_array [] => None
  | IH_buffer b => Some b
  | IH_undefined => Some (_infoHashBuffer c)
  end.

(** The inner [scrape]: as for [announce], the transaction id is replaced
    before the message is built. *)
Definition scrape (rid : nat) (connectionId : Buffer) : Action :=
  genTransactionId (fun tid =>
    modify (update_request rid (with_transactionId tid)) ;;
    withRequest rid (fun r self =>
      match scrape_hashes (client self) (opts r) with
      | Some hashes =>
          send rid (List.concat [ connectionId;
                             common.toUInt32 common.ACTIONS.SCRAPE;
                             tid;
                             hashes ]) self
      | None => effect Uncaught self
      end)).

(** [x || y] on strings: the empty string is falsy. *)
Definition or_string (x y : string) : string :=
  if String.eqb x "" then y else x.

(** The [infoHashes] array of the scrape reply branch. *)
Definition infoHashes (c : Client) (o : Opts) : list string :=
  match opts_infoHash o with
  | IH_array (h :: t) => map toString_hex (h :: t)
  | IH_array [] => [ infoHash c ]
  | IH_buffer b => [ or_string (toString_hex b) (infoHash c) ]
  | IH_undefined => [ infoHash c ]
  end.

Definition onAnnounceReply (rid : nat) (msg : Buffer) : Action :=
  cleanup rid ;;
  (fun self =>
     if destroyed self then skip self
     else if (List.length msg <? 20)%nat then onError rid "invalid announce message" self
     else
       let interval := readUInt32BE msg 8 in
       ((if interval =? 0 then skip else setInterval (interval * 1000)) ;;
        emit (update (announceUrl self) (readUInt32BE msg 16) (readUInt32BE msg 12)) ;;
        match compact2string_multi (slice_from msg 20) with
        | inl err => emit (warning err)
        | inr addrs => forEach addrs (fun addr => emit (peer addr))
        end) self).

Definition onScrapeReply (rid : nat) (o : Opts) (msg : Buffer) : Action :=
  cleanup rid ;;
  (fun self =>
     if destroyed self then skip self
     else if (List.length msg <? 20)%nat
             || negb (Nat.eqb ((List.length msg - 8) mod 12) 0)
     then onError rid "invalid scrape message" self
     else
       let hashes := infoHashes (client self) o in
       forEach (seq 0 ((List.length msg - 8) / 12)) (fun i =>
         emit (scrape_event (announceUrl self) (nth_error hashes i)
                 (readUInt32BE msg (8 + i * 12))
                 (readUInt32BE msg (12 + i * 12))
                 (readUInt32BE msg (16 + i * 12)))) self).

Definition onErrorReply (rid : nat) (msg : Buffer) : Action :=
  cleanup rid ;;
  (fun self =>
     if destroyed self then skip self
     else if (List.length msg <? 8)%nat then onError rid "invalid error message" self
     else emit (warning (Buffer_toString (slice_from msg 8))) self).

(** The top-level test of [onSocketMessage]. *)
Definition invalid_transaction (msg tid : Buffer) : bool :=
  (List.length msg <? 8)%nat || negb (readUInt32BE msg 4 =? readUInt32BE tid 0).

Definition onSocketMessage (rid : nat) (msg : Buffer) : Action :=
  withRequest rid (fun r =>
    if invalid_transaction msg (transactionId r)
    then onError rid "tracker sent invalid transaction id"
    else
      let action := readUInt32BE msg 0 in
      if action =? 0 then
        if (List.length msg <? 16)%nat then onError rid "invalid udp handshake"
        else if _scrape (opts r) then scrape rid (slice msg 8 16)
        else announce rid (slice msg 8 16) (opts r)
      else if action =? 1 then onAnnounceReply rid msg
      else if action =? 2 then onScrapeReply rid (opts r) msg
      else if action =? 3 then onErrorReply rid msg
      else onError rid "tracker sent invalid action").

(** ['' + opts.event]. *)
Definition event_text (e : option string) : string :=
  match e with Some s => s | None => "undefined" end.

Definition is_stopped (e : option string) : bool :=
  match e with Some s => String.eqb s "stopped" | None => false end.

(** The callback of the request timeout. *)
Definition onTimeout (rid : nat) : Action :=
  withRequest rid (fun r =>
    (if is_stopped (event (opts r)) then cleanup rid
     else onError rid ("tracker request timed out (" ++ event_text (event (opts r)) ++ ")")) ;;
    modify (update_request rid (with_timeout false))).

Definition connect_message (tid : Buffer) : Buffer :=
  List.concat [ common.CONNECTION_ID;
           common.toUInt32 common.ACTIONS.CONNECT;
           tid ].

Definition UDPTracker__request (o : Opts) : Action :=
  fun self =>
    let rid := List.length (requests self) in
    genTransactionId (fun tid =>
      modify (fun s =>
        set_requests (requests s ++
          [ {| opts := o; transactionId := tid; timeout := true; socket := true;
               parsedUrl := url_parse (announceUrl s) |} ]) s) ;;
      modify (fun s => set_cleanupFns (cleanupFns s ++ [rid]) s) ;;
      send rid (connect_message tid)) self.

(** The object a call is made with, as the tracker finds it: an object that
    was passed before is held by the request made from it, with what was
    written into it since. *)
Definition deref (o : Opts) (self : UDPTracker) : Opts :=
  match find (fun r => Nat.eqb (object_id (opts r)) (object_id o)) (requests self) with
  | Some r => opts r
  | None => o
  end.

Definition UDPTracker_announce (o : Opts) : Action :=
  fun self =>
    if destroyed self then skip self else UDPTracker__request (deref o self) self.

(** [opts._scrape = true] writes into the caller's object: every request that
    was made from the object [k] reads the flag from then on. *)
Definition mark_scrape (k : nat) (r : Request) : Request :=
  if Nat.eqb (object_id (opts r)) k then with_opts (set_scrape (opts r)) r else r.

Definition write_scrape (k : nat) (self : UDPTracker) : UDPTracker :=
  set_requests (map (mark_scrape k) (requests self)) self.

Definition UDPTracker_scrape (o : Opts) : Action :=
  fun self =>
    if destroyed self then skip self
    else (modify (write_scrape (object_id o)) ;;
          (fun s => UDPTracker__request (set_scrape (deref o s)) s)) self.

Definition UDPTracker_destroy (cb : nat) : Action :=
  fun self =>
    if destroyed self then effect (Callback cb) self
    else
      (modify (set_destroyed true) ;;
       clearInterval ;;
       (fun s =>
          if Nat.eqb (List.length (cleanupFns s)) 0 then destroyCleanup cb s
          else (modify (set_destroyTimeout (Some cb)) ;;
                modify (set_maybeDestroyCleanup (Some cb))) s)) self.

(** Modelled from the spec: the [Tracker] constructor (lib/client/tracker.js)
    is missing from the sources; a new session is not destroyed and, here,
    has no periodic timer yet. *)
Definition new_UDPTracker (c : Client) (url : string) : UDPTracker :=
  {| client := c; announceUrl := url; destroyed := false; interval := None;
     cleanupFns := []; maybeDestroyCleanup := None; destroyTimeout := None;
     requests := []; entropy := O |}.

(** What can happen to a session: a call of its API, or one of the events its
    requests listen for.  A timer fires only while armed and a socket delivers
    only while its listeners are attached. *)
Inductive Input :=
| Call_announce (o : Opts)
| Call_scrape (o : Opts)
| Call_destroy (cb : nat)
| Call_setInterval (ms : Z)
| Request_timeout (rid : nat)
| Socket_error (rid : nat) (message : string)
| Socket_message (rid : nat) (msg : Buffer)
| Destroy_timeout.

Definition step (i : Input) : Action :=
  match i with
  | Call_announce o => UDPTracker_announce o
  | Call_scrape o => UDPTracker_scrape o
  | Call_destroy cb => UDPTracker_destroy cb
  | Call_setInterval ms => setInterval ms
  | Request_timeout rid =>
      withRequest rid (fun r => if timeout r then onTimeout rid else skip)
  | Socket_error rid message =>
      withRequest rid (fun r => if socket r then onError rid message else skip)
  | Socket_message rid msg =>
      withRequest rid (fun r => if socket r then onSocketMessage rid msg else skip)
  | Destroy_timeout =>
      fun self =>
        match destroyTimeout self with
        | Some cb => destroyCleanup cb self
        | None => skip self
        end
  end.

Definition run (ins : list Input) : Action := forEach ins step.

Definition reachable (self : UDPTracker) : Prop :=
  exists c url ins, self = fst (run ins (new_UDPTracker c url)).

End Handlers.

(* ---- observations on an effect log ---- *)

Definition emitted (out : list Effect) : list ClientEvent :=
  flat_map (fun e => match e with Emit ev => [ev] | _ => [] end) out.

Definition sent (out : list Effect) : list Buffer :=
  flat_map (fun e => match e with SocketSend _ m _ _ => [m] | _ => [] end) out.

Definition is_scrape_event (ev : ClientEvent) : bool :=
  match ev with scrape_event _ _ _ _ _ => true | _ => false end.

Definition is_update (ev : ClientEvent) : bool :=
  match ev with update _ _ _ => true | _ => false end.

Definition is_peer (ev : ClientEvent) : bool :=
  match ev with peer _ => true | _ => false end.

Definition is_warning (ev : ClientEvent) : bool :=
  match ev with warning _ => true | _ => false end.

(** A request whose socket is open and whose listeners are attached. *)
Definition listening (self : UDPTracker) (rid : nat) (r : Request) : Prop :=
  nth_error (requests self) rid = Some r /\ socket r = true.

(** A request after [cleanup]: timer cancelled, socket closed, not in the
    session's [cleanupFns]. *)
Definition cleaned_up (self : UDPTracker) (rid : nat) : Prop :=
  (exists r, nth_error (requests self) rid = Some r
             /\ timeout r = false /\ socket r = false)
  /\ ~ In rid (cleanupFns self).

(* ================================================================== *)
(** ** The outcome of a cleanup, in closed form *)
(* ================================================================== *)

(** A request after its [cleanup] ran: [timeout] and [socket] are null. *)
Definition closed (r : Request) : Request :=
  with_socket false (with_timeout false r).

(** [self.cleanupFns] once the cleanup function of [rid] has removed itself. *)
Definition remaining (self : UDPTracker) (rid : nat) : list nat :=
  arrayRemove (cleanupFns self) (indexOf (cleanupFns self) rid).

(** Whether the cleanup of [rid] ends a pending [destroy]: the watcher is set
    and [rid] was the last active request. *)
Definition completes (self : UDPTracker) (rid : nat) : bool :=
  is_some (maybeDestroyCleanup self) && Nat.eqb (List.length (remaining self rid)) 0.

Definition after_cleanup (rid : nat) (self : UDPTracker) : UDPTracker :=
  {| client := client self; announceUrl := announceUrl self;
     destroyed := destroyed self; interval := interval self;
     cleanupFns := remaining self rid;
     maybeDestroyCleanup :=
       if completes self rid then None else maybeDestroyCleanup self;
     destroyTimeout :=
       if completes self rid then None else destroyTimeout self;
     requests := list_update rid closed (requests self);
     entropy := entropy self |}.

(** The callback of a pending [destroy], when the cleanup of [rid] ends it. *)
Definition completion (self : UDPTracker) (rid : nat) : list Effect :=
  match maybeDestroyCleanup self with
  | Some cb => if Nat.eqb (List.length (remaining self rid)) 0 then [Callback cb] else []
  | None => []
  end.

(** The requests after the cleanup functions of [l] ran, one after the other. *)
Fixpoint close_all (l : list nat) (reqs : list Request) : list Request :=
  match l with
  | [] => reqs
  | rid :: rest => close_all rest (list_update rid closed reqs)
  end.

(** The session after [destroyCleanup]. *)
Definition after_destroyCleanup (self : UDPTracker) : UDPTracker :=
  {| client := client self; announceUrl := announceUrl self;
     destroyed := destroyed self; interval := interval self;
     cleanupFns := [];
     maybeDestroyCleanup := None;
     destroyTimeout := None;
     requests := close_all (cleanupFns self) (requests self);
     entropy := entropy self |}.

(** The warning [onError] emits, unless the session is destroyed. *)
Definition error_warning (self : UDPTracker) (message : string) : list Effect :=
  if destroyed self then []
  else [Emit (warning (with_url message (announceUrl self)))].

(** The request after [send] defaulted its port, and the port it sends to. *)
Definition ensure_port (r : Request) : Request :=
  match port (parsedUrl r) with
  | Some _ => r
  | None => with_port 80 r
  end.

Definition port_or_80 (r : Request) : Z :=
  match port (parsedUrl r) with
  | Some p => p
  | None => 80
  end.

(** The session after the follow-up request of [rid] was sent with the
    transaction id [tid]. *)
Definition after_followup (rid : nat) (tid : Buffer) (self : UDPTracker) : UDPTracker :=
  update_request rid (fun r => ensure_port (with_transactionId tid r))
    (set_entropy (S (entropy self)) self).

(** The session after the follow-up request of [rid] threw while its message
    was built: only the transaction id was replaced. *)
Definition after_thrown (rid : nat) (tid : Buffer) (self : UDPTracker) : UDPTracker :=
  update_request rid (with_transactionId tid) (set_entropy (S (entropy self)) self).

(** The scrape event for the [i]-th record of a scrape reply. *)
Definition scrape_record (self : UDPTracker) (o : Opts) (msg : Buffer) (i : nat)
  : ClientEvent :=
  scrape_event (announceUrl self) (nth_error (infoHashes (client self) o) i)
    (readUInt32BE msg (8 + i * 12))
    (readUInt32BE msg (12 + i * 12))
    (readUInt32BE msg (16 + i * 12)).

(** The test of the scrape branch: too short, or not a whole number of records. *)
Definition invalid_scrape (msg : Buffer) : bool :=
  (List.length msg <? 20)%nat || negb (Nat.eqb ((List.length msg - 8) mod 12) 0).

(* ================================================================== *)
(** ** The invariant of a session *)
(* ================================================================== *)

(** What holds of every session that the operations can produce: the cleanup
    functions registered are those of the requests whose socket is open, once
    each; an armed request timeout belongs to such a request; the watcher
    [maybeDestroyCleanup] and the grace timer of [destroy] are set together,
    only on a destroyed session that still has active requests. *)
Record wf (self : UDPTracker) : Prop := {
  wf_nodup : NoDup (cleanupFns self);
  wf_active : forall rid,
    In rid (cleanupFns self) <-> exists r, listening self rid r;
  wf_timeout : forall rid r,
    nth_error (requests self) rid = Some r -> timeout r = true -> socket r = true;
  wf_watcher : forall cb,
    maybeDestroyCleanup self = Some cb ->
    destroyed self = true /\ cleanupFns self <> [] /\ destroyTimeout self = Some cb;
  wf_timer : forall cb,
    destroyTimeout self = Some cb -> maybeDestroyCleanup self = Some cb;
  wf_drained :
    destroyed self = true -> maybeDestroyCleanup self = None -> cleanupFns self = []
}.

(** The session after [_request] registered the request [r]. *)
Definition after_request (r : Request) (self : UDPTracker) : UDPTracker :=
  {| client := client self; announceUrl := announceUrl self;
     destroyed := destroyed self; interval := interval self;
     cleanupFns := cleanupFns self ++ [List.length (requests self)];
     maybeDestroyCleanup := maybeDestroyCleanup self;
     destroyTimeout := destroyTimeout self;
     requests := requests self ++ [r];
     entropy := S (entropy self) |}.

(** The session after [destroy(cb)] found requests still active. *)
Definition after_destroy_pending (cb : nat) (self : UDPTracker) : UDPTracker :=
  {| client := client self; announceUrl := announceUrl self;
     destroyed := true; interval := None;
     cleanupFns := cleanupFns self;
     maybeDestroyCleanup := Some cb;
     destroyTimeout := Some cb;
     requests := requests self;
     entropy := entropy self |}.

(** The session after [destroy(cb)] found no active request. *)
Definition after_destroy_now (self : UDPTracker) : UDPTracker :=
  {| client := client self; announceUrl := announceUrl self;
     destroyed := true; interval := None;
     cleanupFns := [];
     maybeDestroyCleanup := None;
     destroyTimeout := None;
     requests := requests self;
     entropy := entropy self |}.

(** The closure variables of a request as [_request] creates them. *)
Definition fresh_request {rt : Runtime} (o : Opts) (self : UDPTracker) : Request :=
  {| opts := o; transactionId := randombytes4 (entropy self);
     timeout := true; socket := true;
     parsedUrl := url_parse (announceUrl self) |}.

(** The message of the request timeout. *)
Definition timeout_message (o : Opts) : string :=
  ("tracker request timed out (" ++ event_text (event o) ++ ")")%string.

(** The request an event is delivered to. *)
Definition target (i : Input) : option nat :=
  match i with
  | Request_timeout rid | Socket_error rid _ | Socket_message rid _ => Some rid
  | _ => None
  end.

(** Inputs that find nothing to run: a call on a destroyed session, a timer
    that is not armed, a socket without listeners. *)
Definition ignored (s : UDPTracker) (i : Input) : Prop :=
  match i with
  | Call_announce _ | Call_scrape _ => destroyed s = true
  | Request_timeout rid =>
      forall r, nth_error (requests s) rid = Some r -> timeout r = false
  | Socket_error rid _ | Socket_message rid _ =>
      forall r, nth_error (requests s) rid = Some r -> socket r = false
  | Destroy_timeout => destroyTimeout s = None
  | Call_destroy _ | Call_setInterval _ => False
  end.

(** What one input does to a session that satisfies the invariant: the effect
    log and the next session, by kind of transition. *)
Inductive outcome (s : UDPTracker) : Input -> list Effect -> UDPTracker -> Prop :=
| O_ignored i :
    ignored s i -> outcome s i [] s
| O_destroy_again cb :
    destroyed s = true -> outcome s (Call_destroy cb) [Callback cb] s
| O_destroy_now cb :
    destroyed s = false -> cleanupFns s = [] ->
    outcome s (Call_destroy cb) [Callback cb] (after_destroy_now s)
| O_destroy_pending cb :
    destroyed s = false -> cleanupFns s <> [] ->
    outcome s (Call_destroy cb) [] (after_destroy_pending cb s)
| O_setInterval ms :
    outcome s (Call_setInterval ms) [] (set_interval (Some ms) s)
| O_request o r m p h :
    destroyed s = false -> socket r = true ->
    outcome s (Call_announce o) [SocketSend (List.length (requests s)) m p h]
      (after_request r s)
| O_scrape o r m p h :
    destroyed s = false -> socket r = true ->
    outcome s (Call_scrape o) [SocketSend (List.length (requests s)) m p h]
      (after_request r (write_scrape (object_id o) s))
| O_followup rid r msg tid m p h :
    listening s rid r ->
    outcome s (Socket_message rid msg) [SocketSend rid m p h] (after_followup rid tid s)
| O_thrown rid r msg tid :
    listening s rid r ->
    outcome s (Socket_message rid msg) [Uncaught] (after_thrown rid tid s)
| O_cleanup i rid r ivl evs :
    target i = Some rid -> listening s rid r ->
    (destroyed s = true -> evs = [] /\ ivl = interval s) ->
    outcome s i (SocketClose rid :: completion s rid ++ map Emit evs)
      (set_interval ivl (after_cleanup rid s))
| O_grace cb :
    destroyTimeout s = Some cb ->
    outcome s Destroy_timeout (map SocketClose (cleanupFns s) ++ [Callback cb])
      (after_destroyCleanup s).

(* ================================================================== *)
(** ** A session to evaluate the handlers on *)
(* ================================================================== *)

(** Transaction ids count up from 0, every announce URL parses to
    tracker.example.org:6969, and text is decoded as ASCII. *)
Definition example_runtime : Runtime :=
  {| randombytes4 := fun k => [0; 0; 0; Z.of_nat k mod 256];
     randombytes4_length := fun k => eq_refl;
     url_parse := fun _ => {| port := Some 6969; hostname := "tracker.example.org" |};
     Buffer_toString := fun b =>
       string_of_list_ascii (map (fun z => ascii_of_nat (Z.to_nat z)) b) |}.

Definition example_client : Client :=
  {| infoHash := toString_hex (repeat 170 20);
     _infoHashBuffer := repeat 170 20;
     _peerIdBuffer := repeat 1 20;
     _port := 6881 |}.

Definition example_url : string := "udp://tracker.example.org:6969".

Definition example_opts : Opts :=
  {| object_id := 0;
     event := Some "started"%string; _scrape := false;
     opts_infoHash := IH_undefined;
     downloaded := JNumber 0; opts_left := None; uploaded := JNumber 0;
     numwant := 50 |}.

Definition example_session : UDPTracker := new_UDPTracker example_client example_url.

(** The connect reply to the first request: action 0, transaction id 0,
    connection id 01..08. *)
Definition example_connect_reply : Buffer :=
  [0;0;0;0; 0;0;0;0; 1;2;3;4;5;6;7;8].

(** One request waiting for its connect reply (transaction id 00000000). *)
Definition connecting : UDPTracker :=
  fst (run (rt := example_runtime) [Call_announce example_opts] example_session).

(** One announce request waiting for its reply (transaction id 00000001). *)
Definition announcing : UDPTracker :=
  fst (run (rt := example_runtime)
         [Call_announce example_opts; Socket_message 0 example_connect_reply]
         example_session).

(** One scrape request waiting for its reply (transaction id 00000001). *)
Definition scraping : UDPTracker :=
  fst (run (rt := example_runtime)
         [Call_scrape example_opts; Socket_message 0 example_connect_reply]
         example_session).

(** The same sessions after [destroy] was called with callback 7: the request
    is still active, the grace timer is running. *)
Definition connecting_destroyed : UDPTracker :=
  fst (run (rt := example_runtime)
         [Call_announce example_opts; Call_destroy 7] example_session).

Definition announcing_destroyed : UDPTracker :=
  fst (run (rt := example_runtime)
         [Call_announce example_opts; Socket_message 0 example_connect_reply;
          Call_destroy 7]
         example_session).

Definition scraping_destroyed : UDPTracker :=
  fst (run (rt := example_runtime)
         [Call_scrape example_opts; Socket_message 0 example_connect_reply;
          Call_destroy 7]
         example_session).

(** The closure variables of request 0 in these sessions. *)
Definition example_request (scrape : bool) (tid : Z) : Request :=
  {| opts := if scrape then set_scrape example_opts else example_opts;
     transactionId := [0; 0; 0; tid];
     timeout := true; socket := true;
     parsedUrl := {| port := Some 6969; hostname := "tracker.example.org" |} |}.

(** An announce reply to transaction 1: interval 1800, 5 leechers, 9 seeders,
    one peer 10.0.0.1:6881. *)
Definition example_announce_reply : Buffer :=
  [0;0;0;1; 0;0;0;1; 0;0;7;8; 0;0;0;5; 0;0;0;9; 10;0;0;1;26;225].

(** The same reply with a peer list cut short by one byte. *)
Definition example_announce_reply_cut : Buffer :=
  [0;0;0;1; 0;0;0;1; 0;0;7;8; 0;0;0;5; 0;0;0;9; 10;0;0;1;26].

(** A scrape reply to transaction 1 with one record: 9 seeders, 4 completed,
    5 leechers. *)
Definition example_scrape_reply : Buffer :=
  [0;0;0;2; 0;0;0;1; 0;0;0;9; 0;0;0;4; 0;0;0;5].

(** An error reply to transaction 1 with the text "no". *)
Definition example_error_reply : Buffer :=
  [0;0;0;3; 0;0;0;1; 110; 111].

(** [onErrorReply] with its length test taken out, to state that the test
    never decides anything. *)
Definition onErrorReply_unguarded {rt : Runtime} (rid : nat) (msg : Buffer) : Action :=
  (cleanup rid ;;
   (fun self =>
      if destroyed self then skip self
      else emit (warning (Buffer_toString (slice_from msg 8))) self))%action.

(** A request whose socket is closed (it no longer listens). *)
Definition idle (self : UDPTracker) (rid : nat) : Prop :=
  exists r, nth_error (requests self) rid = Some r /\ socket r = false.

(* ================================================================== *)
(** ** Further observations *)
(* ================================================================== *)

(** How many times the socket of [rid] is closed in an effect log. *)
Definition closes (rid : nat) (out : list Effect) : nat :=
  List.length
    (filter (fun e => match e with SocketClose x => Nat.eqb x rid | _ => false end) out).

(** Nothing is emitted on the client. *)
Definition silent (e : Effect) : Prop :=
  match e with Emit _ => False | _ => True end.

(** A byte count that [toUInt64] encodes in 8 bytes: an integer from 0 to
    2^64 - 1, given as a string of decimal digits or as a number below 2^53
    (a JavaScript number holds every integer, and bn.js accepts a number, only
    below that). *)
Definition encodable (v : JsNumeric) : Prop :=
  0 <= numeric_value v < 2 ^ 64
  /\ (is_string v = false -> numeric_value v < 2 ^ 53).

(** The fields of an announce request are in the range of their encoders. *)
Definition announce_encodable (c : Client) (o : Opts) : Prop :=
  encodable (downloaded o) /\ encodable (uploaded o)
  /\ (forall l, opts_left o = Some l -> encodable l)
  /\ 0 <= numwant o < 2 ^ 32
  /\ 0 <= _port c < 2 ^ 16.

(** Whether an input writes into the options object of the request [r]: a
    [scrape] call, not refused, made with the object [r] was made from. *)
Definition writes_into (self : UDPTracker) (i : Input) (r : Request) : bool :=
  match i with
  | Call_scrape o =>
      negb (destroyed self) && Nat.eqb (object_id (opts r)) (object_id o)
  | _ => false
  end.

(** Byte counts on every path of [toUInt64]: 2^40 as a number (arbitrary
    precision), 2^63 as a string, 7 as a number (two 32-bit words). *)
Definition example_counts : Opts :=
  {| object_id := 1;
     event := Some "completed"%string; _scrape := false;
     opts_infoHash := IH_undefined;
     downloaded := JNumber 1099511627776;
     opts_left := Some (JString 9223372036854775808);
     uploaded := JNumber 7;
     numwant := 50 |}.

Definition counting : UDPTracker :=
  fst (run (rt := example_runtime) [Call_announce example_counts] example_session).

(** 2^53 bytes downloaded, as a number. *)
Definition example_unsafe_counts : Opts :=
  {| object_id := 2;
     event := Some "completed"%string; _scrape := false;
     opts_infoHash := IH_undefined;
     downloaded := JNumber 9007199254740992;
     opts_left := None;
     uploaded := JNumber 0;
     numwant := 50 |}.

Definition counting_unsafe : UDPTracker :=
  fst (run (rt := example_runtime) [Call_announce example_unsafe_counts] example_session).

(** A scrape for two hashes, 11..11 and 22..22, waiting for its connect reply
    and for its scrape reply. *)
Definition example_two_hashes : Opts :=
  {| object_id := 3;
     event := None; _scrape := false;
     opts_infoHash := IH_array [repeat 17 20; repeat 34 20];
     downloaded := JNumber 0; opts_left := None; uploaded := JNumber 0;
     numwant := 50 |}.

Definition scrape_two_connecting : UDPTracker :=
  fst (run (rt := example_runtime) [Call_scrape example_two_hashes] example_session).

Definition scraping_two : UDPTracker :=
  fst (run (rt := example_runtime)
         [Call_scrape example_two_hashes; Socket_message 0 example_connect_reply]
         example_session).

(** A scrape reply to transaction 1 with two records: 9/4/5 and 3/2/1. *)
Definition example_scrape_reply_two : Buffer :=
  [0;0;0;2; 0;0;0;1; 0;0;0;9; 0;0;0;4; 0;0;0;5; 0;0;0;3; 0;0;0;2; 0;0;0;1].

(** One request whose timeout has fired. *)
Definition timed_out : UDPTracker :=
  fst (run (rt := example_runtime)
         [Call_announce example_opts; Request_timeout 0] example_session).

(** One scrape request waiting for its connect reply. *)
Definition scrape_connecting : UDPTracker :=
  fst (run (rt := example_runtime) [Call_scrape example_opts] example_session).

(* ================================================================== *)
(** * Properties *)
(* ================================================================== *)

(** ** Big-endian encoders *)

Lemma be_bytes_length : forall k n, List.length (be_bytes k n) = k.
Proof. induction k; intros; simpl; [reflexivity | now rewrite IHk]. Qed.

Lemma be_bytes_is_byte : forall k n, Forall is_byte (be_bytes k n).
Proof.
  induction k; intros; simpl; constructor; [| apply IHk].
  unfold is_byte. apply Z.mod_pos_bound. lia.
Qed.

Lemma fold_be_shift : forall l acc,
  fold_left (fun a b => a * 256 + b) l acc
  = acc * 256 ^ Z.of_nat (List.length l) + be_value l.
Proof.
  unfold be_value. induction l as [| b l IH]; intros acc.
  - simpl. lia.
  - cbn [fold_left List.length]. rewrite IH, (IH (0 * 256 + b)).
    rewrite Nat2Z.inj_succ, Z.pow_succ_r by lia. ring.
Qed.

Lemma be_value_cons : forall b l,
  be_value (b :: l) = b * 256 ^ Z.of_nat (List.length l) + be_value l.
Proof.
  intros. unfold be_value at 1. cbn [fold_left]. rewrite fold_be_shift. ring.
Qed.

Lemma be_value_be_bytes : forall k n,
  0 <= n -> be_value (be_bytes k n) = n mod 256 ^ Z.of_nat k.
Proof.
  induction k; intros n Hn.
  - cbn. now rewrite Z.mod_1_r.
  - cbn [be_bytes]. rewrite be_value_cons, be_bytes_length, IHk by assumption.
    rewrite Nat2Z.inj_succ, Z.pow_succ_r by lia.
    rewrite (Z.mul_comm 256), Z.rem_mul_r by lia. ring.
Qed.

Lemma be_bytes_pad : forall j k n,
  0 <= n < 256 ^ Z.of_nat k ->
  be_bytes (j + k) n = repeat 0 j ++ be_bytes k n.
Proof.
  induction j; intros k n Hn; [reflexivity |].
  cbn [Nat.add be_bytes repeat app]. rewrite IHj by assumption. f_equal.
  rewrite Z.div_small; [reflexivity |]. split; [lia |].
  apply Z.lt_le_trans with (256 ^ Z.of_nat k); [lia |].
  apply Z.pow_le_mono_r; lia.
Qed.

Lemma repeat_shift : forall {A} (x : A) m l, repeat x (S m) ++ l = repeat x m ++ x :: l.
Proof. induction m; intros; simpl in *; [reflexivity | now rewrite <- IHm]. Qed.

Lemma unshift_to_8_pad : forall fuel l,
  (8 - List.length l <= fuel)%nat ->
  unshift_to_8 fuel l = repeat 0 (8 - List.length l) ++ l.
Proof.
  induction fuel; intros l H.
  - replace (8 - List.length l)%nat with O by lia. reflexivity.
  - cbn [unshift_to_8]. destruct (List.length l <? 8)%nat eqn:E.
    + apply Nat.ltb_lt in E. rewrite IHfuel by (cbn [List.length]; lia).
      cbn [List.length].
      replace (8 - List.length l)%nat with (S (8 - S (List.length l))) by lia.
      now rewrite repeat_shift.
    + apply Nat.ltb_ge in E.
      replace (8 - List.length l)%nat with O by lia. reflexivity.
Qed.

Lemma BN_byteLength_bound : forall n,
  0 <= n < 2 ^ 64 ->
  (Nat.max 1 (BN_byteLength n) <= 8)%nat
  /\ n < 256 ^ Z.of_nat (Nat.max 1 (BN_byteLength n)).
Proof.
  intros n [H0 H64]. unfold BN_byteLength.
  destruct (n <=? 0) eqn:E.
  - apply Z.leb_le in E. cbn. lia.
  - apply Z.leb_gt in E.
    assert (Hl : 0 <= Z.log2 n < 64).
    { split; [apply Z.log2_nonneg | now apply Z.log2_lt_pow2]. }
    assert (Hq : 0 <= Z.log2 n / 8 < 8).
    { split; [apply Z.div_pos; lia | apply Z.div_lt_upper_bound; lia]. }
    split; [lia |].
    replace (Z.of_nat (Nat.max 1 (Z.to_nat (Z.log2 n / 8 + 1))))
      with (Z.log2 n / 8 + 1) by lia.
    change 256 with (2 ^ 8). rewrite <- Z.pow_mul_r by lia.
    apply Z.log2_lt_pow2; [lia |].
    pose proof (Z.mod_pos_bound (Z.log2 n) 8 ltac:(lia)).
    pose proof (Z.div_mod (Z.log2 n) 8 ltac:(lia)). lia.
Qed.

Lemma BN_path_big_endian : forall n,
  0 <= n < 2 ^ 64 -> unshift_to_8 8 (BN_toArray n) = be_bytes 8 n.
Proof.
  intros n Hn. destruct (BN_byteLength_bound n Hn) as [Hk Hlt].
  unfold BN_toArray. rewrite Z.abs_eq by lia. rewrite unshift_to_8_pad by lia.
  rewrite be_bytes_length.
  rewrite <- be_bytes_pad by lia. f_equal. lia.
Qed.

Lemma uint32_path_big_endian : forall n,
  0 <= n <= MAX_UINT -> common.toUInt32 0 ++ common.toUInt32 n = be_bytes 8 n.
Proof.
  intros n Hn. unfold common.toUInt32, MAX_UINT in *.
  change 8%nat with (4 + 4)%nat. rewrite (be_bytes_pad 4 4 n); [reflexivity |].
  change (256 ^ Z.of_nat 4) with 4294967296. lia.
Qed.

Lemma new_BN_encodable : forall v,
  encodable v -> new_BN v = Some (numeric_value v).
Proof.
  intros [n | n] [Hr Hn]; [| reflexivity].
  cbn [numeric_value is_string] in *. specialize (Hn eq_refl). unfold new_BN.
  destruct (Z.ltb_spec (Z.abs n) (2 ^ 53)) as [_ | Hge]; [reflexivity | lia].
Qed.

Lemma toUInt64_be_bytes : forall v,
  encodable v -> toUInt64 v = Some (be_bytes 8 (numeric_value v)).
Proof.
  intros v Hv. pose proof Hv as [Hr _]. unfold toUInt64.
  destruct ((numeric_value v >? MAX_UINT) || is_string v) eqn:E.
  - rewrite (new_BN_encodable v Hv). f_equal. now apply BN_path_big_endian.
  - apply orb_false_iff in E. destruct E as [E _]. f_equal.
    apply uint32_path_big_endian. unfold MAX_UINT in *. lia.
Qed.

Lemma toUInt16_be_bytes : forall n,
  0 <= n < 2 ^ 16 -> toUInt16 n = Some (be_bytes 2 n).
Proof.
  intros n Hn. unfold toUInt16.
  destruct (Z.leb_spec 0 n); [| lia].
  destruct (Z.leb_spec n 65535); [reflexivity | lia].
Qed.

(** The left field of an announce request, in closed form. *)
Lemma left_field_be_bytes : forall o,
  (forall l, opts_left o = Some l -> encodable l) ->
  left_field o
  = Some (match opts_left o with
          | Some l => be_bytes 8 (numeric_value l)
          | None => repeat 255 8
          end).
Proof.
  intros o H. unfold left_field. destruct (opts_left o) as [l |]; [| reflexivity].
  now apply toUInt64_be_bytes, H.
Qed.

(** The announce request under [announce_encodable], field by field. *)
Lemma announce_fields_encodable : forall c connectionId tid o,
  announce_encodable c o ->
  announce_fields c connectionId tid o
  = Some [ connectionId; common.toUInt32 1; tid; _infoHashBuffer c; _peerIdBuffer c;
           be_bytes 8 (numeric_value (downloaded o));
           match opts_left o with
           | Some l => be_bytes 8 (numeric_value l)
           | None => repeat 255 8
           end;
           be_bytes 8 (numeric_value (uploaded o));
           common.toUInt32 (common.EVENTS_or_0 (event o));
           common.toUInt32 0; common.toUInt32 0;
           common.toUInt32 (numwant o);
           be_bytes 2 (_port c) ].
Proof.
  intros c connectionId tid o (Hd & Hu & Hl & _ & Hp). unfold announce_fields.
  rewrite (toUInt64_be_bytes _ Hd), (toUInt64_be_bytes _ Hu).
  rewrite (left_field_be_bytes o Hl), (toUInt16_be_bytes _ Hp). reflexivity.
Qed.

(** ** Lists: update at an index, indexOf, arrayRemove *)

Lemma list_update_length : forall {A} (f : A -> A) l i,
  List.length (list_update i f l) = List.length l.
Proof.
  intros A f. induction l as [| x l IH]; intros [| i]; simpl; auto.
Qed.

Lemma nth_error_list_update : forall {A} (f : A -> A) l i j,
  nth_error (list_update i f l) j
  = if Nat.eqb i j then option_map f (nth_error l j) else nth_error l j.
Proof.
  intros A f. induction l as [| x l IH]; intros [| i] [| j]; simpl; auto.
  destruct (Nat.eqb i j); reflexivity.
Qed.

Lemma nth_error_list_update_eq : forall {A} (f : A -> A) l i x,
  nth_error l i = Some x -> nth_error (list_update i f l) i = Some (f x).
Proof.
  intros. rewrite nth_error_list_update, Nat.eqb_refl, H. reflexivity.
Qed.

Lemma nth_error_list_update_neq : forall {A} (f : A -> A) l i j,
  i <> j -> nth_error (list_update i f l) j = nth_error l j.
Proof.
  intros. rewrite nth_error_list_update.
  destruct (Nat.eqb_spec i j); [contradiction | reflexivity].
Qed.

Lemma list_update_compose : forall {A} (f g : A -> A) l i,
  list_update i f (list_update i g l) = list_update i (fun x => f (g x)) l.
Proof.
  intros A f g. induction l as [| x l IH]; intros [| i]; simpl; auto.
  now rewrite IH.
Qed.

Lemma list_update_ext : forall {A} (f g : A -> A) l i,
  (forall x, nth_error l i = Some x -> f x = g x) ->
  list_update i f l = list_update i g l.
Proof.
  intros A f g. induction l as [| x l IH]; intros [| i] H; simpl; auto.
  - now rewrite (H x eq_refl).
  - f_equal. apply IH. intros y Hy. apply H. exact Hy.
Qed.

Lemma list_update_same : forall {A} (f : A -> A) l i,
  (forall x, nth_error l i = Some x -> f x = x) ->
  list_update i f l = l.
Proof.
  intros A f. induction l as [| x l IH]; intros [| i] H; simpl; auto.
  - now rewrite (H x eq_refl).
  - f_equal. apply IH. intros y Hy. apply H. exact Hy.
Qed.

Lemma list_update_app_here : forall {A} (f : A -> A) pre x post,
  list_update (List.length pre) f (pre ++ x :: post) = pre ++ f x :: post.
Proof. induction pre; intros; simpl; [reflexivity | now rewrite IHpre]. Qed.

Lemma indexOf_not_In : forall arr x, ~ In x arr -> indexOf arr x = -1.
Proof.
  induction arr as [| y arr IH]; intros x H; simpl; [reflexivity |].
  destruct (Nat.eqb_spec y x) as [-> | Hne].
  - exfalso. apply H. now left.
  - rewrite IH by (intro; apply H; now right). reflexivity.
Qed.

Lemma indexOf_In : forall arr x,
  In x arr ->
  exists pre post, arr = pre ++ x :: post /\ ~ In x pre
                   /\ indexOf arr x = Z.of_nat (List.length pre).
Proof.
  induction arr as [| y arr IH]; intros x H; [destruct H |].
  simpl. destruct (Nat.eqb_spec y x) as [-> | Hne].
  - exists [], arr. repeat split; auto.
  - destruct H as [H | H]; [contradiction |].
    destruct (IH x H) as (pre & post & -> & Hpre & Hi).
    exists (y :: pre), post. repeat split.
    + intros [E | E]; [contradiction | now apply Hpre].
    + rewrite Hi. destruct (Z.ltb_spec (Z.of_nat (List.length pre)) 0); [lia |].
      cbn [List.length]. lia.
Qed.

Lemma last_app_cons : forall {A} (pre : list A) y post d,
  last (pre ++ y :: post) d = last (y :: post) d.
Proof.
  induction pre as [| a pre IH]; intros; [reflexivity |].
  rewrite <- (IH y post d). cbn [app].
  destruct (pre ++ y :: post) eqn:E; [destruct pre; discriminate | reflexivity].
Qed.

Lemma arrayRemove_split : forall pre x post,
  arrayRemove (pre ++ x :: post) (Z.of_nat (List.length pre))
  = match post with
    | [] => pre
    | _ :: _ => pre ++ last post O :: removelast post
    end.
Proof.
  intros pre x post. unfold arrayRemove.
  rewrite length_app. cbn [List.length].
  destruct (Z.geb_spec (Z.of_nat (List.length pre))
              (Z.of_nat (List.length pre + S (List.length post)))); [lia |].
  destruct (Z.ltb_spec (Z.of_nat (List.length pre)) 0); [lia |].
  cbn [orb].
  rewrite removelast_app by discriminate.
  rewrite last_app_cons.
  destruct post as [| p post].
  - cbn [removelast]. rewrite app_nil_r.
    destruct (Z.ltb_spec (Z.of_nat (List.length pre)) (Z.of_nat (List.length pre)));
      [lia | reflexivity].
  - change (removelast (x :: p :: post)) with (x :: removelast (p :: post)).
    change (last (x :: p :: post) O) with (last (p :: post) O).
    rewrite length_app. cbn [List.length].
    destruct (Z.ltb_spec (Z.of_nat (List.length pre))
                (Z.of_nat (List.length pre + S (List.length (removelast (p :: post))))));
      [| lia].
    rewrite Nat2Z.id.
    exact (list_update_app_here (fun _ => last (p :: post) O) pre x
             (removelast (p :: post))).
Qed.

Lemma arrayRemove_indexOf_perm : forall arr x,
  In x arr ->
  Permutation (x :: arrayRemove arr (indexOf arr x)) arr.
Proof.
  intros arr x H.
  destruct (indexOf_In arr x H) as (pre & post & -> & _ & ->).
  rewrite arrayRemove_split.
  destruct post as [| p post].
  - rewrite <- Permutation_cons_append.
    apply Permutation_refl.
  - apply Permutation_cons_app.
    apply Permutation_app_head.
    rewrite (app_removelast_last (l := p :: post) O) at 3 by discriminate.
    apply Permutation_cons_append.
Qed.

Lemma arrayRemove_indexOf_absent : forall arr x,
  ~ In x arr -> arrayRemove arr (indexOf arr x) = arr.
Proof.
  intros arr x H. rewrite indexOf_not_In by assumption. unfold arrayRemove.
  destruct (-1 >=? Z.of_nat (List.length arr)); reflexivity.
Qed.

Lemma arrayRemove_indexOf_NoDup : forall arr x,
  NoDup arr -> NoDup (arrayRemove arr (indexOf arr x)).
Proof.
  intros arr x Hnd. destruct (in_dec Nat.eq_dec x arr) as [Hin | Hout].
  - pose proof (arrayRemove_indexOf_perm arr x Hin) as P.
    apply Permutation_sym in P.
    pose proof (Permutation_NoDup P Hnd) as H.
    now inversion H.
  - now rewrite arrayRemove_indexOf_absent.
Qed.

Lemma arrayRemove_indexOf_In : forall arr x y,
  NoDup arr ->
  (In y (arrayRemove arr (indexOf arr x)) <-> In y arr /\ y <> x).
Proof.
  intros arr x y Hnd. destruct (in_dec Nat.eq_dec x arr) as [Hin | Hout].
  - pose proof (arrayRemove_indexOf_perm arr x Hin) as P.
    pose proof (Permutation_NoDup (Permutation_sym P) Hnd) as H.
    inversion H as [| ? ? Hx Hrest]; subst. split.
    + intros Hy. split.
      * apply (Permutation_in _ P). now right.
      * intros ->. contradiction.
    + intros [Hy Hne].
      apply (Permutation_in _ (Permutation_sym P)) in Hy.
      destruct Hy as [E | Hy]; [congruence | exact Hy].
  - rewrite arrayRemove_indexOf_absent by assumption. split.
    + intros Hy. split; [exact Hy | intros ->; contradiction].
    + now intros [Hy _].
Qed.

(** ** cleanup *)

Section Session.

Context {rt : Runtime}.

Lemma closed_after_timeout : forall l rid,
  list_update rid (with_socket false) (list_update rid (with_timeout false) l)
  = list_update rid closed l.
Proof. intros. now rewrite list_update_compose. Qed.

Lemma closed_without_timeout : forall l rid r,
  nth_error l rid = Some r -> timeout r = false ->
  list_update rid (with_socket false) l = list_update rid closed l.
Proof.
  intros l rid r H Ht. apply list_update_ext. intros x Hx.
  rewrite H in Hx. injection Hx as <-. unfold closed, with_socket, with_timeout.
  cbn. now rewrite Ht.
Qed.

(** The cleanup of a request whose socket is open. *)
Lemma cleanup_tail : forall self rid s1,
  s1 = {| client := client self; announceUrl := announceUrl self;
          destroyed := destroyed self; interval := interval self;
          cleanupFns := remaining self rid;
          maybeDestroyCleanup := maybeDestroyCleanup self;
          destroyTimeout := destroyTimeout self;
          requests := list_update rid closed (requests self);
          entropy := entropy self |} ->
  match maybeDestroyCleanup self with
  | Some cb => maybeDestroyCleanup_fn cb s1
  | None => skip s1
  end = (after_cleanup rid self, completion self rid).
Proof.
  intros self rid s1 ->. unfold after_cleanup, completion, completes.
  destruct (maybeDestroyCleanup self) as [cb |] eqn:Hm; cbn [is_some andb].
  - unfold maybeDestroyCleanup_fn. cbn [cleanupFns].
    destruct (Nat.eqb (List.length (remaining self rid)) 0) eqn:Hl.
    + destruct (remaining self rid) eqn:Hrem; [| discriminate].
      unfold destroyCleanup, destroyCleanup_, andThen, modify, effect.
      cbn [destroyTimeout]. destruct (destroyTimeout self); reflexivity.
    + reflexivity.
  - reflexivity.
Qed.

Ltac use_cleanup_tail self rid lem :=
  match goal with
  | |- context [match maybeDestroyCleanup self with
                | Some cb => maybeDestroyCleanup_fn cb ?s
                | None => skip ?s end] =>
      let T := fresh "T" in
      assert (T : s = {| client := client self; announceUrl := announceUrl self;
          destroyed := destroyed self; interval := interval self;
          cleanupFns := remaining self rid;
          maybeDestroyCleanup := maybeDestroyCleanup self;
          destroyTimeout := destroyTimeout self;
          requests := list_update rid closed (requests self);
          entropy := entropy self |})
        by (unfold update_request, set_requests, set_cleanupFns, remaining;
            cbn [client announceUrl destroyed interval maybeDestroyCleanup
                 destroyTimeout entropy requests cleanupFns];
            rewrite lem; reflexivity);
      rewrite (cleanup_tail self rid s T)
  end.

Lemma cleanup_listening : forall self rid r,
  listening self rid r ->
  cleanup rid self = (after_cleanup rid self, SocketClose rid :: completion self rid).
Proof.
  intros self rid r [Hr Hs].
  unfold cleanup, cleanup_, andThen, withRequest. rewrite Hr.
  destruct (timeout r) eqn:Ht.
  - cbn [modify update_request set_requests requests].
    rewrite (nth_error_list_update_eq _ _ _ _ Hr).
    cbn [with_timeout socket]. rewrite Hs.
    cbn [modify effect set_cleanupFns update_request set_requests requests cleanupFns
         client announceUrl destroyed interval maybeDestroyCleanup destroyTimeout entropy app].
    use_cleanup_tail self rid closed_after_timeout. reflexivity.
  - cbn [skip]. rewrite Hr, Hs.
    cbn [modify effect set_cleanupFns update_request set_requests requests cleanupFns
         client announceUrl destroyed interval maybeDestroyCleanup destroyTimeout entropy app].
    use_cleanup_tail self rid (closed_without_timeout _ _ _ Hr Ht). reflexivity.
Qed.

(** The cleanup of a request that was cleaned up before changes nothing. *)
Lemma cleanup_idle : forall self rid r,
  nth_error (requests self) rid = Some r ->
  timeout r = false -> socket r = false ->
  maybeDestroyCleanup self = None \/ cleanupFns self <> [] ->
  cleanup rid self = (self, []).
Proof.
  intros self rid r Hr Ht Hs Hm.
  unfold cleanup, cleanup_, andThen, withRequest. rewrite Hr, Ht. cbn [skip].
  rewrite Hr, Hs. cbn [skip app].
  destruct (maybeDestroyCleanup self) as [cb |] eqn:E; [| reflexivity].
  destruct Hm as [Hm | Hm]; [discriminate |].
  unfold maybeDestroyCleanup_fn.
  destruct (cleanupFns self); [contradiction | reflexivity].
Qed.

(** The cleanup of a request that does not exist changes nothing either. *)
Lemma cleanup_missing : forall self rid,
  nth_error (requests self) rid = None ->
  maybeDestroyCleanup self = None \/ cleanupFns self <> [] ->
  cleanup rid self = (self, []).
Proof.
  intros self rid Hr Hm.
  unfold cleanup, cleanup_, andThen, withRequest. rewrite Hr. cbv beta iota.
  rewrite Hr. cbn [app].
  destruct (maybeDestroyCleanup self) as [cb |] eqn:E; [| reflexivity].
  destruct Hm as [Hm | Hm]; [discriminate |].
  unfold maybeDestroyCleanup_fn.
  destruct (cleanupFns self); [contradiction | reflexivity].
Qed.

Lemma cleanup__watcher_free : forall k1 k2 self rid,
  maybeDestroyCleanup self = None ->
  cleanup_ k1 rid self = cleanup_ k2 rid self
  /\ maybeDestroyCleanup (fst (cleanup_ k1 rid self)) = None.
Proof.
  intros k1 k2 self rid Hm.
  unfold cleanup_, andThen, withRequest.
  destruct (nth_error (requests self) rid) as [r |] eqn:Hr.
  - destruct (timeout r) eqn:Ht.
    + cbn [modify update_request set_requests requests].
      rewrite (nth_error_list_update_eq _ _ _ _ Hr). cbn [with_timeout socket].
      destruct (socket r);
        cbn [modify effect skip set_cleanupFns update_request set_requests
             maybeDestroyCleanup fst]; rewrite Hm;
        (split; [reflexivity | unfold skip; cbn [fst maybeDestroyCleanup]; exact Hm]).
    + cbn [skip]. rewrite Hr.
      destruct (socket r);
        cbn [modify effect skip set_cleanupFns update_request set_requests
             maybeDestroyCleanup fst]; rewrite Hm;
        (split; [reflexivity | unfold skip; cbn [fst maybeDestroyCleanup]; exact Hm]).
  - cbv beta iota. rewrite Hr. cbv beta iota. rewrite Hm.
    split; [reflexivity | exact Hm].
Qed.

Lemma forEach_cleanup_watcher_free : forall k1 k2 l self,
  maybeDestroyCleanup self = None ->
  forEach l (cleanup_ k1) self = forEach l (cleanup_ k2) self.
Proof.
  intros k1 k2. induction l as [| rid l IH]; intros self Hm; [reflexivity |].
  cbn [forEach]. unfold andThen.
  destruct (cleanup__watcher_free k1 k2 self rid Hm) as [E Hm'].
  rewrite <- E. destruct (cleanup_ k1 rid self) as [s1 o1]. cbn [fst] in Hm'.
  now rewrite (IH s1 Hm').
Qed.

(** [destroyCleanup] is the source's function: calling the real [cleanup] on
    every entry gives the same result, since the watcher is null by then. *)
Lemma destroyCleanup_unfold : forall cb self,
  destroyCleanup_ cleanup cb self = destroyCleanup cb self.
Proof.
  intros cb self. unfold destroyCleanup, destroyCleanup_, andThen.
  destruct (is_some (destroyTimeout self));
    cbn [modify skip set_maybeDestroyCleanup set_destroyTimeout cleanupFns];
    unfold cleanup;
    rewrite (forEach_cleanup_watcher_free maybeDestroyCleanup_fn (fun _ => skip));
    reflexivity.
Qed.

Lemma after_cleanup_no_watcher : forall self rid,
  maybeDestroyCleanup self = None ->
  maybeDestroyCleanup (after_cleanup rid self) = None
  /\ destroyTimeout (after_cleanup rid self) = destroyTimeout self.
Proof.
  intros self rid Hm. unfold after_cleanup, completes. rewrite Hm. cbn. auto.
Qed.

Lemma listening_after_cleanup : forall self rid rid' r,
  rid' <> rid -> listening self rid' r -> listening (after_cleanup rid self) rid' r.
Proof.
  intros self rid rid' r Hne [Hr Hs]. split; [| exact Hs].
  unfold after_cleanup. cbn [requests].
  rewrite nth_error_list_update_neq by congruence. exact Hr.
Qed.

Lemma forEach_cleanup : forall k l self,
  maybeDestroyCleanup self = None ->
  NoDup l ->
  (forall rid, In rid l -> exists r, listening self rid r) ->
  exists fns,
    forEach l (cleanup_ k) self
    = ({| client := client self; announceUrl := announceUrl self;
          destroyed := destroyed self; interval := interval self;
          cleanupFns := fns;
          maybeDestroyCleanup := None;
          destroyTimeout := destroyTimeout self;
          requests := close_all l (requests self);
          entropy := entropy self |},
       map SocketClose l).
Proof.
  intros k. induction l as [| rid l IH]; intros self Hm Hnd Hl.
  - exists (cleanupFns self). cbn. unfold skip. rewrite <- Hm.
    destruct self; reflexivity.
  - cbn [forEach]. unfold andThen.
    destruct (cleanup__watcher_free k maybeDestroyCleanup_fn self rid Hm) as [E _].
    rewrite E. fold (cleanup rid).
    destruct (Hl rid (or_introl eq_refl)) as [r Hr].
    rewrite (cleanup_listening self rid r Hr).
    unfold completion. rewrite Hm.
    inversion Hnd as [| ? ? Hnot Hnd']; subst.
    destruct (after_cleanup_no_watcher self rid Hm) as [Hm1 Ht1].
    destruct (IH (after_cleanup rid self) Hm1 Hnd') as [fns Hf].
    { intros rid' Hin. destruct (Hl rid' (or_intror Hin)) as [r' Hr'].
      exists r'. apply listening_after_cleanup; [| exact Hr'].
      intros ->. contradiction. }
    rewrite Hf. exists fns. rewrite Ht1. reflexivity.
Qed.

Lemma destroyCleanup_spec : forall cb self,
  NoDup (cleanupFns self) ->
  (forall rid, In rid (cleanupFns self) -> exists r, listening self rid r) ->
  destroyCleanup cb self
  = (after_destroyCleanup self, map SocketClose (cleanupFns self) ++ [Callback cb]).
Proof.
  intros cb self Hnd Hl. unfold destroyCleanup, destroyCleanup_, andThen.
  set (s1 := fst ((fun self0 => if is_some (destroyTimeout self0)
                     then modify (set_destroyTimeout None) self0
                     else skip self0) self)).
  assert (H1 : (if is_some (destroyTimeout self)
                then modify (set_destroyTimeout None) self
                else skip self) = (set_destroyTimeout None self, [])).
  { destruct (destroyTimeout self) eqn:E; cbn; unfold skip; [reflexivity |].
    unfold set_destroyTimeout. rewrite <- E. destruct self; reflexivity. }
  rewrite H1. clear s1 H1.
  cbn [modify set_maybeDestroyCleanup set_destroyTimeout cleanupFns client
       announceUrl destroyed interval maybeDestroyCleanup destroyTimeout requests entropy].
  match goal with
  | |- context [forEach _ _ ?s] =>
      destruct (forEach_cleanup (fun _ => skip) (cleanupFns self) s eq_refl Hnd) as [fns Hf]
  end.
  { intros rid Hin. destruct (Hl rid Hin) as [r Hr]. exists r. exact Hr. }
  rewrite Hf. cbn [modify set_cleanupFns effect app]. reflexivity.
Qed.

Lemma after_cleanup_closed : forall self rid r,
  nth_error (requests self) rid = Some r ->
  nth_error (requests (after_cleanup rid self)) rid = Some (closed r)
  /\ (maybeDestroyCleanup (after_cleanup rid self) = None
      \/ cleanupFns (after_cleanup rid self) <> []).
Proof.
  intros self rid r Hr. split.
  - unfold after_cleanup. cbn [requests]. now apply nth_error_list_update_eq.
  - unfold after_cleanup, completes. cbn [maybeDestroyCleanup cleanupFns].
    destruct (maybeDestroyCleanup self); [| now left].
    cbn [is_some andb].
    destruct (remaining self rid); cbn; [now left | right; discriminate].
Qed.

(** A second cleanup of the same request does nothing. *)
Lemma cleanup_twice : forall self rid r,
  nth_error (requests self) rid = Some r ->
  cleanup rid (after_cleanup rid self) = (after_cleanup rid self, []).
Proof.
  intros self rid r Hr.
  destruct (after_cleanup_closed self rid r Hr) as [Hc Hm].
  now apply (cleanup_idle _ rid (closed r)).
Qed.

Lemma onError_listening : forall self rid r message,
  listening self rid r ->
  onError rid message self
  = (after_cleanup rid self,
     SocketClose rid :: completion self rid ++ error_warning self message).
Proof.
  intros self rid r message H. unfold onError, andThen.
  rewrite (cleanup_listening self rid r H). unfold error_warning.
  change (destroyed (after_cleanup rid self)) with (destroyed self).
  change (announceUrl (after_cleanup rid self)) with (announceUrl self).
  destruct (destroyed self); cbn [skip emit effect app]; reflexivity.
Qed.

Lemma onError_after_cleanup : forall self rid r message,
  nth_error (requests self) rid = Some r ->
  onError rid message (after_cleanup rid self)
  = (after_cleanup rid self, error_warning self message).
Proof.
  intros self rid r message H. unfold onError, andThen.
  rewrite (cleanup_twice self rid r H). unfold error_warning.
  change (destroyed (after_cleanup rid self)) with (destroyed self).
  change (announceUrl (after_cleanup rid self)) with (announceUrl self).
  destruct (destroyed self); cbn [skip emit effect app]; reflexivity.
Qed.

Lemma forEach_emit : forall {A} (f : A -> ClientEvent) l self,
  forEach l (fun x => emit (f x)) self = (self, map (fun x => Emit (f x)) l).
Proof.
  intros A f. induction l as [| x l IH]; intros self; [reflexivity |].
  cbn [forEach map]. unfold andThen. cbn [emit effect]. now rewrite IH.
Qed.

Lemma send_spec : forall self rid r message,
  nth_error (requests self) rid = Some r ->
  send rid message self
  = (update_request rid ensure_port self,
     [SocketSend rid message (port_or_80 r) (hostname (parsedUrl r))]).
Proof.
  intros self rid r message Hr. unfold send, andThen, withRequest. rewrite Hr.
  unfold port_or_80.
  destruct (port (parsedUrl r)) as [p |] eqn:Hp.
  - cbn [skip]. rewrite Hr, Hp. cbn [effect app]. f_equal.
    unfold update_request, set_requests.
    rewrite list_update_same.
    + destruct self; reflexivity.
    + intros x Hx. rewrite Hr in Hx. injection Hx as <-.
      unfold ensure_port. now rewrite Hp.
  - cbn [modify update_request set_requests requests].
    rewrite (nth_error_list_update_eq _ _ _ _ Hr).
    cbn [with_port parsedUrl port hostname effect app].
    unfold update_request, set_requests.
    rewrite (list_update_ext (with_port 80) ensure_port); [reflexivity |].
    intros x Hx. rewrite Hr in Hx. injection Hx as <-.
    unfold ensure_port. now rewrite Hp.
Qed.

Lemma followup_state : forall self rid r tid,
  nth_error (requests self) rid = Some r ->
  update_request rid ensure_port
    (update_request rid (with_transactionId tid) (set_entropy (S (entropy self)) self))
  = after_followup rid tid self.
Proof.
  intros. unfold after_followup, update_request, set_requests, set_entropy.
  cbn [requests client announceUrl destroyed interval cleanupFns
       maybeDestroyCleanup destroyTimeout entropy].
  now rewrite list_update_compose.
Qed.

Lemma announce_spec : forall self rid r connectionId o,
  nth_error (requests self) rid = Some r ->
  let tid := randombytes4 (entropy self) in
  announce rid connectionId o self
  = match announce_fields (client self) connectionId tid o with
    | Some fields =>
        (after_followup rid tid self,
         [SocketSend rid (List.concat fields) (port_or_80 r) (hostname (parsedUrl r))])
    | None => (after_thrown rid tid self, [Uncaught])
    end.
Proof.
  intros self rid r connectionId o Hr tid.
  unfold announce, genTransactionId, andThen. fold tid.
  cbn [modify].
  change (client (update_request rid (with_transactionId tid)
                    (set_entropy (S (entropy self)) self))) with (client self).
  destruct (announce_fields (client self) connectionId tid o) as [fields |].
  - rewrite (send_spec _ rid (with_transactionId tid r)).
    + cbn [app]. rewrite (followup_state self rid r tid Hr). reflexivity.
    + unfold update_request, set_requests, set_entropy. cbn [requests].
      now apply nth_error_list_update_eq.
  - reflexivity.
Qed.

Lemma scrape_spec : forall self rid r connectionId,
  nth_error (requests self) rid = Some r ->
  let tid := randombytes4 (entropy self) in
  scrape rid connectionId self
  = match scrape_hashes (client self) (opts r) with
    | Some hashes =>
        (after_followup rid tid self,
         [SocketSend rid
            (List.concat [ connectionId; common.toUInt32 common.ACTIONS.SCRAPE; tid;
                           hashes ])
            (port_or_80 r) (hostname (parsedUrl r))])
    | None => (after_thrown rid tid self, [Uncaught])
    end.
Proof.
  intros self rid r connectionId Hr tid.
  unfold scrape, genTransactionId, andThen, withRequest. fold tid.
  cbn [modify update_request set_requests set_entropy requests client].
  rewrite (nth_error_list_update_eq _ _ _ _ Hr).
  cbn [with_transactionId opts].
  destruct (scrape_hashes (client self) (opts r)) as [hashes |].
  - match goal with
    | |- context [send rid ?m ?s] =>
        rewrite (send_spec s rid (with_transactionId tid r) m)
    end.
    + cbn [app].
      pose proof (followup_state self rid r tid Hr) as F.
      unfold update_request, set_requests, set_entropy in F |- *.
      cbn [requests client announceUrl destroyed interval cleanupFns
           maybeDestroyCleanup destroyTimeout entropy] in F |- *.
      rewrite F. reflexivity.
    + cbn [requests]. now apply nth_error_list_update_eq.
  - reflexivity.
Qed.

Lemma emitted_app : forall a b, emitted (a ++ b) = emitted a ++ emitted b.
Proof. intros. unfold emitted. now rewrite flat_map_app. Qed.

Lemma emitted_map_Emit : forall evs, emitted (map Emit evs) = evs.
Proof. induction evs; cbn; [reflexivity | now f_equal]. Qed.

Lemma emitted_completion : forall self rid, emitted (completion self rid) = [].
Proof.
  intros. unfold completion. destruct (maybeDestroyCleanup self); [| reflexivity].
  destruct (Nat.eqb _ _); reflexivity.
Qed.

Lemma emitted_error_warning : forall self message,
  emitted (error_warning self message)
  = if destroyed self then []
    else [warning (with_url message (announceUrl self))].
Proof. intros. unfold error_warning. destruct (destroyed self); reflexivity. Qed.

Lemma sent_app : forall a b, sent (a ++ b) = sent a ++ sent b.
Proof. intros. unfold sent. now rewrite flat_map_app. Qed.

Lemma sent_completion : forall self rid, sent (completion self rid) = [].
Proof.
  intros. unfold completion. destruct (maybeDestroyCleanup self); [| reflexivity].
  destruct (Nat.eqb _ _); reflexivity.
Qed.

Lemma sent_error_warning : forall self message, sent (error_warning self message) = [].
Proof. intros. unfold error_warning. destruct (destroyed self); reflexivity. Qed.

(** *** The reply branches on a request that is listening *)

Lemma onAnnounceReply_destroyed : forall self rid r msg,
  listening self rid r -> destroyed self = true ->
  onAnnounceReply rid msg self
  = (after_cleanup rid self, SocketClose rid :: completion self rid).
Proof.
  intros self rid r msg H Hd. unfold onAnnounceReply, andThen.
  rewrite (cleanup_listening self rid r H).
  change (destroyed (after_cleanup rid self)) with (destroyed self). rewrite Hd.
  cbn [skip]. now rewrite app_nil_r.
Qed.

Lemma onAnnounceReply_short : forall self rid r msg,
  listening self rid r -> destroyed self = false ->
  (List.length msg < 20)%nat ->
  onAnnounceReply rid msg self
  = (after_cleanup rid self,
     SocketClose rid :: completion self rid
       ++ [Emit (warning (with_url "invalid announce message" (announceUrl self)))]).
Proof.
  intros self rid r msg H Hd Hl. unfold onAnnounceReply, andThen.
  rewrite (cleanup_listening self rid r H).
  change (destroyed (after_cleanup rid self)) with (destroyed self). rewrite Hd.
  apply Nat.ltb_lt in Hl. rewrite Hl.
  rewrite (onError_after_cleanup self rid r _ (proj1 H)).
  unfold error_warning. rewrite Hd. reflexivity.
Qed.

Lemma onAnnounceReply_ok : forall self rid r msg,
  listening self rid r -> destroyed self = false ->
  (20 <= List.length msg)%nat ->
  onAnnounceReply rid msg self
  = ((if readUInt32BE msg 8 =? 0 then after_cleanup rid self
      else set_interval (Some (readUInt32BE msg 8 * 1000)) (after_cleanup rid self)),
     SocketClose rid :: completion self rid
       ++ Emit (update (announceUrl self) (readUInt32BE msg 16) (readUInt32BE msg 12))
       :: match compact2string_multi (slice_from msg 20) with
          | inl err => [Emit (warning err)]
          | inr addrs => map (fun a => Emit (peer a)) addrs
          end).
Proof.
  intros self rid r msg H Hd Hl. unfold onAnnounceReply, andThen.
  rewrite (cleanup_listening self rid r H).
  change (destroyed (after_cleanup rid self)) with (destroyed self). rewrite Hd.
  apply Nat.ltb_ge in Hl. rewrite Hl.
  change (announceUrl (after_cleanup rid self)) with (announceUrl self).
  destruct (readUInt32BE msg 8 =? 0);
    cbn [skip setInterval modify emit effect app];
    (destruct (compact2string_multi (slice_from msg 20)) as [err | addrs];
     [ reflexivity | rewrite forEach_emit; reflexivity ]).
Qed.

Lemma onScrapeReply_destroyed : forall self rid r o msg,
  listening self rid r -> destroyed self = true ->
  onScrapeReply rid o msg self
  = (after_cleanup rid self, SocketClose rid :: completion self rid).
Proof.
  intros self rid r o msg H Hd. unfold onScrapeReply, andThen.
  rewrite (cleanup_listening self rid r H).
  change (destroyed (after_cleanup rid self)) with (destroyed self). rewrite Hd.
  cbn [skip]. now rewrite app_nil_r.
Qed.

Lemma onScrapeReply_invalid : forall self rid r o msg,
  listening self rid r -> destroyed self = false ->
  invalid_scrape msg = true ->
  onScrapeReply rid o msg self
  = (after_cleanup rid self,
     SocketClose rid :: completion self rid
       ++ [Emit (warning (with_url "invalid scrape message" (announceUrl self)))]).
Proof.
  intros self rid r o msg H Hd Hl. unfold onScrapeReply, andThen.
  rewrite (cleanup_listening self rid r H).
  change (destroyed (after_cleanup rid self)) with (destroyed self). rewrite Hd.
  unfold invalid_scrape in Hl. rewrite Hl.
  rewrite (onError_after_cleanup self rid r _ (proj1 H)).
  unfold error_warning. rewrite Hd. reflexivity.
Qed.

Lemma onScrapeReply_ok : forall self rid r o msg,
  listening self rid r -> destroyed self = false ->
  invalid_scrape msg = false ->
  onScrapeReply rid o msg self
  = (after_cleanup rid self,
     SocketClose rid :: completion self rid
       ++ map (fun i => Emit (scrape_record self o msg i))
            (seq 0 ((List.length msg - 8) / 12))).
Proof.
  intros self rid r o msg H Hd Hl. unfold onScrapeReply, andThen.
  rewrite (cleanup_listening self rid r H).
  change (destroyed (after_cleanup rid self)) with (destroyed self). rewrite Hd.
  unfold invalid_scrape in Hl. rewrite Hl.
  change (announceUrl (after_cleanup rid self)) with (announceUrl self).
  change (client (after_cleanup rid self)) with (client self).
  rewrite (forEach_emit (fun i => scrape_record self o msg i)). reflexivity.
Qed.

Lemma onErrorReply_destroyed : forall self rid r msg,
  listening self rid r -> destroyed self = true ->
  onErrorReply rid msg self
  = (after_cleanup rid self, SocketClose rid :: completion self rid).
Proof.
  intros self rid r msg H Hd. unfold onErrorReply, andThen.
  rewrite (cleanup_listening self rid r H).
  change (destroyed (after_cleanup rid self)) with (destroyed self). rewrite Hd.
  cbn [skip]. now rewrite app_nil_r.
Qed.

Lemma onErrorReply_short : forall self rid r msg,
  listening self rid r -> destroyed self = false ->
  (List.length msg < 8)%nat ->
  onErrorReply rid msg self
  = (after_cleanup rid self,
     SocketClose rid :: completion self rid
       ++ [Emit (warning (with_url "invalid error message" (announceUrl self)))]).
Proof.
  intros self rid r msg H Hd Hl. unfold onErrorReply, andThen.
  rewrite (cleanup_listening self rid r H).
  change (destroyed (after_cleanup rid self)) with (destroyed self). rewrite Hd.
  apply Nat.ltb_lt in Hl. rewrite Hl.
  rewrite (onError_after_cleanup self rid r _ (proj1 H)).
  unfold error_warning. rewrite Hd. reflexivity.
Qed.

Lemma onErrorReply_ok : forall self rid r msg,
  listening self rid r -> destroyed self = false ->
  (8 <= List.length msg)%nat ->
  onErrorReply rid msg self
  = (after_cleanup rid self,
     SocketClose rid :: completion self rid
       ++ [Emit (warning (Buffer_toString (slice_from msg 8)))]).
Proof.
  intros self rid r msg H Hd Hl. unfold onErrorReply, andThen.
  rewrite (cleanup_listening self rid r H).
  change (destroyed (after_cleanup rid self)) with (destroyed self). rewrite Hd.
  apply Nat.ltb_ge in Hl. rewrite Hl. reflexivity.
Qed.

(** *** The dispatch of [onSocketMessage] *)

Lemma onSocketMessage_invalid : forall self rid r msg,
  listening self rid r ->
  invalid_transaction msg (transactionId r) = true ->
  onSocketMessage rid msg self
  = onError rid "tracker sent invalid transaction id" self.
Proof.
  intros self rid r msg [Hr _] Hi. unfold onSocketMessage, withRequest.
  now rewrite Hr, Hi.
Qed.

Lemma onSocketMessage_valid : forall self rid r msg,
  listening self rid r ->
  invalid_transaction msg (transactionId r) = false ->
  onSocketMessage rid msg self
  = let action := readUInt32BE msg 0 in
    if action =? 0 then
      if (List.length msg <? 16)%nat then onError rid "invalid udp handshake" self
      else if _scrape (opts r) then scrape rid (slice msg 8 16) self
      else announce rid (slice msg 8 16) (opts r) self
    else if action =? 1 then onAnnounceReply rid msg self
    else if action =? 2 then onScrapeReply rid (opts r) msg self
    else if action =? 3 then onErrorReply rid msg self
    else onError rid "tracker sent invalid action" self.
Proof.
  intros self rid r msg [Hr _] Hi. unfold onSocketMessage, withRequest.
  rewrite Hr, Hi. cbv zeta.
  destruct (readUInt32BE msg 0 =? 0).
  - destruct (List.length msg <? 16)%nat; [reflexivity |].
    destruct (_scrape (opts r)); reflexivity.
  - destruct (readUInt32BE msg 0 =? 1); [reflexivity |].
    destruct (readUInt32BE msg 0 =? 2); [reflexivity |].
    destruct (readUInt32BE msg 0 =? 3); reflexivity.
Qed.

Lemma step_message_listening : forall self rid r msg,
  listening self rid r ->
  step (Socket_message rid msg) self = onSocketMessage rid msg self.
Proof.
  intros self rid r msg [Hr Hs]. cbn [step]. unfold withRequest at 1.
  now rewrite Hr, Hs.
Qed.

Lemma valid_transaction_length : forall msg tid,
  invalid_transaction msg tid = false -> (8 <= List.length msg)%nat.
Proof.
  intros msg tid H. unfold invalid_transaction in H.
  apply orb_false_iff in H. destruct H as [H _]. now apply Nat.ltb_ge in H.
Qed.

(** ** The invariant is kept *)

Lemma wf_new : forall c url, wf (new_UDPTracker c url).
Proof.
  intros c url. constructor; cbn; try discriminate; auto.
  - constructor.
  - intros rid. split; [intros [] |].
    intros [r [Hr _]]. cbn in Hr. destruct rid; discriminate.
  - intros rid r Hr. destruct rid; discriminate.
Qed.

Lemma wf_frame : forall s s',
  wf s ->
  cleanupFns s' = cleanupFns s ->
  maybeDestroyCleanup s' = maybeDestroyCleanup s ->
  destroyTimeout s' = destroyTimeout s ->
  destroyed s' = destroyed s ->
  (forall rid, option_map (fun r => (socket r, timeout r)) (nth_error (requests s') rid)
             = option_map (fun r => (socket r, timeout r)) (nth_error (requests s) rid)) ->
  wf s'.
Proof.
  intros s s' W Hf Hm Ht Hd Hr.
  assert (Hl : forall rid, (exists r, listening s' rid r) <-> (exists r, listening s rid r)).
  { intros rid. specialize (Hr rid). unfold listening. split; intros [r [Hn Hs]].
    - rewrite Hn in Hr. destruct (nth_error (requests s) rid) as [r0 |]; [| discriminate].
      cbn in Hr. injection Hr as Hs' _. exists r0. split; [reflexivity | congruence].
    - rewrite Hn in Hr. destruct (nth_error (requests s') rid) as [r0 |]; [| discriminate].
      cbn in Hr. injection Hr as Hs' _. exists r0. split; [reflexivity | congruence]. }
  constructor.
  - rewrite Hf. apply W.
  - intros rid. rewrite Hf, Hl. apply W.
  - intros rid r Hn Htm. specialize (Hr rid). rewrite Hn in Hr.
    destruct (nth_error (requests s) rid) as [r0 |] eqn:E; [| discriminate].
    cbn in Hr. injection Hr as Hs' Ht'.
    rewrite Hs'. apply (wf_timeout s W rid r0 E). congruence.
  - intros cb. rewrite Hm, Hd, Hf, Ht. apply W.
  - intros cb. rewrite Hm, Ht. apply W.
  - rewrite Hd, Hm, Hf. apply W.
Qed.

Lemma wf_set_interval : forall s i, wf s -> wf (set_interval i s).
Proof. intros s i W. apply (wf_frame s); auto. Qed.

(** Changing the transaction id or the port of a request keeps the invariant. *)
Lemma wf_after_followup : forall s rid tid, wf s -> wf (after_followup rid tid s).
Proof.
  intros s rid tid W. apply (wf_frame s); auto.
  intros x. unfold after_followup, update_request, set_requests, set_entropy.
  cbn [requests]. rewrite nth_error_list_update.
  destruct (Nat.eqb rid x); [| reflexivity].
  destruct (nth_error (requests s) x) as [r |]; [| reflexivity].
  cbn. unfold ensure_port. cbn. destruct (port (parsedUrl r)); reflexivity.
Qed.

(** So does the exception of a follow-up request, which changes the
    transaction id only. *)
Lemma wf_after_thrown : forall s rid tid, wf s -> wf (after_thrown rid tid s).
Proof.
  intros s rid tid W. apply (wf_frame s); auto.
  intros x. unfold after_thrown, update_request, set_requests, set_entropy.
  cbn [requests]. rewrite nth_error_list_update.
  destruct (Nat.eqb rid x); [| reflexivity].
  destruct (nth_error (requests s) x) as [r |]; reflexivity.
Qed.

(** The write of [scrape] into the options object touches no socket and no
    timer. *)
Lemma mark_scrape_frame : forall k r,
  socket (mark_scrape k r) = socket r
  /\ timeout (mark_scrape k r) = timeout r
  /\ transactionId (mark_scrape k r) = transactionId r
  /\ parsedUrl (mark_scrape k r) = parsedUrl r.
Proof.
  intros k r. unfold mark_scrape.
  destruct (Nat.eqb (object_id (opts r)) k); repeat split; reflexivity.
Qed.

Lemma write_scrape_length : forall k s,
  List.length (requests (write_scrape k s)) = List.length (requests s).
Proof. intros. unfold write_scrape. cbn [set_requests requests]. apply length_map. Qed.

Lemma nth_error_write_scrape : forall k s rid,
  nth_error (requests (write_scrape k s)) rid
  = option_map (mark_scrape k) (nth_error (requests s) rid).
Proof. intros. unfold write_scrape. cbn [set_requests requests]. apply nth_error_map. Qed.

Lemma wf_write_scrape : forall s k, wf s -> wf (write_scrape k s).
Proof.
  intros s k W. apply (wf_frame s); auto.
  intros x. rewrite nth_error_write_scrape.
  destruct (nth_error (requests s) x) as [r |]; [| reflexivity].
  cbn [option_map]. destruct (mark_scrape_frame k r) as (-> & -> & _). reflexivity.
Qed.

Lemma wf_listening_active : forall s rid r,
  wf s -> listening s rid r -> In rid (cleanupFns s).
Proof. intros s rid r W H. apply (wf_active s W). now exists r. Qed.

Lemma wf_not_destroyed : forall s,
  wf s -> destroyed s = false ->
  maybeDestroyCleanup s = None /\ destroyTimeout s = None.
Proof.
  intros s W Hd.
  assert (Hm : maybeDestroyCleanup s = None).
  { destruct (maybeDestroyCleanup s) as [cb |] eqn:E; [| reflexivity].
    destruct (wf_watcher s W cb E) as [H _]. congruence. }
  split; [exact Hm |].
  destruct (destroyTimeout s) as [cb |] eqn:E; [| reflexivity].
  rewrite (wf_timer s W cb E) in Hm. discriminate.
Qed.

Lemma wf_after_cleanup : forall s rid r,
  wf s -> listening s rid r -> wf (after_cleanup rid s).
Proof.
  intros s rid r W H. pose proof (wf_listening_active s rid r W H) as Hin.
  pose proof (wf_nodup s W) as Hnd.
  constructor; unfold after_cleanup;
    cbn [cleanupFns requests maybeDestroyCleanup destroyTimeout destroyed].
  - now apply arrayRemove_indexOf_NoDup.
  - intros x. unfold remaining. rewrite arrayRemove_indexOf_In by assumption.
    rewrite (wf_active s W x). unfold listening. cbn [requests]. split.
    + intros [[r' [Hn Hs]] Hne]. exists r'. split; [| exact Hs].
      rewrite nth_error_list_update_neq by congruence. exact Hn.
    + intros [r' [Hn Hs]]. rewrite nth_error_list_update in Hn.
      destruct (Nat.eqb_spec rid x) as [-> | Hne].
      * destruct (nth_error (requests s) x); [| discriminate].
        cbn in Hn. injection Hn as <-. discriminate.
      * split; [now exists r' | congruence].
  - intros x r' Hn Ht. rewrite nth_error_list_update in Hn.
    destruct (Nat.eqb_spec rid x) as [-> | Hne].
    + destruct (nth_error (requests s) x); [| discriminate].
      cbn in Hn. injection Hn as <-. discriminate.
    + now apply (wf_timeout s W x r').
  - intros cb Hm. unfold completes in *.
    destruct (maybeDestroyCleanup s) as [cb' |] eqn:E; cbn [is_some andb] in *;
      [| discriminate].
    destruct (Nat.eqb (List.length (remaining s rid)) 0) eqn:El; [discriminate |].
    injection Hm as ->. destruct (wf_watcher s W cb E) as (Hd & _ & Ht).
    repeat split; auto.
    intros Hr. rewrite Hr in El. discriminate.
  - intros cb Ht. unfold completes in *.
    destruct (maybeDestroyCleanup s) as [cb' |] eqn:E; cbn [is_some andb] in *.
    + destruct (Nat.eqb (List.length (remaining s rid)) 0); [discriminate |].
      rewrite <- E. now apply (wf_timer s W).
    + rewrite (wf_timer s W cb Ht) in E. discriminate.
  - intros Hd Hm. unfold completes in *.
    destruct (maybeDestroyCleanup s) as [cb' |] eqn:E; cbn [is_some andb] in *.
    + destruct (remaining s rid); [reflexivity | discriminate].
    + rewrite (wf_drained s W Hd E) in Hin. destruct Hin.
Qed.

Lemma nth_error_close_all : forall l reqs x r,
  nth_error (close_all l reqs) x = Some r ->
  (In x l /\ socket r = false /\ timeout r = false)
  \/ (~ In x l /\ nth_error reqs x = Some r).
Proof.
  induction l as [| rid l IH]; intros reqs x r H.
  - right. split; [intros [] | exact H].
  - cbn [close_all] in H. destruct (IH _ _ _ H) as [(Hin & Hs & Ht) | (Hnin & Hn)].
    + left. repeat split; auto. now right.
    + rewrite nth_error_list_update in Hn.
      destruct (Nat.eqb_spec rid x) as [-> | Hne].
      * left. destruct (nth_error reqs x); [| discriminate].
        cbn in Hn. injection Hn as <-. repeat split; auto. now left.
      * right. split; [| exact Hn]. intros [E | E]; [congruence | contradiction].
Qed.

Lemma close_all_closes : forall l reqs x r,
  In x l -> nth_error (close_all l reqs) x = Some r ->
  socket r = false /\ timeout r = false.
Proof.
  intros l reqs x r Hin H.
  destruct (nth_error_close_all _ _ _ _ H) as [(_ & Hs & Ht) | (Hnin & _)];
    [auto | contradiction].
Qed.

Lemma close_all_length : forall l reqs,
  List.length (close_all l reqs) = List.length reqs.
Proof.
  induction l; intros; cbn; [reflexivity |]. now rewrite IHl, list_update_length.
Qed.

Lemma wf_after_destroyCleanup : forall s, wf s -> wf (after_destroyCleanup s).
Proof.
  intros s W.
  assert (Hc : forall x r, nth_error (close_all (cleanupFns s) (requests s)) x = Some r ->
                           socket r = false /\ timeout r = false).
  { intros x r H. destruct (nth_error_close_all _ _ _ _ H) as [(_ & Hs & Ht) | (Hnin & Hn)];
      [auto |].
    destruct (socket r) eqn:Hs.
    - exfalso. apply Hnin. apply (wf_active s W). exists r. now split.
    - split; [reflexivity |]. destruct (timeout r) eqn:Ht; [| reflexivity].
      rewrite (wf_timeout s W x r Hn Ht) in Hs. discriminate. }
  constructor; unfold after_destroyCleanup;
    cbn [cleanupFns requests maybeDestroyCleanup destroyTimeout destroyed];
    try discriminate; auto.
  - constructor.
  - intros x. split; [intros [] |]. intros [r [Hn Hs]].
    destruct (Hc x r Hn) as [Hs' _]. congruence.
  - intros x r Hn Ht. destruct (Hc x r Hn) as [_ Ht']. congruence.
Qed.

Lemma wf_after_request : forall s r,
  wf s -> destroyed s = false -> socket r = true ->
  wf (after_request r s).
Proof.
  intros s r W Hd Hs. destruct (wf_not_destroyed s W Hd) as [Hm Ht].
  assert (Hlt : forall x, In x (cleanupFns s) -> (x < List.length (requests s))%nat).
  { intros x Hx. apply (wf_active s W) in Hx. destruct Hx as [r' [Hn _]].
    apply nth_error_Some. congruence. }
  constructor; unfold after_request;
    cbn [cleanupFns requests maybeDestroyCleanup destroyTimeout destroyed].
  - apply NoDup_app; [apply W | repeat constructor; intros [] |].
    intros x Hx [<- | []]. apply Hlt in Hx. lia.
  - intros x. rewrite in_app_iff, (wf_active s W x). unfold listening.
    cbn [requests]. split.
    + intros [[r' [Hn Hs']] | [<- | []]].
      * exists r'. split; [| exact Hs'].
        rewrite nth_error_app1; [exact Hn |]. apply nth_error_Some. congruence.
      * exists r. split; [| exact Hs].
        rewrite nth_error_app2 by lia. now rewrite Nat.sub_diag.
    + intros [r' [Hn Hs']].
      destruct (Nat.lt_ge_cases x (List.length (requests s))) as [Hx | Hx].
      * left. rewrite nth_error_app1 in Hn by assumption. now exists r'.
      * right. left. rewrite nth_error_app2 in Hn by assumption.
        destruct (x - List.length (requests s))%nat as [| k] eqn:Ek.
        -- lia.
        -- cbn in Hn. destruct k; discriminate.
  - intros x r' Hn Ht'.
    destruct (Nat.lt_ge_cases x (List.length (requests s))) as [Hx | Hx].
    + rewrite nth_error_app1 in Hn by assumption. now apply (wf_timeout s W x r').
    + rewrite nth_error_app2 in Hn by assumption.
      destruct (x - List.length (requests s))%nat as [| k].
      * cbn in Hn. injection Hn as <-. exact Hs.
      * cbn in Hn. destruct k; discriminate.
  - intros cb E. congruence.
  - intros cb E. congruence.
  - intros E. congruence.
Qed.

Lemma wf_after_destroy_pending : forall s cb,
  wf s -> cleanupFns s <> [] -> wf (after_destroy_pending cb s).
Proof.
  intros s cb W Hne. constructor; unfold after_destroy_pending;
    cbn [cleanupFns requests maybeDestroyCleanup destroyTimeout destroyed];
    try apply W.
  - intros cb' E. injection E as <-. auto.
  - intros cb' E. exact E.
  - discriminate.
Qed.

Lemma wf_after_destroy_now : forall s,
  wf s -> cleanupFns s = [] -> wf (after_destroy_now s).
Proof.
  intros s W He. constructor; unfold after_destroy_now;
    cbn [cleanupFns requests maybeDestroyCleanup destroyTimeout destroyed];
    try discriminate; auto.
  - constructor.
  - intros x. rewrite <- He. apply W.
  - apply W.
Qed.

(** ** One step, by cases *)

Lemma closed_timeout_off : forall l rid,
  list_update rid (with_timeout false) (list_update rid closed l)
  = list_update rid closed l.
Proof.
  intros. rewrite list_update_compose. apply list_update_ext. reflexivity.
Qed.

Lemma after_cleanup_timeout_off : forall s rid,
  update_request rid (with_timeout false) (after_cleanup rid s) = after_cleanup rid s.
Proof.
  intros. unfold update_request, set_requests, after_cleanup.
  cbn [requests client announceUrl destroyed interval cleanupFns
       maybeDestroyCleanup destroyTimeout entropy].
  now rewrite closed_timeout_off.
Qed.

Lemma onTimeout_listening : forall self rid r,
  listening self rid r ->
  onTimeout rid self
  = (after_cleanup rid self,
     SocketClose rid :: completion self rid
       ++ (if is_stopped (event (opts r)) then []
           else error_warning self (timeout_message (opts r)))).
Proof.
  intros self rid r H. unfold onTimeout, withRequest, andThen.
  rewrite (proj1 H).
  destruct (is_stopped (event (opts r))).
  - rewrite (cleanup_listening self rid r H). cbn [modify].
    rewrite after_cleanup_timeout_off. now rewrite !app_nil_r.
  - fold (timeout_message (opts r)).
    rewrite (onError_listening self rid r _ H). cbn [modify].
    rewrite after_cleanup_timeout_off. now rewrite app_nil_r.
Qed.

Lemma request_spec : forall self o,
  UDPTracker__request o self
  = (after_request (ensure_port (fresh_request o self)) self,
     [SocketSend (List.length (requests self))
        (connect_message (randombytes4 (entropy self)))
        (port_or_80 (fresh_request o self))
        (hostname (parsedUrl (fresh_request o self)))]).
Proof.
  intros self o. unfold UDPTracker__request, genTransactionId, andThen.
  cbn [modify].
  match goal with
  | |- context [send ?rid ?m ?s] =>
      rewrite (send_spec s rid (fresh_request o self) m)
  end.
  - cbn [app]. f_equal.
    unfold update_request, set_requests, set_cleanupFns, set_entropy, after_request.
    cbn [requests client announceUrl destroyed interval cleanupFns
         maybeDestroyCleanup destroyTimeout entropy].
    fold (fresh_request o self).
    now rewrite (list_update_app_here ensure_port (requests self) (fresh_request o self) []).
  - unfold set_requests, set_cleanupFns, set_entropy. cbn [requests announceUrl entropy].
    rewrite nth_error_app2 by lia. rewrite Nat.sub_diag. reflexivity.
Qed.

Lemma destroy_now_spec : forall self cb,
  cleanupFns self = [] ->
  destroyCleanup cb (set_interval None (set_destroyed true self))
  = (after_destroy_now self, [Callback cb]).
Proof.
  intros self cb He. rewrite destroyCleanup_spec.
  - cbn [cleanupFns set_interval set_destroyed]. rewrite He. cbn [map app].
    unfold after_destroyCleanup, after_destroy_now.
    cbn [cleanupFns set_interval set_destroyed requests client announceUrl
         destroyed interval entropy]. now rewrite He.
  - cbn. rewrite He. constructor.
  - cbn. rewrite He. intros rid [].
Qed.

Lemma destroy_spec : forall self cb,
  UDPTracker_destroy cb self
  = if destroyed self then (self, [Callback cb])
    else if Nat.eqb (List.length (cleanupFns self)) 0
         then (after_destroy_now self, [Callback cb])
         else (after_destroy_pending cb self, []).
Proof.
  intros self cb. unfold UDPTracker_destroy.
  destruct (destroyed self) eqn:Hd; [reflexivity |].
  unfold andThen, clearInterval. cbn [modify cleanupFns set_interval set_destroyed].
  destruct (cleanupFns self) eqn:He; cbn [List.length Nat.eqb].
  - now rewrite (destroy_now_spec self cb He).
  - reflexivity.
Qed.

Lemma error_warning_map : forall self message,
  error_warning self message
  = map Emit (if destroyed self then []
              else [warning (with_url message (announceUrl self))]).
Proof. intros. unfold error_warning. destruct (destroyed self); reflexivity. Qed.

Lemma set_interval_same : forall s rid,
  set_interval (interval s) (after_cleanup rid s) = after_cleanup rid s.
Proof. reflexivity. Qed.

Lemma outcome_cleanup : forall s i rid r ivl evs st out,
  target i = Some rid -> listening s rid r ->
  (destroyed s = true -> evs = [] /\ ivl = interval s) ->
  st = set_interval ivl (after_cleanup rid s) ->
  out = SocketClose rid :: completion s rid ++ map Emit evs ->
  outcome s i out st.
Proof. intros; subst; eapply O_cleanup; eauto. Qed.

Lemma onError_outcome : forall s i rid r message,
  target i = Some rid -> listening s rid r ->
  outcome s i (snd (onError rid message s)) (fst (onError rid message s)).
Proof.
  intros s i rid r message Ht H.
  rewrite (onError_listening s rid r message H). cbn [fst snd].
  eapply (outcome_cleanup s i rid r (interval s)
            (if destroyed s then [] else [warning (with_url message (announceUrl s))]));
    eauto.
  - intros Hd. now rewrite Hd.
  - now rewrite error_warning_map.
Qed.

Lemma onSocketMessage_outcome : forall s rid r msg,
  listening s rid r ->
  outcome s (Socket_message rid msg)
    (snd (onSocketMessage rid msg s)) (fst (onSocketMessage rid msg s)).
Proof.
  intros s rid r msg H.
  destruct (invalid_transaction msg (transactionId r)) eqn:Hi.
  { rewrite (onSocketMessage_invalid s rid r msg H Hi).
    now apply (onError_outcome s _ rid r). }
  rewrite (onSocketMessage_valid s rid r msg H Hi). cbv zeta.
  destruct (readUInt32BE msg 0 =? 0).
  { destruct (List.length msg <? 16)%nat.
    - now apply (onError_outcome s _ rid r).
    - destruct (_scrape (opts r)).
      + rewrite (scrape_spec s rid r _ (proj1 H)).
        destruct (scrape_hashes (client s) (opts r)); cbn [fst snd].
        * now apply (O_followup s rid r).
        * now apply (O_thrown s rid r).
      + rewrite (announce_spec s rid r _ _ (proj1 H)).
        destruct (announce_fields _ _ _ _); cbn [fst snd].
        * now apply (O_followup s rid r).
        * now apply (O_thrown s rid r). }
  destruct (readUInt32BE msg 0 =? 1).
  { destruct (destroyed s) eqn:Hd.
    - rewrite (onAnnounceReply_destroyed s rid r msg H Hd). cbn [fst snd].
      eapply (outcome_cleanup s _ rid r (interval s) []); eauto.
      cbn [map]. now rewrite app_nil_r.
    - destruct (Nat.lt_ge_cases (List.length msg) 20) as [Hl | Hl].
      + rewrite (onAnnounceReply_short s rid r msg H Hd Hl). cbn [fst snd].
        eapply (outcome_cleanup s _ rid r (interval s) [_]); eauto;
          [| reflexivity]. congruence.
      + rewrite (onAnnounceReply_ok s rid r msg H Hd Hl). cbn [fst snd].
        eapply (outcome_cleanup s _ rid r
                  (if readUInt32BE msg 8 =? 0 then interval s
                   else Some (readUInt32BE msg 8 * 1000))
                  (update (announceUrl s) (readUInt32BE msg 16) (readUInt32BE msg 12)
                   :: match compact2string_multi (slice_from msg 20) with
                      | inl err => [warning err]
                      | inr addrs => map peer addrs
                      end)); eauto.
        * congruence.
        * destruct (readUInt32BE msg 8 =? 0); reflexivity.
        * cbn [map]. destruct (compact2string_multi (slice_from msg 20));
            [reflexivity | now rewrite map_map]. }
  destruct (readUInt32BE msg 0 =? 2).
  { destruct (destroyed s) eqn:Hd.
    - rewrite (onScrapeReply_destroyed s rid r _ msg H Hd). cbn [fst snd].
      eapply (outcome_cleanup s _ rid r (interval s) []); eauto.
      cbn [map]. now rewrite app_nil_r.
    - destruct (invalid_scrape msg) eqn:Hl.
      + rewrite (onScrapeReply_invalid s rid r _ msg H Hd Hl). cbn [fst snd].
        eapply (outcome_cleanup s _ rid r (interval s) [_]); eauto;
          [| reflexivity]. congruence.
      + rewrite (onScrapeReply_ok s rid r _ msg H Hd Hl). cbn [fst snd].
        eapply (outcome_cleanup s _ rid r (interval s)
                  (map (scrape_record s (opts r) msg)
                     (seq 0 ((List.length msg - 8) / 12)))); eauto.
        * congruence.
        * now rewrite map_map. }
  destruct (readUInt32BE msg 0 =? 3).
  { destruct (destroyed s) eqn:Hd.
    - rewrite (onErrorReply_destroyed s rid r msg H Hd). cbn [fst snd].
      eapply (outcome_cleanup s _ rid r (interval s) []); eauto.
      cbn [map]. now rewrite app_nil_r.
    - pose proof (valid_transaction_length _ _ Hi) as Hl.
      rewrite (onErrorReply_ok s rid r msg H Hd Hl). cbn [fst snd].
      eapply (outcome_cleanup s _ rid r (interval s) [_]); eauto;
        [| reflexivity]. congruence. }
  now apply (onError_outcome s _ rid r).
Qed.

(** Every step of a session that satisfies the invariant is one of the
    transitions of [outcome]. *)
Lemma step_outcome : forall s i,
  wf s -> outcome s i (snd (step i s)) (fst (step i s)).
Proof.
  intros s i W. destruct i as [o | o | cb | ms | rid | rid m | rid msg |].
  - cbn [step]. unfold UDPTracker_announce.
    destruct (destroyed s) eqn:Hd; [now apply O_ignored |].
    rewrite request_spec. cbn [fst snd]. apply O_request; auto.
    unfold ensure_port, fresh_request. cbn. destruct (port _); reflexivity.
  - cbn [step]. unfold UDPTracker_scrape.
    destruct (destroyed s) eqn:Hd; [now apply O_ignored |].
    unfold andThen. cbn [modify]. rewrite request_spec. cbn [fst snd app].
    rewrite write_scrape_length. apply O_scrape; auto.
    unfold ensure_port, fresh_request. cbn. destruct (port _); reflexivity.
  - cbn [step]. rewrite destroy_spec.
    destruct (destroyed s) eqn:Hd; [now apply O_destroy_again |].
    destruct (cleanupFns s) eqn:He; cbn [List.length Nat.eqb fst snd].
    + now apply O_destroy_now.
    + apply O_destroy_pending; [exact Hd | rewrite He; discriminate].
  - cbn [step setInterval modify fst snd]. apply O_setInterval.
  - cbn [step]. unfold withRequest.
    destruct (nth_error (requests s) rid) as [r |] eqn:Hr.
    + destruct (timeout r) eqn:Ht.
      * assert (H : listening s rid r).
        { split; [exact Hr | now apply (wf_timeout s W rid r)]. }
        rewrite (onTimeout_listening s rid r H). cbn [fst snd].
        eapply (outcome_cleanup s _ rid r (interval s)
                  (if is_stopped (event (opts r)) then []
                   else if destroyed s then []
                   else [warning (with_url (timeout_message (opts r)) (announceUrl s))]));
          eauto.
        -- intros Hd. rewrite Hd. now destruct (is_stopped _).
        -- rewrite error_warning_map. now destruct (is_stopped _).
      * apply O_ignored. cbn. intros r' E. congruence.
    + apply O_ignored. cbn. intros r' E. congruence.
  - cbn [step]. unfold withRequest.
    destruct (nth_error (requests s) rid) as [r |] eqn:Hr.
    + destruct (socket r) eqn:Hs.
      * now apply (onError_outcome s _ rid r).
      * apply O_ignored. cbn. intros r' E. congruence.
    + apply O_ignored. cbn. intros r' E. congruence.
  - cbn [step]. unfold withRequest at 1 2.
    destruct (nth_error (requests s) rid) as [r |] eqn:Hr.
    + destruct (socket r) eqn:Hs.
      * now apply (onSocketMessage_outcome s rid r).
      * apply O_ignored. cbn. intros r' E. congruence.
    + apply O_ignored. cbn. intros r' E. congruence.
  - cbn [step]. destruct (destroyTimeout s) as [cb |] eqn:Ht.
    + rewrite destroyCleanup_spec.
      * cbn [fst snd]. now apply O_grace.
      * apply W.
      * intros rid Hin. now apply (wf_active s W).
    + now apply O_ignored.
Qed.

Lemma outcome_wf : forall s i out s',
  wf s -> outcome s i out s' -> wf s'.
Proof.
  intros s i out s' W O. destruct O; auto.
  - now apply wf_after_destroy_now.
  - now apply wf_after_destroy_pending.
  - now apply wf_set_interval.
  - now apply wf_after_request.
  - apply wf_after_request; [now apply wf_write_scrape | assumption | assumption].
  - now apply wf_after_followup.
  - now apply wf_after_thrown.
  - apply wf_set_interval. now apply (wf_after_cleanup s rid r).
  - now apply wf_after_destroyCleanup.
Qed.

Lemma step_wf : forall s i, wf s -> wf (fst (step i s)).
Proof. intros s i W. exact (outcome_wf _ _ _ _ W (step_outcome s i W)). Qed.

Lemma run_cons : forall i ins s,
  run (i :: ins) s
  = (fst (run ins (fst (step i s))), snd (step i s) ++ snd (run ins (fst (step i s)))).
Proof.
  intros. unfold run. cbn [forEach]. unfold andThen.
  destruct (step i s) as [s1 o1]. cbn [fst snd].
  now destruct (forEach ins step s1).
Qed.

Lemma run_wf : forall ins s, wf s -> wf (fst (run ins s)).
Proof.
  induction ins as [| i ins IH]; intros s W; [exact W |].
  rewrite run_cons. cbn [fst]. apply IH. now apply step_wf.
Qed.

Lemma reachable_wf : forall s, reachable s -> wf s.
Proof.
  intros s (c & url & ins & ->). apply run_wf, wf_new.
Qed.

(** ** Replies of the tracker *)

Lemma emitted_cleanup_prefix : forall self rid evs,
  emitted (SocketClose rid :: completion self rid ++ evs) = emitted evs.
Proof.
  intros. change (SocketClose rid :: completion self rid ++ evs)
    with ([SocketClose rid] ++ completion self rid ++ evs).
  rewrite !emitted_app, emitted_completion. reflexivity.
Qed.

Lemma sent_cleanup_prefix : forall self rid evs,
  sent (SocketClose rid :: completion self rid ++ evs) = sent evs.
Proof.
  intros. change (SocketClose rid :: completion self rid ++ evs)
    with ([SocketClose rid] ++ completion self rid ++ evs).
  rewrite !sent_app, sent_completion. reflexivity.
Qed.

Lemma emitted_map : forall {A} (f : A -> ClientEvent) l,
  emitted (map (fun x => Emit (f x)) l) = map f l.
Proof. induction l; cbn; [reflexivity | now f_equal]. Qed.

Lemma filter_peer_only : forall (p : ClientEvent -> bool) addrs,
  (forall a, p (peer a) = false) -> filter p (map peer addrs) = [].
Proof.
  intros p addrs H. induction addrs as [| a l IH]; [reflexivity |].
  cbn. now rewrite H.
Qed.

Lemma announce_branch : forall self rid r msg,
  listening self rid r ->
  invalid_transaction msg (transactionId r) = false ->
  readUInt32BE msg 0 = common.ACTIONS.ANNOUNCE ->
  step (Socket_message rid msg) self = onAnnounceReply rid msg self.
Proof.
  intros self rid r msg H Hi Ha.
  rewrite (step_message_listening self rid r msg H).
  rewrite (onSocketMessage_valid self rid r msg H Hi). cbv zeta.
  rewrite Ha. reflexivity.
Qed.

Lemma scrape_branch : forall self rid r msg,
  listening self rid r ->
  invalid_transaction msg (transactionId r) = false ->
  readUInt32BE msg 0 = common.ACTIONS.SCRAPE ->
  step (Socket_message rid msg) self = onScrapeReply rid (opts r) msg self.
Proof.
  intros self rid r msg H Hi Ha.
  rewrite (step_message_listening self rid r msg H).
  rewrite (onSocketMessage_valid self rid r msg H Hi). cbv zeta.
  rewrite Ha. reflexivity.
Qed.

Lemma error_branch : forall self rid r msg,
  listening self rid r ->
  invalid_transaction msg (transactionId r) = false ->
  readUInt32BE msg 0 = common.ACTIONS.ERROR ->
  step (Socket_message rid msg) self = onErrorReply rid msg self.
Proof.
  intros self rid r msg H Hi Ha.
  rewrite (step_message_listening self rid r msg H).
  rewrite (onSocketMessage_valid self rid r msg H Hi). cbv zeta.
  rewrite Ha. reflexivity.
Qed.

(** C3, amended.  An announce reply (action 1, matching transaction id) to a
    request of a session that is not destroyed: with 20 bytes or more, a
    nonzero interval at offset 8 resets the periodic timer to interval * 1000
    ms (a zero interval leaves it), and exactly one update event is emitted,
    with the announce URL, complete = the word at offset 16 and incomplete =
    the word at offset 12; with fewer than 20 bytes the only event is the
    warning 'invalid announce message (<announce URL>)' and the timer is left.
    On a destroyed session the reply emits nothing and leaves the timer. *)
Theorem announce_reply_update : forall self rid r msg,
  listening self rid r ->
  invalid_transaction msg (transactionId r) = false ->
  readUInt32BE msg 0 = common.ACTIONS.ANNOUNCE ->
  let res := step (Socket_message rid msg) self in
  (destroyed self = false -> (20 <= List.length msg)%nat ->
     (readUInt32BE msg 8 <> 0 ->
        interval (fst res) = Some (readUInt32BE msg 8 * 1000))
     /\ (readUInt32BE msg 8 = 0 -> interval (fst res) = interval self)
     /\ filter is_update (emitted (snd res))
        = [update (announceUrl self) (readUInt32BE msg 16) (readUInt32BE msg 12)])
  /\ (destroyed self = false -> (List.length msg < 20)%nat ->
        emitted (snd res)
        = [warning ("invalid announce message (" ++ announceUrl self ++ ")")]
        /\ interval (fst res) = interval self)
  /\ (destroyed self = true ->
        emitted (snd res) = [] /\ interval (fst res) = interval self).
Proof.
  intros self rid r msg H Hi Ha res. subst res.
  rewrite (announce_branch self rid r msg H Hi Ha).
  split; [| split].
  - intros Hd Hl. rewrite (onAnnounceReply_ok self rid r msg H Hd Hl).
    cbn [fst snd]. split; [| split].
    + intros Hn. apply Z.eqb_neq in Hn. now rewrite Hn.
    + intros Hz. apply Z.eqb_eq in Hz. now rewrite Hz.
    + rewrite emitted_cleanup_prefix.
      destruct (compact2string_multi (slice_from msg 20)) as [err | addrs].
      * reflexivity.
      * cbn [emitted flat_map app]. fold (emitted (map (fun a => Emit (peer a)) addrs)).
        rewrite (emitted_map peer). cbn [filter is_update].
        now rewrite filter_peer_only.
  - intros Hd Hl. rewrite (onAnnounceReply_short self rid r msg H Hd Hl).
    cbn [fst snd]. rewrite emitted_cleanup_prefix. split; reflexivity.
  - intros Hd. rewrite (onAnnounceReply_destroyed self rid r msg H Hd).
    cbn [fst snd].
    rewrite <- (app_nil_r (completion self rid)), emitted_cleanup_prefix.
    split; reflexivity.
Qed.

(** C10.  An announce reply of 20 bytes or more (action 1, matching
    transaction id) whose peer list is not a whole number of 6-byte units:
    whenever the failure of the peer list is reported as a warning, the update
    event stands before it in the log and a nonzero interval has reset the
    periodic timer; no peer event is emitted.  On a session that is not
    destroyed the events are exactly the update, then the warning (a
    destroyed session returns before it decodes anything). *)
Theorem peer_list_failure_keeps_update : forall self rid r msg,
  listening self rid r ->
  invalid_transaction msg (transactionId r) = false ->
  readUInt32BE msg 0 = common.ACTIONS.ANNOUNCE ->
  (20 <= List.length msg)%nat ->
  ((List.length msg - 20) mod 6 <> 0)%nat ->
  let res := step (Socket_message rid msg) self in
  let upd := update (announceUrl self) (readUInt32BE msg 16) (readUInt32BE msg 12) in
  let failure := warning compact2string_error in
  compact2string_multi (slice_from msg 20) = inl compact2string_error
  /\ filter is_peer (emitted (snd res)) = []
  /\ (forall pre post,
        emitted (snd res) = pre ++ failure :: post ->
        pre = [upd] /\ post = []
        /\ (readUInt32BE msg 8 <> 0 ->
            interval (fst res) = Some (readUInt32BE msg 8 * 1000)))
  /\ (destroyed self = false -> emitted (snd res) = [upd; failure])
  /\ (destroyed self = true -> emitted (snd res) = []).
Proof.
  intros self rid r msg H Hi Ha Hl Hm res upd failure. subst res.
  assert (Hc : compact2string_multi (slice_from msg 20) = inl compact2string_error).
  { unfold compact2string_multi, slice_from. rewrite length_skipn.
    destruct (Nat.eqb_spec ((List.length msg - 20) mod 6) 0); [contradiction | reflexivity]. }
  rewrite (announce_branch self rid r msg H Hi Ha).
  destruct (destroyed self) eqn:Hd.
  - rewrite (onAnnounceReply_destroyed self rid r msg H Hd). cbn [fst snd].
    rewrite <- (app_nil_r (completion self rid)), emitted_cleanup_prefix.
    cbn [emitted flat_map filter].
    split; [exact Hc |]. split; [reflexivity |].
    split; [| split; [discriminate | reflexivity]].
    intros pre post E. destruct pre; discriminate.
  - rewrite (onAnnounceReply_ok self rid r msg H Hd Hl). cbn [fst snd].
    rewrite emitted_cleanup_prefix, Hc.
    cbn [emitted flat_map app filter is_peer].
    split; [reflexivity |]. split; [reflexivity |].
    split; [| split; [reflexivity | discriminate]].
    intros pre post E.
    destruct pre as [| e pre].
    { cbn in E. discriminate. }
    destruct pre as [| e' pre].
    + cbn in E. injection E as <- <-. repeat split; auto.
      intros Hn. apply Z.eqb_neq in Hn. now rewrite Hn.
    + cbn in E. injection E as _ _ E. destruct pre; discriminate.
Qed.

(** The hash list of the scrape branch: the hashes of a non-empty array in
    hex and in order, the single hash given, or the client's info-hash. *)
Lemma infoHashes_cases : forall c o,
  (forall h t, opts_infoHash o = IH_array (h :: t) ->
     infoHashes c o = map toString_hex (h :: t))
  /\ (forall b0 b, opts_infoHash o = IH_buffer (b0 :: b) ->
        infoHashes c o = [toString_hex (b0 :: b)])
  /\ (opts_infoHash o = IH_undefined -> infoHashes c o = [infoHash c]).
Proof.
  intros c o. unfold infoHashes. split; [| split].
  - intros h t ->. reflexivity.
  - intros b0 b ->. reflexivity.
  - intros ->. reflexivity.
Qed.

Lemma nth_error_seq0 : forall N i, (i < N)%nat -> nth_error (seq 0 N) i = Some i.
Proof.
  intros N i H. rewrite (nth_error_nth' (seq 0 N) O) by now rewrite length_seq.
  now rewrite seq_nth.
Qed.

(** C2, amended.  A scrape reply (action 2, matching transaction id) to a
    request of a session that is not destroyed: with length 8 + 12 N, N >= 1,
    exactly N scrape events are emitted, the i-th with complete, downloaded
    and incomplete = the words at offsets 8 + 12 i, 12 + 12 i and 16 + 12 i and
    infoHash = the i-th hash of the array given in the request, in the order
    of the array and in hex (or the single hash given, or the client's
    info-hash when none was given); shorter than 20 bytes, or with
    (length - 8) not a multiple of 12, the only event is the warning 'invalid
    scrape message (<announce URL>)'.  On a destroyed session the reply emits
    nothing. *)
Theorem scrape_reply_events : forall self rid r msg,
  listening self rid r ->
  invalid_transaction msg (transactionId r) = false ->
  readUInt32BE msg 0 = common.ACTIONS.SCRAPE ->
  let out := snd (step (Socket_message rid msg) self) in
  let o := opts r in
  (destroyed self = false ->
     (forall N, (1 <= N)%nat -> List.length msg = (8 + 12 * N)%nat ->
        List.length (emitted out) = N
        /\ forall i, (i < N)%nat ->
           exists hash,
             nth_error (emitted out) i
             = Some (scrape_event (announceUrl self) hash
                       (readUInt32BE msg (8 + 12 * i))
                       (readUInt32BE msg (12 + 12 * i))
                       (readUInt32BE msg (16 + 12 * i)))
             /\ (forall h t x, opts_infoHash o = IH_array (h :: t) ->
                   nth_error (h :: t) i = Some x -> hash = Some (toString_hex x))
             /\ (forall b0 b, opts_infoHash o = IH_buffer (b0 :: b) -> i = O ->
                   hash = Some (toString_hex (b0 :: b)))
             /\ (opts_infoHash o = IH_undefined -> i = O ->
                   hash = Some (infoHash (client self))))
     /\ ((List.length msg < 20)%nat \/ ((List.length msg - 8) mod 12 <> 0)%nat ->
         emitted out
         = [warning ("invalid scrape message (" ++ announceUrl self ++ ")")]))
  /\ (destroyed self = true -> emitted out = []).
Proof.
  intros self rid r msg H Hi Ha out o. subst out.
  rewrite (scrape_branch self rid r msg H Hi Ha).
  split.
  - intros Hd. split.
    + intros N HN Hl.
      assert (Hv : invalid_scrape msg = false).
      { unfold invalid_scrape. rewrite Hl.
        replace (8 + 12 * N - 8)%nat with (N * 12)%nat by lia.
        rewrite Nat.Div0.mod_mul.
        destruct (Nat.ltb_spec (8 + 12 * N) 20); [lia | reflexivity]. }
      rewrite (onScrapeReply_ok self rid r _ msg H Hd Hv). cbn [snd].
      rewrite emitted_cleanup_prefix, (emitted_map (scrape_record self (opts r) msg)).
      rewrite Hl. replace (8 + 12 * N - 8)%nat with (N * 12)%nat by lia.
      rewrite Nat.div_mul by lia.
      split; [now rewrite length_map, length_seq |].
      intros i Hlt. exists (nth_error (infoHashes (client self) o) i).
      rewrite nth_error_map, (nth_error_seq0 N i Hlt). cbn [option_map].
      destruct (infoHashes_cases (client self) o) as (Harr & Hbuf & Hund).
      split; [| split; [| split]].
      * unfold scrape_record. now rewrite !(Nat.mul_comm i 12).
      * intros h t x E Hx. rewrite (Harr h t E), nth_error_map, Hx. reflexivity.
      * intros b0 b E ->. now rewrite (Hbuf b0 b E).
      * intros E ->. now rewrite (Hund E).
    + intros Hl.
      assert (Hv : invalid_scrape msg = true).
      { unfold invalid_scrape. destruct Hl as [Hl | Hl].
        - apply Nat.ltb_lt in Hl. now rewrite Hl.
        - apply Nat.eqb_neq in Hl. rewrite Hl. apply orb_true_r. }
      rewrite (onScrapeReply_invalid self rid r _ msg H Hd Hv). cbn [snd].
      now rewrite emitted_cleanup_prefix.
  - intros Hd. rewrite (onScrapeReply_destroyed self rid r _ msg H Hd). cbn [snd].
    now rewrite <- (app_nil_r (completion self rid)), emitted_cleanup_prefix.
Qed.

Lemma onErrorReply_guard_dead : forall rid msg self,
  (8 <= List.length msg)%nat ->
  onErrorReply rid msg self = onErrorReply_unguarded rid msg self.
Proof.
  intros rid msg self Hl. unfold onErrorReply, onErrorReply_unguarded, andThen.
  destruct (cleanup rid self) as [s1 o1].
  destruct (destroyed s1); [reflexivity |].
  apply Nat.ltb_ge in Hl. now rewrite Hl.
Qed.

(** C9, amended.  A reply with action 3 and matching transaction id to a
    request of a session that is not destroyed emits exactly one event, a
    warning whose message is the bytes from offset 8 on decoded as text; on a
    destroyed session it emits nothing; in both cases no update, peer or
    scrape event.  The length test inside the branch is never true, since the
    top-level test has rejected every datagram shorter than 8 bytes: the
    branch behaves as the one without the test. *)
Theorem error_reply_warning : forall self rid r msg,
  listening self rid r ->
  invalid_transaction msg (transactionId r) = false ->
  readUInt32BE msg 0 = common.ACTIONS.ERROR ->
  let res := step (Socket_message rid msg) self in
  (destroyed self = false ->
     emitted (snd res) = [warning (Buffer_toString (slice_from msg 8))])
  /\ (destroyed self = true -> emitted (snd res) = [])
  /\ filter (fun e => negb (is_warning e)) (emitted (snd res)) = []
  /\ (List.length msg <? 8)%nat = false
  /\ res = onErrorReply_unguarded rid msg self.
Proof.
  intros self rid r msg H Hi Ha res. subst res.
  pose proof (valid_transaction_length _ _ Hi) as Hl.
  rewrite (error_branch self rid r msg H Hi Ha).
  assert (Hok : destroyed self = false ->
                emitted (snd (onErrorReply rid msg self))
                = [warning (Buffer_toString (slice_from msg 8))]).
  { intros Hd. rewrite (onErrorReply_ok self rid r msg H Hd Hl). cbn [snd].
    now rewrite emitted_cleanup_prefix. }
  assert (Hno : destroyed self = true -> emitted (snd (onErrorReply rid msg self)) = []).
  { intros Hd. rewrite (onErrorReply_destroyed self rid r msg H Hd). cbn [snd].
    now rewrite <- (app_nil_r (completion self rid)), emitted_cleanup_prefix. }
  split; [exact Hok |]. split; [exact Hno |]. split; [| split].
  - destruct (destroyed self) eqn:Hd.
    + now rewrite (Hno eq_refl).
    + now rewrite (Hok eq_refl).
  - now apply Nat.ltb_ge.
  - now apply onErrorReply_guard_dead.
Qed.

(** ** Requests that end in an error *)

Lemma string_app_assoc : forall a b c : string,
  ((a ++ b) ++ c = a ++ (b ++ c))%string.
Proof. induction a; intros; cbn; [reflexivity | now rewrite IHa]. Qed.

Lemma cleaned_up_after_cleanup : forall self rid r,
  wf self -> listening self rid r -> cleaned_up (after_cleanup rid self) rid.
Proof.
  intros self rid r W H. split.
  - exists (closed r). split; [| split; reflexivity].
    unfold after_cleanup. cbn [requests]. apply nth_error_list_update_eq. apply H.
  - unfold after_cleanup, remaining. cbn [cleanupFns].
    rewrite arrayRemove_indexOf_In by apply W. intros [_ Hne]. now apply Hne.
Qed.

Lemma cleaned_up_idle : forall self rid, cleaned_up self rid -> idle self rid.
Proof. intros self rid [(r & Hr & _ & Hs) _]. now exists r. Qed.

(** A request that is idle receives nothing any more. *)
Lemma idle_ignores : forall self rid msg,
  idle self rid -> step (Socket_message rid msg) self = (self, []).
Proof.
  intros self rid msg (r & Hr & Hs). cbn [step]. unfold withRequest.
  now rewrite Hr, Hs.
Qed.

Lemma no_send_in_completion : forall self rid x m p h,
  ~ In (SocketSend x m p h) (completion self rid).
Proof.
  intros. unfold completion. destruct (maybeDestroyCleanup self); [| intros []].
  destruct (Nat.eqb _ _); [| intros []]. intros [E | []]. discriminate.
Qed.

Lemma no_send_in_emits : forall evs x m p h, ~ In (SocketSend x m p h) (map Emit evs).
Proof.
  intros evs x m p h Hin. apply in_map_iff in Hin. destruct Hin as (e & E & _).
  discriminate.
Qed.

Lemma no_send_in_closes : forall l x m p h, ~ In (SocketSend x m p h) (map SocketClose l).
Proof.
  intros l x m p h Hin. apply in_map_iff in Hin. destruct Hin as (e & E & _).
  discriminate.
Qed.

Lemma idle_close_all : forall l reqs rid r,
  nth_error reqs rid = Some r -> socket r = false ->
  exists r', nth_error (close_all l reqs) rid = Some r' /\ socket r' = false.
Proof.
  induction l as [| x l IH]; intros reqs rid r Hr Hs; [now exists r |].
  cbn [close_all]. destruct (Nat.eq_dec x rid) as [-> | Hne].
  - apply (IH _ rid (closed r)); [| reflexivity].
    now apply nth_error_list_update_eq.
  - apply (IH _ rid r); [| exact Hs].
    now rewrite nth_error_list_update_neq.
Qed.

(** A transition leaves an idle request idle and sends nothing for it. *)
Lemma outcome_idle : forall s i out s' rid,
  outcome s i out s' -> idle s rid ->
  idle s' rid /\ forall m p h, ~ In (SocketSend rid m p h) out.
Proof.
  intros s i out s' rid O (r0 & Hr0 & Hs0).
  assert (Hlt : (rid < List.length (requests s))%nat).
  { apply nth_error_Some. congruence. }
  destruct O.
  - split; [now exists r0 | intros m p h []].
  - split; [now exists r0 |]. intros m p h [E | []]. discriminate.
  - split; [now exists r0 |]. intros m p h [E | []]. discriminate.
  - split; [now exists r0 | intros m' p' h' []].
  - split; [now exists r0 | intros m' p' h' []].
  - split.
    + exists r0. split; [| exact Hs0]. unfold after_request. cbn [requests].
      now rewrite nth_error_app1.
    + intros m' p' h' [E | []]. injection E as E _ _ _. lia.
  - split.
    + exists (mark_scrape (object_id o) r0). split.
      * unfold after_request. cbn [requests].
        rewrite nth_error_app1 by now rewrite write_scrape_length.
        now rewrite nth_error_write_scrape, Hr0.
      * destruct (mark_scrape_frame (object_id o) r0) as (-> & _). exact Hs0.
    + intros m' p' h' [E | []]. injection E as E _ _ _. lia.
  - assert (Hne : rid0 <> rid).
    { intros ->. destruct H as [Hr Hs]. congruence. }
    split.
    + exists r0. split; [| exact Hs0].
      unfold after_followup, update_request, set_requests, set_entropy.
      cbn [requests]. now rewrite nth_error_list_update_neq.
    + intros m' p' h' [E | []]. injection E as E _ _ _. congruence.
  - assert (Hne : rid0 <> rid).
    { intros ->. destruct H as [Hr Hs]. congruence. }
    split.
    + exists r0. split; [| exact Hs0].
      unfold after_thrown, update_request, set_requests, set_entropy.
      cbn [requests]. now rewrite nth_error_list_update_neq.
    + intros m' p' h' [E | []]. discriminate.
  - assert (Hne : rid0 <> rid).
    { intros ->. destruct H0 as [Hr Hs]. congruence. }
    split.
    + exists r0. split; [| exact Hs0]. unfold after_cleanup, set_interval.
      cbn [requests]. now rewrite nth_error_list_update_neq.
    + intros m' p' h' [E | Hin]; [discriminate |].
      apply in_app_or in Hin. destruct Hin as [Hin | Hin].
      * now apply no_send_in_completion in Hin.
      * now apply no_send_in_emits in Hin.
  - split.
    + unfold after_destroyCleanup, idle. cbn [requests].
      now apply (idle_close_all _ _ rid r0).
    + intros m' p' h' Hin. apply in_app_or in Hin. destruct Hin as [Hin | [E | []]].
      * now apply no_send_in_closes in Hin.
      * discriminate.
Qed.

(** Whatever happens afterwards, nothing is sent for an idle request. *)
Lemma idle_never_sends : forall ins s rid,
  wf s -> idle s rid ->
  forall m p h, ~ In (SocketSend rid m p h) (snd (run ins s)).
Proof.
  induction ins as [| i ins IH]; intros s rid W Hi m p h; [intros [] |].
  rewrite run_cons. cbn [snd]. intros Hin.
  destruct (outcome_idle s i _ _ rid (step_outcome s i W) Hi) as [Hi' Hno].
  apply in_app_or in Hin. destruct Hin as [Hin | Hin].
  - now apply Hno in Hin.
  - apply (IH (fst (step i s)) rid (step_wf s i W) Hi' m p h Hin).
Qed.

Lemma invalid_transaction_cases : forall msg tid,
  invalid_transaction msg tid = true
  <-> ((List.length msg < 8)%nat \/ readUInt32BE msg 4 <> readUInt32BE tid 0).
Proof.
  intros msg tid. unfold invalid_transaction.
  rewrite orb_true_iff, Nat.ltb_lt, negb_true_iff, Z.eqb_neq. reflexivity.
Qed.

(** C1, amended.  A datagram on the socket of a request that is shorter than
    8 bytes, or whose word at offset 4 differs from the request's current
    transaction id read big-endian, aborts the request: the request is
    cleaned up (timeout cancelled, socket closed once, removed from the
    session's active set), nothing is sent, and later datagrams for it are
    ignored.  Exactly one warning 'tracker sent invalid transaction id
    (<announce URL>)' is emitted unless the session is destroyed, in which
    case nothing is emitted. *)
Theorem invalid_transaction_aborts : forall self rid r msg,
  reachable self -> listening self rid r ->
  (List.length msg < 8)%nat
  \/ readUInt32BE msg 4 <> readUInt32BE (transactionId r) 0 ->
  let res := step (Socket_message rid msg) self in
  emitted (snd res)
  = (if destroyed self then []
     else [warning ("tracker sent invalid transaction id ("
                      ++ announceUrl self ++ ")")])
  /\ cleaned_up (fst res) rid
  /\ (exists rest, snd res = SocketClose rid :: rest /\ ~ In (SocketClose rid) rest)
  /\ sent (snd res) = []
  /\ (forall msg', step (Socket_message rid msg') (fst res) = (fst res, [])).
Proof.
  intros self rid r msg R H Hbad res. subst res.
  pose proof (reachable_wf self R) as W.
  apply invalid_transaction_cases in Hbad.
  rewrite (step_message_listening self rid r msg H).
  rewrite (onSocketMessage_invalid self rid r msg H Hbad).
  rewrite (onError_listening self rid r _ H). cbn [fst snd].
  pose proof (cleaned_up_after_cleanup self rid r W H) as Hc.
  split; [| split; [exact Hc | split; [| split]]].
  - rewrite emitted_cleanup_prefix, emitted_error_warning.
    destruct (destroyed self); reflexivity.
  - eexists. split; [reflexivity |]. intros Hin.
    apply in_app_or in Hin. destruct Hin as [Hin | Hin].
    + unfold completion in Hin. destruct (maybeDestroyCleanup self); [| destruct Hin].
      destruct (Nat.eqb _ _); [| destruct Hin]. destruct Hin as [E | []]. discriminate.
    + unfold error_warning in Hin. destruct (destroyed self); [destruct Hin |].
      destruct Hin as [E | []]. discriminate.
  - now rewrite sent_cleanup_prefix, sent_error_warning.
  - intros msg'. apply idle_ignores. now apply cleaned_up_idle.
Qed.

(** C4, amended.  A connect reply (action 0, matching transaction id) shorter
    than 16 bytes: the request is cleaned up and the follow-up announce or
    scrape request is never sent, neither by this step nor by any later one.
    The error 'invalid udp handshake (<announce URL>)' is emitted as one
    warning unless the session is destroyed, in which case nothing is
    emitted. *)
Theorem short_handshake_rejected : forall self rid r msg,
  reachable self -> listening self rid r ->
  invalid_transaction msg (transactionId r) = false ->
  readUInt32BE msg 0 = common.ACTIONS.CONNECT ->
  (List.length msg < 16)%nat ->
  let res := step (Socket_message rid msg) self in
  emitted (snd res)
  = (if destroyed self then []
     else [warning ("invalid udp handshake (" ++ announceUrl self ++ ")")])
  /\ cleaned_up (fst res) rid
  /\ sent (snd res) = []
  /\ (forall ins m p h, ~ In (SocketSend rid m p h) (snd (run ins (fst res)))).
Proof.
  intros self rid r msg R H Hi Ha Hl res. subst res.
  pose proof (reachable_wf self R) as W.
  rewrite (step_message_listening self rid r msg H).
  rewrite (onSocketMessage_valid self rid r msg H Hi). cbv zeta.
  rewrite Ha. change (common.ACTIONS.CONNECT =? 0) with true. cbv iota.
  apply Nat.ltb_lt in Hl. rewrite Hl.
  rewrite (onError_listening self rid r _ H). cbn [fst snd].
  pose proof (cleaned_up_after_cleanup self rid r W H) as Hc.
  split; [| split; [exact Hc | split]].
  - rewrite emitted_cleanup_prefix, emitted_error_warning.
    destruct (destroyed self); reflexivity.
  - now rewrite sent_cleanup_prefix, sent_error_warning.
  - intros ins. apply idle_never_sends.
    + now apply (wf_after_cleanup self rid r).
    + now apply cleaned_up_idle.
Qed.

(** C7, amended.  When the timeout of a request fires: if the request's event
    option is 'stopped', the request is cleaned up and nothing is emitted;
    for every other request the request is cleaned up and exactly one
    warning 'tracker request timed out (<event>) (<announce URL>)' is
    emitted, unless the session is destroyed, in which case nothing is
    emitted. *)
Theorem request_timeout_fires : forall self rid r,
  reachable self ->
  nth_error (requests self) rid = Some r -> timeout r = true ->
  let res := step (Request_timeout rid) self in
  (event (opts r) = Some "stopped"%string -> emitted (snd res) = [])
  /\ (event (opts r) <> Some "stopped"%string ->
      emitted (snd res)
      = if destroyed self then []
        else [warning ("tracker request timed out (" ++ event_text (event (opts r))
                         ++ ") (" ++ announceUrl self ++ ")")])
  /\ cleaned_up (fst res) rid.
Proof.
  intros self rid r R Hr Ht res. subst res.
  pose proof (reachable_wf self R) as W.
  assert (H : listening self rid r).
  { split; [exact Hr | now apply (wf_timeout self W rid r)]. }
  cbn [step]. unfold withRequest. rewrite Hr, Ht.
  rewrite (onTimeout_listening self rid r H). cbn [fst snd].
  split; [| split].
  - intros He. rewrite He. cbn [is_stopped]. rewrite String.eqb_refl.
    now rewrite emitted_cleanup_prefix.
  - intros He.
    assert (Hs : is_stopped (event (opts r)) = false).
    { unfold is_stopped. destruct (event (opts r)) as [e |]; [| reflexivity].
      destruct (String.eqb_spec e "stopped"); [congruence | reflexivity]. }
    rewrite Hs, emitted_cleanup_prefix, emitted_error_warning.
    destruct (destroyed self); [reflexivity |].
    unfold timeout_message, with_url. cbn.
    now rewrite string_app_assoc.
  - now apply (cleaned_up_after_cleanup self rid r).
Qed.

(** ** destroy *)

Lemma no_callback_in_emits : forall evs cb, ~ In (Callback cb) (map Emit evs).
Proof.
  intros evs cb Hin. apply in_map_iff in Hin. destruct Hin as (e & E & _).
  discriminate.
Qed.

Lemma no_callback_in_closes : forall l cb, ~ In (Callback cb) (map SocketClose l).
Proof.
  intros l cb Hin. apply in_map_iff in Hin. destruct Hin as (e & E & _).
  discriminate.
Qed.

Lemma wf_pending : forall s cb,
  wf s -> maybeDestroyCleanup s = Some cb ->
  destroyed s = true /\ cleanupFns s <> [] /\ destroyTimeout s = Some cb.
Proof. intros s cb W H. now apply (wf_watcher s W). Qed.

Lemma wf_finished : forall s,
  wf s -> destroyed s = true -> maybeDestroyCleanup s = None ->
  cleanupFns s = [] /\ destroyTimeout s = None
  /\ forall rid r, ~ listening s rid r.
Proof.
  intros s W Hd Hm. pose proof (wf_drained s W Hd Hm) as He.
  split; [exact He |]. split.
  - destruct (destroyTimeout s) as [cb |] eqn:E; [| reflexivity].
    rewrite (wf_timer s W cb E) in Hm. discriminate.
  - intros rid r H. pose proof (wf_listening_active s rid r W H) as Hin.
    rewrite He in Hin. destruct Hin.
Qed.

(** One transition of a session whose destroy is pending with callback [cb]:
    either the destroy stays pending (the grace timer did not fire, requests
    remain, [cb] was not called), or it completes: the remaining requests are
    closed and then [cb] is called, once. *)
Lemma pending_outcome : forall s cb i out s',
  wf s -> maybeDestroyCleanup s = Some cb ->
  outcome s i out s' -> i <> Call_destroy cb ->
  (maybeDestroyCleanup s' = Some cb /\ i <> Destroy_timeout
   /\ ~ In (Callback cb) out
   /\ forall rid, In rid (cleanupFns s) ->
        In rid (cleanupFns s') \/ In (SocketClose rid) out)
  \/ (destroyed s' = true /\ maybeDestroyCleanup s' = None
      /\ exists pre, out = pre ++ [Callback cb] /\ ~ In (Callback cb) pre
         /\ forall rid, In rid (cleanupFns s) -> In (SocketClose rid) pre).
Proof.
  intros s cb i out s' W Hm O Hi.
  destruct (wf_pending s cb W Hm) as (Hd & Hne & Ht).
  destruct O.
  - left. repeat split; auto.
    intros ->. cbn in H. congruence.
  - left. repeat split; auto; try discriminate.
    intros [E | []]. injection E as ->. now apply Hi.
  - congruence.
  - congruence.
  - left. repeat split; auto. discriminate.
  - congruence.
  - congruence.
  - left. repeat split; auto; try discriminate.
    intros [E | []]. discriminate.
  - left. repeat split; auto; try discriminate.
    intros [E | []]. discriminate.
  - destruct (H1 Hd) as [-> ->]. cbn [map]. rewrite app_nil_r.
    pose proof (wf_nodup s W) as Hnd.
    unfold completion. rewrite Hm.
    destruct (remaining s rid) as [| x rest] eqn:Hrem; cbn [List.length Nat.eqb].
    + right. unfold set_interval, after_cleanup, completes.
      cbn [destroyed maybeDestroyCleanup].
      rewrite Hm, Hrem. cbn. repeat split; auto.
      exists [SocketClose rid]. repeat split.
      * intros [E | []]. discriminate.
      * intros y Hy. left. f_equal.
        destruct (Nat.eq_dec y rid) as [-> | Hneq]; [reflexivity |].
        assert (Hin : In y (remaining s rid)).
        { unfold remaining. apply arrayRemove_indexOf_In; auto. }
        rewrite Hrem in Hin. destruct Hin.
    + left. unfold set_interval, after_cleanup, completes.
      cbn [maybeDestroyCleanup cleanupFns].
      rewrite Hm, Hrem. cbn [is_some andb List.length Nat.eqb].
      repeat split; auto.
      * intros ->. discriminate.
      * intros [E | []]. discriminate.
      * intros y Hy. destruct (Nat.eq_dec y rid) as [-> | Hneq].
        -- right. now left.
        -- left. rewrite <- Hrem. unfold remaining.
           apply arrayRemove_indexOf_In; auto.
  - right. rewrite Ht in H. injection H as ->.
    unfold after_destroyCleanup. cbn [destroyed maybeDestroyCleanup].
    repeat split; auto.
    exists (map SocketClose (cleanupFns s)). repeat split.
    + apply no_callback_in_closes.
    + intros rid Hin. now apply in_map.
Qed.

(** Once a destroy has completed, nothing but a further [destroy] call
    produces any effect. *)
Lemma finished_outcome : forall s i out s',
  wf s -> destroyed s = true -> maybeDestroyCleanup s = None ->
  outcome s i out s' ->
  destroyed s' = true /\ maybeDestroyCleanup s' = None
  /\ forall cb, In (Callback cb) out -> i = Call_destroy cb.
Proof.
  intros s i out s' W Hd Hm O.
  destruct (wf_finished s W Hd Hm) as (He & Ht & Hnl).
  destruct O; try congruence.
  - repeat split; auto. intros cb [].
  - repeat split; auto. intros cb' [E | []]. congruence.
  - repeat split; auto. intros cb [].
  - exfalso. now apply (Hnl rid r).
  - exfalso. now apply (Hnl rid r).
  - exfalso. now apply (Hnl rid r).
Qed.

Lemma finished_run : forall ins s cb,
  wf s -> destroyed s = true -> maybeDestroyCleanup s = None ->
  ~ In (Call_destroy cb) ins ->
  ~ In (Callback cb) (snd (run ins s))
  /\ destroyed (fst (run ins s)) = true
  /\ maybeDestroyCleanup (fst (run ins s)) = None.
Proof.
  induction ins as [| i ins IH]; intros s cb W Hd Hm Hno.
  - cbn. auto.
  - rewrite run_cons. cbn [fst snd].
    destruct (finished_outcome s i _ _ W Hd Hm (step_outcome s i W)) as (Hd' & Hm' & Hcb).
    destruct (IH (fst (step i s)) cb (step_wf s i W) Hd' Hm') as (Hn & Hd2 & Hm2).
    { intros Hin. apply Hno. now right. }
    repeat split; auto.
    intros Hin. apply in_app_or in Hin. destruct Hin as [Hin | Hin].
    + apply Hcb in Hin. apply Hno. left. exact Hin.
    + now apply Hn.
Qed.

Lemma pending_run : forall ins s cb,
  wf s -> maybeDestroyCleanup s = Some cb ->
  ~ In (Call_destroy cb) ins ->
  (maybeDestroyCleanup (fst (run ins s)) = Some cb
   /\ ~ In Destroy_timeout ins
   /\ ~ In (Callback cb) (snd (run ins s))
   /\ forall rid, In rid (cleanupFns s) ->
        In rid (cleanupFns (fst (run ins s))) \/ In (SocketClose rid) (snd (run ins s)))
  \/ (destroyed (fst (run ins s)) = true
      /\ maybeDestroyCleanup (fst (run ins s)) = None
      /\ exists pre post,
           snd (run ins s) = pre ++ Callback cb :: post
           /\ ~ In (Callback cb) pre /\ ~ In (Callback cb) post
           /\ forall rid, In rid (cleanupFns s) -> In (SocketClose rid) pre).
Proof.
  induction ins as [| i ins IH]; intros s cb W Hm Hno.
  - left. cbn. repeat split; auto.
  - rewrite run_cons. cbn [fst snd].
    assert (Hi : i <> Call_destroy cb).
    { intros ->. apply Hno. now left. }
    assert (Hno' : ~ In (Call_destroy cb) ins).
    { intros Hin. apply Hno. now right. }
    pose proof (step_wf s i W) as W'.
    destruct (pending_outcome s cb i _ _ W Hm (step_outcome s i W) Hi)
      as [(Hm' & Hnt & Hnc & Hact) | (Hd' & Hm' & pre & Hout & Hpre & Hcl)].
    + destruct (IH (fst (step i s)) cb W' Hm' Hno')
        as [(Hm2 & Hnt2 & Hnc2 & Hact2) | (Hd2 & Hm2 & pre & post & Hout & Hpre & Hpost & Hcl)].
      * left. repeat split; auto.
        -- intros [E | Hin]; [now apply Hnt | now apply Hnt2].
        -- intros Hin. apply in_app_or in Hin. destruct Hin; auto.
        -- intros rid Hin. destruct (Hact rid Hin) as [Hin' | Hin'].
           ++ destruct (Hact2 rid Hin') as [H2 | H2]; [now left |].
              right. apply in_or_app. now right.
           ++ right. apply in_or_app. now left.
      * right. repeat split; auto.
        exists (snd (step i s) ++ pre), post. repeat split.
        -- rewrite Hout. now rewrite app_assoc.
        -- intros Hin. apply in_app_or in Hin. destruct Hin; auto.
        -- exact Hpost.
        -- intros rid Hin. apply in_or_app. destruct (Hact rid Hin) as [Hin' | Hin'].
           ++ right. now apply Hcl.
           ++ now left.
    + right.
      destruct (finished_run ins (fst (step i s)) cb W' Hd' Hm' Hno') as (Hn & Hd2 & Hm2).
      repeat split; auto.
      exists pre, (snd (run ins (fst (step i s)))). repeat split; auto.
      rewrite Hout. rewrite <- app_assoc. reflexivity.
Qed.

(** C8, amended.  On a session that is not destroyed yet, [destroy] marks it
    destroyed and cancels the periodic timer.  With no active request the
    callback is called at once, with no error.  Otherwise nothing is called
    at once, and over everything that happens afterwards the callback is
    called exactly once: as long as the grace timer has not fired and active
    requests remain it has not been called; as soon as the active set is
    empty or the grace timer fires it is called, after the socket of every
    request that was still active has been closed, and no request listens any
    more.  On a session that is destroyed already, [destroy] calls the
    callback at once and changes nothing. *)
Theorem destroy_completes_once : forall self cb,
  reachable self ->
  let res := step (Call_destroy cb) self in
  (destroyed self = true -> res = (self, [Callback cb]))
  /\ (destroyed self = false ->
      destroyed (fst res) = true /\ interval (fst res) = None
      /\ (cleanupFns self = [] -> snd res = [Callback cb])
      /\ (cleanupFns self <> [] ->
          snd res = []
          /\ forall ins, ~ In (Call_destroy cb) ins ->
             let later := run ins (fst res) in
             (~ In Destroy_timeout ins /\ cleanupFns (fst later) <> []
              /\ ~ In (Callback cb) (snd later))
             \/ (cleanupFns (fst later) = []
                 /\ (forall rid r, ~ listening (fst later) rid r)
                 /\ exists pre post,
                      snd later = pre ++ Callback cb :: post
                      /\ ~ In (Callback cb) pre /\ ~ In (Callback cb) post
                      /\ forall rid, In rid (cleanupFns self) ->
                           In (SocketClose rid) pre))).
Proof.
  intros self cb R res. subst res.
  pose proof (reachable_wf self R) as W.
  cbn [step]. rewrite destroy_spec.
  split.
  - intros Hd. now rewrite Hd.
  - intros Hd. rewrite Hd.
    destruct (cleanupFns self) as [| x fns] eqn:He; cbn [List.length Nat.eqb fst snd].
    + split; [reflexivity |]. split; [reflexivity |]. split; [reflexivity |].
      intros Hne. exfalso. now apply Hne.
    + split; [reflexivity |]. split; [reflexivity |].
      split; [discriminate |]. intros _. split; [reflexivity |].
      intros ins Hno. cbv zeta.
      assert (Hne : cleanupFns self <> []) by (rewrite He; discriminate).
      pose proof (wf_after_destroy_pending self cb W Hne) as W1.
      pose proof (run_wf ins _ W1) as W2.
      destruct (pending_run ins (after_destroy_pending cb self) cb W1 eq_refl Hno)
        as [(Hm & Hnt & Hnc & _) | (Hd2 & Hm2 & pre & post & Hout & Hpre & Hpost & Hcl)].
      * left. repeat split; auto.
        now destruct (wf_pending _ cb W2 Hm) as (_ & Hne2 & _).
      * right. destruct (wf_finished _ W2 Hd2 Hm2) as (He2 & _ & Hnl).
        repeat split; auto.
        exists pre, post. repeat split; auto.
        intros rid Hin. apply Hcl. cbn [after_destroy_pending cleanupFns].
        now rewrite He.
Qed.

(** ** The messages sent *)

(** C5, amended.  The CONNECT message sent when a request starts (by
    [announce] or [scrape] on a session that is not destroyed) is the fixed
    8-byte magic connection id 0x0000041727101980, followed by action 0 as a
    4-byte big-endian integer, followed by the 4-byte transaction id of the
    new request: 16 bytes in all. *)
Theorem connect_message_layout : forall self o i,
  destroyed self = false ->
  i = Call_announce o \/ i = Call_scrape o ->
  let tid := randombytes4 (entropy self) in
  let res := step i self in
  sent (snd res) = [common.CONNECTION_ID ++ common.toUInt32 0 ++ tid]
  /\ common.CONNECTION_ID = be_bytes 8 0x0000041727101980
  /\ List.length common.CONNECTION_ID = 8%nat
  /\ common.toUInt32 0 = [0; 0; 0; 0]
  /\ List.length tid = 4%nat
  /\ (exists r, nth_error (requests (fst res)) (List.length (requests self)) = Some r
                /\ transactionId r = tid)
  /\ List.length (common.CONNECTION_ID ++ common.toUInt32 0 ++ tid) = 16%nat.
Proof.
  intros self o i Hd Hi tid res. subst res.
  assert (E : exists o' s0, step i self = UDPTracker__request o' s0
               /\ entropy s0 = entropy self
               /\ List.length (requests s0) = List.length (requests self)).
  { destruct Hi as [-> | ->]; cbn [step];
      unfold UDPTracker_announce, UDPTracker_scrape; rewrite Hd.
    - exists (deref o self), self. auto.
    - exists (set_scrape (deref o (write_scrape (object_id o) self))),
        (write_scrape (object_id o) self).
      split; [| split; [reflexivity | apply write_scrape_length]].
      unfold andThen. cbn [modify]. now destruct (UDPTracker__request _ _). }
  destruct E as (o' & s0 & -> & He & Hlen). rewrite request_spec. cbn [fst snd].
  rewrite <- Hlen. unfold fresh_request. rewrite He.
  pose proof (randombytes4_length (entropy self)) as Hl. fold tid in Hl |- *.
  split; [| split; [| split; [| split; [| split; [| split]]]]].
  - cbn [sent flat_map app]. unfold connect_message. cbn [List.concat].
    now rewrite app_nil_r.
  - reflexivity.
  - reflexivity.
  - reflexivity.
  - exact Hl.
  - eexists. split.
    + unfold after_request. cbn [requests].
      rewrite nth_error_app2 by lia. rewrite Nat.sub_diag. reflexivity.
    + unfold ensure_port. cbn. now destruct (port _).
  - rewrite !length_app, Hl. reflexivity.
Qed.

Lemma skipn_exact : forall {A} (pre rest : list A) n,
  List.length pre = n -> skipn n (pre ++ rest) = rest.
Proof.
  intros A pre rest n <-. rewrite skipn_app, Nat.sub_diag, skipn_all. reflexivity.
Qed.

Lemma firstn_exact : forall {A} (l rest : list A) n,
  List.length l = n -> firstn n (l ++ rest) = l.
Proof.
  intros A l rest n <-. rewrite firstn_app, Nat.sub_diag, firstn_all.
  cbn. now rewrite app_nil_r.
Qed.

Lemma slice_connection_id : forall msg,
  (16 <= List.length msg)%nat -> List.length (slice msg 8 16) = 8%nat.
Proof. intros msg H. unfold slice. rewrite length_firstn, length_skipn. lia. Qed.

Lemma slice_exact : forall (pre x rest : Buffer) a b,
  List.length pre = a -> List.length x = (b - a)%nat ->
  slice (pre ++ x ++ rest) a b = x.
Proof.
  intros pre x rest a b Ha Hb. unfold slice.
  rewrite (skipn_exact pre (x ++ rest) a Ha). now apply firstn_exact.
Qed.

(** C6, amended.  [toUInt64] yields the 8-byte big-endian representation of
    every integer n with 0 <= n < 2^64 that is handed over as a string of
    decimal digits or as a number below 2^53: eight octets whose big-endian
    value is n, taken from the arbitrary-precision path above 2^32 - 1.  A
    number of 2^53 or more is refused: the encoder throws.  In the announce
    request that a connect reply triggers, bytes 56 to 63 are the encoding of
    [opts.downloaded], bytes 64 to 71 that of [opts.left], or eight 0xFF
    octets when [opts.left] is null or undefined, and bytes 72 to 79 that of
    [opts.uploaded]; when one of the three is a number of 2^53 or more the
    exception leaves the handler and no request is sent. *)
Theorem toUInt64_big_endian : forall self rid r msg,
  listening self rid r ->
  invalid_transaction msg (transactionId r) = false ->
  readUInt32BE msg 0 = common.ACTIONS.CONNECT ->
  (16 <= List.length msg)%nat ->
  _scrape (opts r) = false ->
  List.length (_infoHashBuffer (client self)) = 20%nat ->
  List.length (_peerIdBuffer (client self)) = 20%nat ->
  let o := opts r in
  let out := snd (step (Socket_message rid msg) self) in
  (forall v, encodable v ->
     toUInt64 v = Some (be_bytes 8 (numeric_value v))
     /\ be_value (be_bytes 8 (numeric_value v)) = numeric_value v
     /\ (MAX_UINT < numeric_value v ->
         new_BN v = Some (numeric_value v)
         /\ be_bytes 8 (numeric_value v)
            = unshift_to_8 8 (BN_toArray (numeric_value v))))
  /\ (forall n, 2 ^ 53 <= n -> toUInt64 (JNumber n) = None)
  /\ (announce_encodable (client self) o ->
      exists m p h,
        out = [SocketSend rid m p h]
        /\ slice m 56 64 = be_bytes 8 (numeric_value (downloaded o))
        /\ slice m 64 72
           = match opts_left o with
             | Some l => be_bytes 8 (numeric_value l)
             | None => repeat 255 8
             end
        /\ slice m 72 80 = be_bytes 8 (numeric_value (uploaded o)))
  /\ (forall n, 2 ^ 53 <= n ->
      downloaded o = JNumber n \/ opts_left o = Some (JNumber n)
      \/ uploaded o = JNumber n ->
      out = [Uncaught]).
Proof.
  intros self rid r msg H Hi Ha Hl Hsc Hih Hpid o out. subst out.
  assert (Hthrow : forall n, 2 ^ 53 <= n -> toUInt64 (JNumber n) = None).
  { intros n Hn. unfold toUInt64, new_BN. cbn [numeric_value is_string].
    destruct (Z.gtb_spec n MAX_UINT) as [_ | Hle]; [| unfold MAX_UINT in Hle; lia].
    cbn [orb]. destruct (Z.ltb_spec (Z.abs n) (2 ^ 53)); [lia | reflexivity]. }
  rewrite (step_message_listening self rid r msg H).
  rewrite (onSocketMessage_valid self rid r msg H Hi). cbv zeta.
  rewrite Ha. change (common.ACTIONS.CONNECT =? 0) with true. cbv iota.
  pose proof Hl as Hl'. apply Nat.ltb_ge in Hl'. rewrite Hl', Hsc.
  rewrite (announce_spec self rid r _ _ (proj1 H)). fold o.
  split; [| split; [exact Hthrow | split]].
  - intros v Hv. pose proof Hv as [Hr _].
    split; [now apply toUInt64_be_bytes |]. split.
    + rewrite be_value_be_bytes by lia.
      apply Z.mod_small. change (256 ^ Z.of_nat 8) with (2 ^ 64). lia.
    + intros _. split; [now apply new_BN_encodable |].
      symmetry. now apply BN_path_big_endian.
  - intros Henc. rewrite (announce_fields_encodable _ _ _ _ Henc). cbn [snd].
    pose proof (randombytes4_length (entropy self)) as Ht.
    pose proof (slice_connection_id msg Hl) as Hc.
    set (tid := randombytes4 (entropy self)) in *.
    set (cid := slice msg 8 16) in *.
    set (lf := match opts_left o with
               | Some l => be_bytes 8 (numeric_value l)
               | None => repeat 255 8
               end).
    assert (Hlf : List.length lf = 8%nat).
    { subst lf. destruct (opts_left o); [apply be_bytes_length | reflexivity]. }
    eexists _, _, _. split; [reflexivity |]. cbn [List.concat].
    split; [| split].
    + rewrite !app_assoc. rewrite <- (app_assoc _ (be_bytes 8 _) lf).
      rewrite <- !app_assoc.
      rewrite (app_assoc cid), (app_assoc (cid ++ _)), (app_assoc ((cid ++ _) ++ _)),
        (app_assoc (((cid ++ _) ++ _) ++ _)).
      apply slice_exact; [| apply be_bytes_length].
      rewrite !length_app, Hc, Ht, Hih, Hpid. reflexivity.
    + rewrite (app_assoc cid), (app_assoc (cid ++ _)), (app_assoc ((cid ++ _) ++ _)),
        (app_assoc (((cid ++ _) ++ _) ++ _)), (app_assoc ((((cid ++ _) ++ _) ++ _) ++ _)).
      apply slice_exact; [| exact Hlf].
      rewrite !length_app, Hc, Ht, Hih, Hpid, be_bytes_length. reflexivity.
    + rewrite (app_assoc cid), (app_assoc (cid ++ _)), (app_assoc ((cid ++ _) ++ _)),
        (app_assoc (((cid ++ _) ++ _) ++ _)), (app_assoc ((((cid ++ _) ++ _) ++ _) ++ _)),
        (app_assoc (((((cid ++ _) ++ _) ++ _) ++ _) ++ _)).
      apply slice_exact; [| apply be_bytes_length].
      rewrite !length_app, Hc, Ht, Hih, Hpid, be_bytes_length, Hlf. reflexivity.
  - intros n Hn Hf.
    assert (E : announce_fields (client self) (slice msg 8 16)
                  (randombytes4 (entropy self)) o = None).
    { unfold announce_fields, left_field.
      destruct Hf as [E | [E | E]]; rewrite E.
      - now rewrite (Hthrow n Hn).
      - rewrite (Hthrow n Hn). now destruct (toUInt64 (downloaded o)).
      - rewrite (Hthrow n Hn). destruct (toUInt64 (downloaded o)); [| reflexivity].
        now destruct (match opts_left o with Some l => toUInt64 l | None => _ end). }
    now rewrite E.
Qed.

End Session.

(* ================================================================== *)
(** * The theorems at concrete sessions *)
(* ================================================================== *)

Lemma reachable_connecting : reachable (rt := example_runtime) connecting.
Proof.
  exists example_client, example_url, [Call_announce example_opts]. reflexivity.
Qed.

Lemma reachable_announcing : reachable (rt := example_runtime) announcing.
Proof.
  exists example_client, example_url,
    [Call_announce example_opts; Socket_message 0 example_connect_reply].
  reflexivity.
Qed.

Lemma reachable_connecting_destroyed :
  reachable (rt := example_runtime) connecting_destroyed.
Proof.
  exists example_client, example_url, [Call_announce example_opts; Call_destroy 7].
  reflexivity.
Qed.

Lemma reachable_announcing_destroyed :
  reachable (rt := example_runtime) announcing_destroyed.
Proof.
  exists example_client, example_url,
    [Call_announce example_opts; Socket_message 0 example_connect_reply;
     Call_destroy 7].
  reflexivity.
Qed.

Lemma reachable_scraping_destroyed :
  reachable (rt := example_runtime) scraping_destroyed.
Proof.
  exists example_client, example_url,
    [Call_scrape example_opts; Socket_message 0 example_connect_reply;
     Call_destroy 7].
  reflexivity.
Qed.

(** ** C1 *)

(** A 3-byte datagram aborts the connecting request with one warning. *)
Lemma invalid_transaction_aborts_witness :
  reachable (rt := example_runtime) connecting
  /\ listening connecting 0 (example_request false 0)
  /\ (List.length [0; 0; 0] < 8)%nat
  /\ emitted (snd (step (rt := example_runtime) (Socket_message 0 [0; 0; 0]) connecting))
     = [warning "tracker sent invalid transaction id (udp://tracker.example.org:6969)"]
  /\ cleaned_up
       (fst (step (rt := example_runtime) (Socket_message 0 [0; 0; 0]) connecting)) 0.
Proof.
  assert (H1 : listening connecting 0 (example_request false 0)) by (split; reflexivity).
  assert (H2 : (List.length [0; 0; 0] < 8)%nat) by (cbn; lia).
  pose proof (invalid_transaction_aborts (rt := example_runtime) connecting 0
                (example_request false 0) [0; 0; 0]
                reachable_connecting H1 (or_introl H2)) as T.
  cbv zeta in T. destruct T as (Te & Tc & _).
  split; [exact reachable_connecting |]. split; [exact H1 |]. split; [exact H2 |].
  split; [exact Te | exact Tc].
Defined.

(** On a session destroyed while the request was pending, the same datagram
    emits no warning at all. *)
Lemma invalid_transaction_counterexample :
  reachable (rt := example_runtime) connecting_destroyed
  /\ listening connecting_destroyed 0 (example_request false 0)
  /\ (List.length [0; 0; 0] < 8)%nat
  /\ emitted (snd (step (rt := example_runtime) (Socket_message 0 [0; 0; 0])
                     connecting_destroyed)) = [].
Proof.
  split; [exact reachable_connecting_destroyed |].
  split; [split; reflexivity |]. split; [cbn; lia | reflexivity].
Qed.

(** ** C2 *)

(** Two records for a request of the hashes 11..11 and 22..22: the first
    event carries the first hash, the second event the second one. *)
Lemma scrape_reply_events_witness :
  listening scraping_two 0
    {| opts := set_scrape example_two_hashes; transactionId := [0; 0; 0; 1];
       timeout := true; socket := true;
       parsedUrl := {| port := Some 6969; hostname := "tracker.example.org" |} |}
  /\ invalid_transaction example_scrape_reply_two [0; 0; 0; 1] = false
  /\ readUInt32BE example_scrape_reply_two 0 = common.ACTIONS.SCRAPE
  /\ List.length
       (emitted (snd (step (rt := example_runtime)
                        (Socket_message 0 example_scrape_reply_two) scraping_two)))
     = 2%nat
  /\ nth_error
       (emitted (snd (step (rt := example_runtime)
                        (Socket_message 0 example_scrape_reply_two) scraping_two))) 0
     = Some (scrape_event example_url (Some "1111111111111111111111111111111111111111"%string)
               9 4 5)
  /\ nth_error
       (emitted (snd (step (rt := example_runtime)
                        (Socket_message 0 example_scrape_reply_two) scraping_two))) 1
     = Some (scrape_event example_url (Some "2222222222222222222222222222222222222222"%string)
               3 2 1).
Proof.
  set (r := {| opts := set_scrape example_two_hashes; transactionId := [0; 0; 0; 1];
               timeout := true; socket := true;
               parsedUrl := {| port := Some 6969; hostname := "tracker.example.org" |} |}).
  assert (H1 : listening scraping_two 0 r) by (split; reflexivity).
  assert (H2 : invalid_transaction example_scrape_reply_two [0; 0; 0; 1] = false)
    by reflexivity.
  assert (H3 : readUInt32BE example_scrape_reply_two 0 = common.ACTIONS.SCRAPE)
    by reflexivity.
  pose proof (scrape_reply_events (rt := example_runtime) scraping_two 0
                r example_scrape_reply_two H1 H2 H3) as T.
  cbv zeta in T. destruct T as [T _]. destruct (T eq_refl) as [Tn _].
  destruct (Tn 2%nat ltac:(lia) eq_refl) as [Tlen Ti].
  destruct (Ti 0%nat ltac:(lia)) as (hash0 & E0 & A0 & _).
  destruct (Ti 1%nat ltac:(lia)) as (hash1 & E1 & A1 & _).
  rewrite (A0 (repeat 17 20) [repeat 34 20] (repeat 17 20) eq_refl eq_refl) in E0.
  rewrite (A1 (repeat 17 20) [repeat 34 20] (repeat 34 20) eq_refl eq_refl) in E1.
  split; [exact H1 |]. split; [exact H2 |]. split; [exact H3 |].
  split; [exact Tlen |]. split; [exact E0 | exact E1].
Defined.

(** On a session destroyed while the scrape was pending, a well-formed reply
    with one record yields no scrape event. *)
Lemma scrape_reply_counterexample :
  reachable (rt := example_runtime) scraping_destroyed
  /\ listening scraping_destroyed 0 (example_request true 1)
  /\ invalid_transaction example_scrape_reply [0; 0; 0; 1] = false
  /\ readUInt32BE example_scrape_reply 0 = common.ACTIONS.SCRAPE
  /\ List.length example_scrape_reply = (8 + 12 * 1)%nat
  /\ emitted (snd (step (rt := example_runtime) (Socket_message 0 example_scrape_reply)
                     scraping_destroyed)) = [].
Proof.
  split; [exact reachable_scraping_destroyed |].
  split; [split; reflexivity |]. repeat split; reflexivity.
Qed.

(** ** C3 *)

(** Interval 1800 resets the timer to 1,800,000 ms, with one update event. *)
Lemma announce_reply_update_witness :
  listening announcing 0 (example_request false 1)
  /\ invalid_transaction example_announce_reply [0; 0; 0; 1] = false
  /\ readUInt32BE example_announce_reply 0 = common.ACTIONS.ANNOUNCE
  /\ interval (fst (step (rt := example_runtime)
                      (Socket_message 0 example_announce_reply) announcing))
     = Some 1800000
  /\ filter is_update
       (emitted (snd (step (rt := example_runtime)
                        (Socket_message 0 example_announce_reply) announcing)))
     = [update example_url 9 5].
Proof.
  assert (H1 : listening announcing 0 (example_request false 1)) by (split; reflexivity).
  assert (H2 : invalid_transaction example_announce_reply [0; 0; 0; 1] = false)
    by reflexivity.
  assert (H3 : readUInt32BE example_announce_reply 0 = common.ACTIONS.ANNOUNCE)
    by reflexivity.
  pose proof (announce_reply_update (rt := example_runtime) announcing 0
                (example_request false 1) example_announce_reply H1 H2 H3) as T.
  cbv zeta in T. destruct T as [T _].
  assert (Hl : (20 <= List.length example_announce_reply)%nat) by (cbn; lia).
  destruct (T eq_refl Hl) as (Ti & _ & Tu).
  assert (Hn : readUInt32BE example_announce_reply 8 <> 0) by discriminate.
  split; [exact H1 |]. split; [exact H2 |]. split; [exact H3 |].
  split; [exact (Ti Hn) | exact Tu].
Defined.

(** On a session destroyed while the announce was pending, the same reply
    neither resets the timer nor emits an update event. *)
Lemma announce_reply_counterexample :
  reachable (rt := example_runtime) announcing_destroyed
  /\ listening announcing_destroyed 0 (example_request false 1)
  /\ invalid_transaction example_announce_reply [0; 0; 0; 1] = false
  /\ readUInt32BE example_announce_reply 0 = common.ACTIONS.ANNOUNCE
  /\ (20 <= List.length example_announce_reply)%nat
  /\ readUInt32BE example_announce_reply 8 = 1800
  /\ interval (fst (step (rt := example_runtime)
                      (Socket_message 0 example_announce_reply) announcing_destroyed))
     = None
  /\ emitted (snd (step (rt := example_runtime)
                     (Socket_message 0 example_announce_reply) announcing_destroyed))
     = [].
Proof.
  split; [exact reachable_announcing_destroyed |].
  split; [split; reflexivity |].
  split; [reflexivity |]. split; [reflexivity |]. split; [cbn; lia |].
  repeat split; reflexivity.
Qed.

(** ** C4 *)

(** A connect reply of 10 bytes: action 0, transaction id 0, two more bytes. *)
Lemma short_handshake_rejected_witness :
  reachable (rt := example_runtime) connecting
  /\ listening connecting 0 (example_request false 0)
  /\ invalid_transaction [0;0;0;0; 0;0;0;0; 1;2] [0; 0; 0; 0] = false
  /\ readUInt32BE [0;0;0;0; 0;0;0;0; 1;2] 0 = common.ACTIONS.CONNECT
  /\ (List.length [0;0;0;0; 0;0;0;0; 1;2] < 16)%nat
  /\ emitted (snd (step (rt := example_runtime)
                     (Socket_message 0 [0;0;0;0; 0;0;0;0; 1;2]) connecting))
     = [warning "invalid udp handshake (udp://tracker.example.org:6969)"]
  /\ sent (snd (step (rt := example_runtime)
                  (Socket_message 0 [0;0;0;0; 0;0;0;0; 1;2]) connecting)) = [].
Proof.
  assert (H1 : listening connecting 0 (example_request false 0)) by (split; reflexivity).
  assert (H2 : invalid_transaction [0;0;0;0; 0;0;0;0; 1;2] [0; 0; 0; 0] = false)
    by reflexivity.
  assert (H3 : readUInt32BE [0;0;0;0; 0;0;0;0; 1;2] 0 = common.ACTIONS.CONNECT)
    by reflexivity.
  assert (H4 : (List.length [0;0;0;0; 0;0;0;0; 1;2] < 16)%nat) by (cbn; lia).
  pose proof (short_handshake_rejected (rt := example_runtime) connecting 0
                (example_request false 0) [0;0;0;0; 0;0;0;0; 1;2]
                reachable_connecting H1 H2 H3 H4) as T.
  cbv zeta in T. destruct T as (Te & _ & Ts & _).
  split; [exact reachable_connecting |]. split; [exact H1 |]. split; [exact H2 |].
  split; [exact H3 |]. split; [exact H4 |]. split; [exact Te | exact Ts].
Defined.

(** On a session destroyed while the handshake was pending, the short connect
    reply is not reported: no warning is emitted. *)
Lemma short_handshake_counterexample :
  reachable (rt := example_runtime) connecting_destroyed
  /\ listening connecting_destroyed 0 (example_request false 0)
  /\ invalid_transaction [0;0;0;0; 0;0;0;0; 1;2] [0; 0; 0; 0] = false
  /\ readUInt32BE [0;0;0;0; 0;0;0;0; 1;2] 0 = common.ACTIONS.CONNECT
  /\ (List.length [0;0;0;0; 0;0;0;0; 1;2] < 16)%nat
  /\ emitted (snd (step (rt := example_runtime)
                     (Socket_message 0 [0;0;0;0; 0;0;0;0; 1;2]) connecting_destroyed))
     = [].
Proof.
  split; [exact reachable_connecting_destroyed |].
  split; [split; reflexivity |].
  split; [reflexivity |]. split; [reflexivity |]. split; [cbn; lia | reflexivity].
Qed.

(** ** C5 *)

Lemma connect_message_layout_witness :
  destroyed example_session = false
  /\ sent (snd (step (rt := example_runtime) (Call_announce example_opts) example_session))
     = [[0;0;4;23;39;16;25;128; 0;0;0;0; 0;0;0;0]].
Proof.
  assert (H1 : destroyed example_session = false) by reflexivity.
  pose proof (connect_message_layout (rt := example_runtime) example_session
                example_opts (Call_announce example_opts) H1 (or_introl eq_refl)) as T.
  cbv zeta in T. destruct T as (Ts & _).
  split; [exact H1 | exact Ts].
Defined.

(** The CONNECT message is 16 bytes long in all, so it does not start with a
    16-byte constant that an action and a transaction id follow. *)
Lemma connect_message_counterexample :
  sent (snd (step (rt := example_runtime) (Call_announce example_opts) example_session))
  = [[0;0;4;23;39;16;25;128; 0;0;0;0; 0;0;0;0]]
  /\ ~ (exists magic : Buffer,
          List.length magic = 16%nat
          /\ [0;0;4;23;39;16;25;128; 0;0;0;0; 0;0;0;0]
             = magic ++ common.toUInt32 common.ACTIONS.CONNECT ++ [0; 0; 0; 0]).
Proof.
  split; [reflexivity |]. intros (magic & Hl & E).
  apply (f_equal (@List.length Z)) in E. rewrite !length_app, Hl in E.
  cbn in E. lia.
Qed.

(** ** C6 *)

(** 2^40 as a number takes the arbitrary-precision path, 2^63 is given as a
    string, 7 takes the 32-bit path: the three fields of the request sent. *)
Lemma toUInt64_big_endian_witness :
  listening counting 0
    {| opts := example_counts; transactionId := [0; 0; 0; 0];
       timeout := true; socket := true;
       parsedUrl := {| port := Some 6969; hostname := "tracker.example.org" |} |}
  /\ invalid_transaction example_connect_reply [0; 0; 0; 0] = false
  /\ readUInt32BE example_connect_reply 0 = common.ACTIONS.CONNECT
  /\ (16 <= List.length example_connect_reply)%nat
  /\ _scrape example_counts = false
  /\ List.length (_infoHashBuffer example_client) = 20%nat
  /\ List.length (_peerIdBuffer example_client) = 20%nat
  /\ announce_encodable example_client example_counts
  /\ map (fun m => (slice m 56 64, slice m 64 72, slice m 72 80))
       (sent (snd (step (rt := example_runtime)
                     (Socket_message 0 example_connect_reply) counting)))
     = [([0; 0; 1; 0; 0; 0; 0; 0], [128; 0; 0; 0; 0; 0; 0; 0], [0; 0; 0; 0; 0; 0; 0; 7])].
Proof.
  set (r := {| opts := example_counts; transactionId := [0; 0; 0; 0];
               timeout := true; socket := true;
               parsedUrl := {| port := Some 6969; hostname := "tracker.example.org" |} |}).
  assert (H1 : listening counting 0 r) by (split; reflexivity).
  assert (H2 : invalid_transaction example_connect_reply [0; 0; 0; 0] = false)
    by reflexivity.
  assert (H3 : readUInt32BE example_connect_reply 0 = common.ACTIONS.CONNECT)
    by reflexivity.
  assert (H4 : (16 <= List.length example_connect_reply)%nat) by (cbn; lia).
  assert (H5 : announce_encodable example_client example_counts).
  { unfold announce_encodable, encodable. cbn.
    split; [split; [lia | intros _; lia] |].
    split; [split; [lia | intros _; lia] |].
    split; [| lia]. intros l E. injection E as <-. cbn.
    split; [lia | discriminate]. }
  pose proof (toUInt64_big_endian (rt := example_runtime) counting 0 r
                example_connect_reply H1 H2 H3 H4 eq_refl eq_refl eq_refl) as T.
  cbv zeta in T. destruct T as (_ & _ & Ts & _).
  destruct (Ts H5) as (m & p & h & Eo & Ed & El & Eu).
  split; [exact H1 |]. split; [exact H2 |]. split; [exact H3 |]. split; [exact H4 |].
  split; [reflexivity |]. split; [reflexivity |]. split; [reflexivity |].
  split; [exact H5 |].
  rewrite Eo. cbn [sent flat_map app map]. rewrite Ed, El, Eu. reflexivity.
Defined.

(** 2^53 is an integer below 2^64 that a JavaScript number holds exactly, yet
    [toUInt64] throws on it: the connect reply of a request that reports 2^53
    bytes downloaded is answered by an exception, and nothing is sent. *)
Lemma toUInt64_counterexample :
  0 <= 9007199254740992 < 2 ^ 64
  /\ toUInt64 (JNumber 9007199254740992) = None
  /\ toUInt64 (JNumber 9007199254740992) <> Some (be_bytes 8 9007199254740992)
  /\ reachable (rt := example_runtime) counting_unsafe
  /\ listening counting_unsafe 0
       {| opts := example_unsafe_counts; transactionId := [0; 0; 0; 0];
          timeout := true; socket := true;
          parsedUrl := {| port := Some 6969; hostname := "tracker.example.org" |} |}
  /\ invalid_transaction example_connect_reply [0; 0; 0; 0] = false
  /\ snd (step (rt := example_runtime) (Socket_message 0 example_connect_reply)
            counting_unsafe) = [Uncaught].
Proof.
  split; [lia |]. split; [reflexivity |]. split; [discriminate |]. split.
  - exists example_client, example_url, [Call_announce example_unsafe_counts].
    reflexivity.
  - split; [split; reflexivity |]. split; reflexivity.
Qed.

(** ** C7 *)

Lemma request_timeout_fires_witness :
  reachable (rt := example_runtime) connecting
  /\ nth_error (requests connecting) 0 = Some (example_request false 0)
  /\ timeout (example_request false 0) = true
  /\ emitted (snd (step (rt := example_runtime) (Request_timeout 0) connecting))
     = [warning "tracker request timed out (started) (udp://tracker.example.org:6969)"]
  /\ cleaned_up (fst (step (rt := example_runtime) (Request_timeout 0) connecting)) 0.
Proof.
  assert (H1 : nth_error (requests connecting) 0 = Some (example_request false 0))
    by reflexivity.
  assert (H2 : timeout (example_request false 0) = true) by reflexivity.
  pose proof (request_timeout_fires (rt := example_runtime) connecting 0
                (example_request false 0) reachable_connecting H1 H2) as T.
  cbv zeta in T. destruct T as (_ & Tw & Tc).
  assert (Hn : event (opts (example_request false 0)) <> Some "stopped"%string)
    by discriminate.
  split; [exact reachable_connecting |]. split; [exact H1 |]. split; [exact H2 |].
  split; [exact (Tw Hn) | exact Tc].
Defined.

(** On a session destroyed while the request was pending, the timeout of a
    request whose event is 'started' emits no warning. *)
Lemma request_timeout_counterexample :
  reachable (rt := example_runtime) connecting_destroyed
  /\ nth_error (requests connecting_destroyed) 0 = Some (example_request false 0)
  /\ timeout (example_request false 0) = true
  /\ event (opts (example_request false 0)) = Some "started"%string
  /\ emitted (snd (step (rt := example_runtime) (Request_timeout 0)
                     connecting_destroyed)) = [].
Proof.
  split; [exact reachable_connecting_destroyed |]. repeat split; reflexivity.
Qed.

(** ** C8 *)

(** [destroy] with one request pending, then the grace timer: the request is
    closed, then the callback is called. *)
Lemma destroy_completes_once_witness :
  reachable (rt := example_runtime) connecting
  /\ destroyed connecting = false
  /\ cleanupFns connecting <> []
  /\ snd (step (rt := example_runtime) (Call_destroy 7) connecting) = []
  /\ snd (run (rt := example_runtime) [Destroy_timeout]
            (fst (step (rt := example_runtime) (Call_destroy 7) connecting)))
     = [SocketClose 0; Callback 7]
  /\ cleanupFns
       (fst (run (rt := example_runtime) [Destroy_timeout]
               (fst (step (rt := example_runtime) (Call_destroy 7) connecting)))) = [].
Proof.
  assert (H1 : destroyed connecting = false) by reflexivity.
  assert (H2 : cleanupFns connecting <> []) by discriminate.
  pose proof (destroy_completes_once (rt := example_runtime) connecting 7
                reachable_connecting) as T.
  cbv zeta in T. destruct T as [_ T]. destruct (T H1) as (_ & _ & _ & Tp).
  destruct (Tp H2) as [Tn Tl].
  assert (H3 : ~ In (Call_destroy 7) [Destroy_timeout]).
  { intros [E | []]. discriminate. }
  split; [exact reachable_connecting |]. split; [exact H1 |]. split; [exact H2 |].
  split; [exact Tn |]. split; [reflexivity |].
  destruct (Tl [Destroy_timeout] H3) as [(Hnt & _) | (He & _)].
  - exfalso. apply Hnt. now left.
  - exact He.
Defined.

(** [destroy] on a session that is destroyed already, with a request still
    active and the grace timer still running: the callback is called at
    once, and the request is neither closed nor removed. *)
Lemma destroy_again_counterexample :
  reachable (rt := example_runtime) connecting_destroyed
  /\ cleanupFns connecting_destroyed = [0%nat]
  /\ listening connecting_destroyed 0 (example_request false 0)
  /\ destroyTimeout connecting_destroyed = Some 7%nat
  /\ step (rt := example_runtime) (Call_destroy 9) connecting_destroyed
     = (connecting_destroyed, [Callback 9]).
Proof.
  split; [exact reachable_connecting_destroyed |].
  split; [reflexivity |]. split; [split; reflexivity |]. split; reflexivity.
Qed.

(** ** C9 *)

Lemma error_reply_warning_witness :
  listening announcing 0 (example_request false 1)
  /\ invalid_transaction example_error_reply [0; 0; 0; 1] = false
  /\ readUInt32BE example_error_reply 0 = common.ACTIONS.ERROR
  /\ emitted (snd (step (rt := example_runtime) (Socket_message 0 example_error_reply)
                     announcing))
     = [warning "no"].
Proof.
  assert (H1 : listening announcing 0 (example_request false 1)) by (split; reflexivity).
  assert (H2 : invalid_transaction example_error_reply [0; 0; 0; 1] = false)
    by reflexivity.
  assert (H3 : readUInt32BE example_error_reply 0 = common.ACTIONS.ERROR) by reflexivity.
  pose proof (error_reply_warning (rt := example_runtime) announcing 0
                (example_request false 1) example_error_reply H1 H2 H3) as T.
  cbv zeta in T. destruct T as (Tw & _).
  split; [exact H1 |]. split; [exact H2 |]. split; [exact H3 |].
  exact (Tw eq_refl).
Defined.

(** On a session destroyed while the announce was pending, an error reply
    emits no warning. *)
Lemma error_reply_counterexample :
  reachable (rt := example_runtime) announcing_destroyed
  /\ listening announcing_destroyed 0 (example_request false 1)
  /\ invalid_transaction example_error_reply [0; 0; 0; 1] = false
  /\ readUInt32BE example_error_reply 0 = common.ACTIONS.ERROR
  /\ emitted (snd (step (rt := example_runtime) (Socket_message 0 example_error_reply)
                     announcing_destroyed)) = [].
Proof.
  split; [exact reachable_announcing_destroyed |].
  split; [split; reflexivity |]. repeat split; reflexivity.
Qed.

(** ** C10 *)

(** A peer list of five bytes: the update is emitted, then the warning. *)
Lemma peer_list_failure_keeps_update_witness :
  listening announcing 0 (example_request false 1)
  /\ invalid_transaction example_announce_reply_cut [0; 0; 0; 1] = false
  /\ readUInt32BE example_announce_reply_cut 0 = common.ACTIONS.ANNOUNCE
  /\ (20 <= List.length example_announce_reply_cut)%nat
  /\ ((List.length example_announce_reply_cut - 20) mod 6 <> 0)%nat
  /\ emitted (snd (step (rt := example_runtime)
                     (Socket_message 0 example_announce_reply_cut) announcing))
     = [update example_url 9 5; warning compact2string_error]
  /\ interval (fst (step (rt := example_runtime)
                      (Socket_message 0 example_announce_reply_cut) announcing))
     = Some 1800000.
Proof.
  assert (H1 : listening announcing 0 (example_request false 1)) by (split; reflexivity).
  assert (H2 : invalid_transaction example_announce_reply_cut [0; 0; 0; 1] = false)
    by reflexivity.
  assert (H3 : readUInt32BE example_announce_reply_cut 0 = common.ACTIONS.ANNOUNCE)
    by reflexivity.
  assert (H4 : (20 <= List.length example_announce_reply_cut)%nat) by (cbn; lia).
  assert (H5 : ((List.length example_announce_reply_cut - 20) mod 6 <> 0)%nat)
    by (cbn; lia).
  pose proof (peer_list_failure_keeps_update (rt := example_runtime) announcing 0
                (example_request false 1) example_announce_reply_cut
                H1 H2 H3 H4 H5) as T.
  cbv zeta in T. destruct T as (_ & _ & To & Te & _).
  assert (Hn : readUInt32BE example_announce_reply_cut 8 <> 0) by discriminate.
  split; [exact H1 |]. split; [exact H2 |]. split; [exact H3 |].
  split; [exact H4 |]. split; [exact H5 |]. split; [exact (Te eq_refl) |].
  destruct (To [update example_url 9 5] [] (Te eq_refl)) as (_ & _ & Ti).
  exact (Ti Hn).
Defined.

(* ================================================================== *)
(** * Further properties of the session *)
(* ================================================================== *)

Section Further.

Context {rt : Runtime}.

(** Induction over a run, through the transitions of [outcome]. *)
Lemma run_outcome_induction :
  forall (P : UDPTracker -> Prop) (Q : Effect -> Prop) (R : Input -> Prop),
  (forall s i out s', wf s -> P s -> R i -> outcome s i out s' ->
                      P s' /\ Forall Q out) ->
  forall ins s, wf s -> P s -> Forall R ins ->
  P (fst (run ins s)) /\ Forall Q (snd (run ins s)).
Proof.
  intros P Q R Hstep. induction ins as [| i ins IH]; intros s W HP HR.
  - cbn. split; [exact HP | constructor].
  - rewrite run_cons. cbn [fst snd]. inversion HR as [| ? ? Hi Hins]; subst.
    destruct (Hstep s i _ _ W HP Hi (step_outcome s i W)) as [HP' HQ].
    destruct (IH (fst (step i s)) (step_wf s i W) HP' Hins) as [HP2 HQ2].
    split; [exact HP2 |]. apply Forall_app. now split.
Qed.

Lemma silent_emitted : forall out, Forall silent out -> emitted out = [].
Proof.
  induction out as [| e out IH]; intros H; [reflexivity |].
  inversion H as [| ? ? He Hout]; subst. destruct e; cbn in *;
    try (now apply IH). destruct He.
Qed.

Lemma Forall_completion : forall (Q : Effect -> Prop) s rid,
  (forall cb, Q (Callback cb)) -> Forall Q (completion s rid).
Proof.
  intros Q s rid HQ. unfold completion. destruct (maybeDestroyCleanup s); [| constructor].
  destruct (Nat.eqb _ _); repeat constructor. apply HQ.
Qed.

Lemma Forall_closes : forall (Q : Effect -> Prop) l,
  (forall rid, Q (SocketClose rid)) -> Forall Q (map SocketClose l).
Proof. intros Q l HQ. apply Forall_map. apply Forall_forall. intros; apply HQ. Qed.

(** X1.  A destroyed session stays destroyed: whatever happens afterwards,
    no request is created, and everything that is still sent is sent by a
    request that existed already. *)
Theorem destroyed_is_final : forall self ins,
  reachable self -> destroyed self = true ->
  destroyed (fst (run ins self)) = true
  /\ List.length (requests (fst (run ins self))) = List.length (requests self)
  /\ forall rid m p h,
       In (SocketSend rid m p h) (snd (run ins self)) ->
       (rid < List.length (requests self))%nat.
Proof.
  intros self ins R Hd. pose proof (reachable_wf self R) as W.
  set (n := List.length (requests self)).
  destruct (run_outcome_induction
              (fun s => destroyed s = true /\ List.length (requests s) = n)
              (fun e => forall rid m p h, e = SocketSend rid m p h -> (rid < n)%nat)
              (fun _ => True)) with (ins := ins) (s := self) as [[Hd' Hn] HQ]; auto.
  - clear. intros s i out s' W [Hd Hn] _ O. destruct O.
    + split; [auto | constructor].
    + split; [auto |]. repeat constructor. discriminate.
    + congruence.
    + congruence.
    + split; [auto | constructor].
    + congruence.
    + congruence.
    + split.
      * split; [exact Hd |]. unfold after_followup, update_request, set_requests.
        cbn [requests set_entropy]. now rewrite list_update_length.
      * repeat constructor. intros rid' m' p' h' E. injection E as <- _ _ _.
        rewrite <- Hn. apply nth_error_Some. destruct H as [Hr _]. congruence.
    + split.
      * split; [exact Hd |]. unfold after_thrown, update_request, set_requests.
        cbn [requests set_entropy]. now rewrite list_update_length.
      * repeat constructor. discriminate.
    + split.
      * split; [exact Hd |]. unfold set_interval, after_cleanup. cbn [requests].
        now rewrite list_update_length.
      * constructor; [discriminate |]. apply Forall_app. split.
        -- apply Forall_completion. discriminate.
        -- apply Forall_map. apply Forall_forall. discriminate.
    + split.
      * split; [exact Hd |]. unfold after_destroyCleanup. cbn [requests].
        now rewrite close_all_length.
      * apply Forall_app. split; [apply Forall_closes; discriminate |].
        repeat constructor. discriminate.
  - apply Forall_forall. auto.
  - split; [exact Hd' |]. split; [exact Hn |].
    intros rid m p h Hin. rewrite Forall_forall in HQ. now apply (HQ _ Hin rid m p h).
Qed.

(** X2.  After [destroy] the client hears nothing more from this tracker: no
    warning, update, peer or scrape event is emitted by anything that happens
    on a destroyed session, and no reply of the tracker reschedules the
    periodic timer. *)
Theorem destroyed_is_silent : forall self ins,
  reachable self -> destroyed self = true ->
  emitted (snd (run ins self)) = []
  /\ ((forall ms, ~ In (Call_setInterval ms) ins) ->
      interval (fst (run ins self)) = interval self).
Proof.
  intros self ins R Hd. pose proof (reachable_wf self R) as W.
  assert (Hstep : forall iv s i out s',
             wf s -> destroyed s = true /\ (iv = None \/ iv = Some (interval s)) ->
             (iv <> None -> forall ms, i <> Call_setInterval ms) ->
             outcome s i out s' ->
             (destroyed s' = true /\ (iv = None \/ iv = Some (interval s')))
             /\ Forall silent out).
  { clear. intros iv s i out s' W [Hd Hi] HR O. destruct O.
    - split; [auto | constructor].
    - split; [auto |]. repeat constructor.
    - congruence.
    - congruence.
    - split; [| constructor]. split; [exact Hd |].
      destruct Hi as [-> | ->]; [now left |].
      exfalso. apply (HR ltac:(discriminate) ms). reflexivity.
    - congruence.
    - congruence.
    - split; [auto |]. repeat constructor.
    - split; [auto |]. repeat constructor.
    - destruct (H1 Hd) as [-> ->]. split; [auto |].
      constructor; [exact I |]. apply Forall_app. split; [| constructor].
      apply Forall_completion. intros; exact I.
    - split; [auto |]. apply Forall_app. split.
      + apply Forall_closes. intros; exact I.
      + repeat constructor. }
  split.
  - destruct (run_outcome_induction
                (fun s => destroyed s = true /\ (@None (option Z) = None \/ None = Some (interval s)))
                silent (fun i => (@None (option Z) <> None -> forall ms, i <> Call_setInterval ms)))
      with (ins := ins) (s := self) as [_ HQ]; auto.
    + intros s i out s' W' HP HR O. exact (Hstep None s i out s' W' HP HR O).
    + apply Forall_forall. intros i _ Hc. now exfalso.
    + now apply silent_emitted.
  - intros Hno.
    destruct (run_outcome_induction
                (fun s => destroyed s = true
                          /\ (Some (interval self) = None
                              \/ Some (interval self) = Some (interval s)))
                silent
                (fun i => (Some (interval self) <> None -> forall ms, i <> Call_setInterval ms)))
      with (ins := ins) (s := self) as [[_ Hi] _]; auto.
    + intros s i out s' W' HP HR O.
      exact (Hstep (Some (interval self)) s i out s' W' HP HR O).
    + apply Forall_forall. intros i Hin _ ms ->. now apply (Hno ms).
    + destruct Hi as [Hi | Hi]; [discriminate | now injection Hi as <-].
Qed.

(** X3.  The bookkeeping of every session the operations can produce: the
    active set [cleanupFns] holds each request whose socket is open exactly
    once and nothing else; a request whose timeout is armed has its socket
    open; and while the session is not destroyed there is neither a shutdown
    watcher nor a grace timer. *)
Theorem active_set_is_open_sockets : forall self,
  reachable self ->
  NoDup (cleanupFns self)
  /\ (forall rid,
        In rid (cleanupFns self)
        <-> exists r, nth_error (requests self) rid = Some r /\ socket r = true)
  /\ (forall rid r,
        nth_error (requests self) rid = Some r -> timeout r = true -> socket r = true)
  /\ (destroyed self = false ->
      maybeDestroyCleanup self = None /\ destroyTimeout self = None).
Proof.
  intros self R. pose proof (reachable_wf self R) as W.
  split; [apply W |]. split; [apply (wf_active self W) |].
  split; [apply (wf_timeout self W) |]. now apply wf_not_destroyed.
Qed.

(** X4.  [cleanup] is idempotent: on every session the operations can
    produce, a second call of the cleanup function of any request changes
    nothing and has no effect. *)
Theorem cleanup_idempotent : forall self rid,
  reachable self ->
  cleanup rid (fst (cleanup rid self)) = (fst (cleanup rid self), []).
Proof.
  intros self rid R. pose proof (reachable_wf self R) as W.
  assert (Hm : maybeDestroyCleanup self = None \/ cleanupFns self <> []).
  { destruct (maybeDestroyCleanup self) as [cb |] eqn:E; [| now left].
    right. now destruct (wf_watcher self W cb E) as (_ & Hne & _). }
  destruct (nth_error (requests self) rid) as [r |] eqn:Hr.
  - destruct (socket r) eqn:Hs.
    + rewrite (cleanup_listening self rid r (conj Hr Hs)). cbn [fst].
      now apply (cleanup_twice self rid r).
    + assert (Ht : timeout r = false).
      { destruct (timeout r) eqn:Ht; [| reflexivity].
        rewrite (wf_timeout self W rid r Hr Ht) in Hs. discriminate. }
      rewrite (cleanup_idle self rid r Hr Ht Hs Hm). cbn [fst].
      now apply (cleanup_idle self rid r).
  - rewrite (cleanup_missing self rid Hr Hm). cbn [fst].
    now apply cleanup_missing.
Qed.

(** X5.  A request that was cleaned up is deaf: a late reply, a late socket
    error or a late timeout addressed to it changes nothing and has no
    effect. *)
Theorem late_inputs_dropped : forall self rid i,
  reachable self -> idle self rid -> target i = Some rid ->
  step i self = (self, []).
Proof.
  intros self rid i R (r & Hr & Hs) Ht. pose proof (reachable_wf self R) as W.
  assert (Hto : timeout r = false).
  { destruct (timeout r) eqn:E; [| reflexivity].
    rewrite (wf_timeout self W rid r Hr E) in Hs. discriminate. }
  destruct i; cbn in Ht; try discriminate; injection Ht as ->;
    cbn [step]; unfold withRequest; rewrite Hr.
  - now rewrite Hto.
  - now rewrite Hs.
  - now rewrite Hs.
Qed.

(** X6.  Requests are independent: an input that is neither addressed to a
    request nor the grace timer of [destroy] does not close its socket, and
    leaves its closure variables as they are, with one exception: a [scrape]
    call made with the options object of the request sets [_scrape] in that
    object, so the request reads the flag as set from then on.  In
    particular [destroy] itself does not abort a pending request. *)
Theorem requests_are_independent : forall self rid r i,
  reachable self -> listening self rid r ->
  target i <> Some rid -> i <> Destroy_timeout ->
  listening (fst (step i self)) rid
    (if writes_into self i r then with_opts (set_scrape (opts r)) r else r)
  /\ closes rid (snd (step i self)) = O.
Proof.
  intros self rid r i R L Ht Hi. pose proof (reachable_wf self R) as W.
  pose proof (step_outcome self i W) as O.
  destruct L as [Hr Hs].
  assert (Hlt : (rid < List.length (requests self))%nat).
  { apply nth_error_Some. congruence. }
  destruct O.
  - replace (writes_into self i r) with false; [now split |].
    destruct i; try reflexivity. cbn in H |- *. now rewrite H.
  - now split.
  - now split.
  - now split.
  - now split.
  - split; [| reflexivity]. split; [| exact Hs].
    unfold after_request. cbn [requests]. now rewrite nth_error_app1.
  - split; [| reflexivity]. cbn [writes_into]. rewrite H. cbn [negb andb].
    split.
    + unfold after_request. cbn [requests].
      rewrite nth_error_app1 by now rewrite write_scrape_length.
      rewrite nth_error_write_scrape, Hr. reflexivity.
    + now destruct (Nat.eqb _ _).
  - assert (Hne : rid0 <> rid) by (intros ->; now apply Ht).
    split; [| reflexivity]. split; [| exact Hs].
    unfold after_followup, update_request, set_requests, set_entropy.
    cbn [requests]. now rewrite nth_error_list_update_neq.
  - assert (Hne : rid0 <> rid) by (intros ->; now apply Ht).
    split; [| reflexivity]. split; [| exact Hs].
    unfold after_thrown, update_request, set_requests, set_entropy.
    cbn [requests]. now rewrite nth_error_list_update_neq.
  - assert (Hne : rid0 <> rid) by (intros ->; now apply Ht).
    replace (writes_into self i r) with false
      by (destruct i; try reflexivity; discriminate).
    split.
    + split; [| exact Hs]. unfold set_interval, after_cleanup. cbn [requests].
      now rewrite nth_error_list_update_neq.
    + unfold closes. cbn [filter].
      destruct (Nat.eqb_spec rid0 rid) as [E | _]; [contradiction |].
      rewrite filter_app.
      assert (E1 : forall l, Forall (fun e => match e with SocketClose _ => False | _ => True end) l ->
                   filter (fun e => match e with SocketClose x => Nat.eqb x rid | _ => false end) l = []).
      { induction l as [| e l IH]; intros F; [reflexivity |].
        inversion F; subst. destruct e; cbn; auto. contradiction. }
      rewrite (E1 (completion self rid0)), (E1 (map Emit evs)); [reflexivity | |].
      * apply Forall_map. apply Forall_forall. intros; exact I.
      * apply Forall_completion. intros; exact I.
  - now exfalso.
Qed.

Lemma closes_app : forall rid a b, closes rid (a ++ b) = (closes rid a + closes rid b)%nat.
Proof. intros. unfold closes. now rewrite filter_app, length_app. Qed.

Lemma closes_none : forall rid l,
  Forall (fun e => match e with SocketClose _ => False | _ => True end) l ->
  closes rid l = O.
Proof.
  intros rid. induction l as [| e l IH]; intros F; [reflexivity |].
  inversion F as [| ? ? He Hl]; subst. unfold closes in *.
  destruct e; cbn; auto. destruct He.
Qed.

Lemma closes_completion : forall rid s x, closes rid (completion s x) = O.
Proof. intros. apply closes_none. apply Forall_completion. intros; exact I. Qed.

Lemma closes_emits : forall rid evs, closes rid (map Emit evs) = O.
Proof.
  intros. apply closes_none. apply Forall_map. apply Forall_forall. intros; exact I.
Qed.

Lemma closes_map_absent : forall rid l,
  ~ In rid l -> closes rid (map SocketClose l) = O.
Proof.
  intros rid. induction l as [| x l IH]; intros Hn; [reflexivity |].
  unfold closes in *. cbn.
  destruct (Nat.eqb_spec x rid) as [-> | _].
  - exfalso. apply Hn. now left.
  - apply IH. intros Hin. apply Hn. now right.
Qed.

Lemma closes_map_nodup : forall rid l,
  NoDup l -> (closes rid (map SocketClose l) <= 1)%nat.
Proof.
  intros rid. induction l as [| x l IH]; intros Hnd; [cbn; lia |].
  inversion Hnd as [| ? ? Hx Hl]; subst.
  destruct (Nat.eq_dec x rid) as [-> | Hne].
  - change (map SocketClose (rid :: l)) with ([SocketClose rid] ++ map SocketClose l).
    rewrite closes_app, (closes_map_absent rid l Hx).
    unfold closes. cbn. rewrite Nat.eqb_refl. cbn. lia.
  - change (map SocketClose (x :: l)) with ([SocketClose x] ++ map SocketClose l).
    rewrite closes_app. specialize (IH Hl).
    unfold closes at 1. cbn.
    destruct (Nat.eqb_spec x rid); [contradiction |]. cbn. lia.
Qed.

(** One transition closes the socket of a request at most once, leaves the
    request idle when it does, and never closes the socket of an idle
    request. *)
Lemma outcome_closes : forall s i out s' rid,
  wf s -> outcome s i out s' ->
  (closes rid out <= 1)%nat
  /\ (closes rid out = 1%nat -> idle s' rid)
  /\ (idle s rid -> closes rid out = O).
Proof.
  intros s i out s' rid W O.
  destruct O; try (cbn; repeat split; (lia || discriminate || reflexivity)).
  - change (SocketClose rid0 :: completion s rid0 ++ map Emit evs)
      with ([SocketClose rid0] ++ completion s rid0 ++ map Emit evs).
    rewrite !closes_app, closes_completion, closes_emits.
    unfold closes. cbn [filter].
    destruct (Nat.eqb_spec rid0 rid) as [-> | Hne]; cbn [List.length].
    + split; [lia |]. split.
      * intros _. apply cleaned_up_idle.
        destruct (cleaned_up_after_cleanup s rid r W H0) as [Hc Hn].
        split; [exact Hc | exact Hn].
      * intros (r' & Hr' & Hs'). destruct H0 as [Hr Hs]. congruence.
    + split; [lia |]. split; [discriminate | reflexivity].
  - rewrite closes_app.
    replace (closes rid [Callback cb]) with O by reflexivity.
    rewrite Nat.add_0_r.
    split; [apply closes_map_nodup; apply W |]. split.
    + intros Hc.
      destruct (in_dec Nat.eq_dec rid (cleanupFns s)) as [Hin | Hout].
      * apply (wf_active s W) in Hin. destruct Hin as (r & Hr & Hs).
        unfold idle, after_destroyCleanup. cbn [requests].
        assert (Hlen : (rid < List.length (close_all (cleanupFns s) (requests s)))%nat).
        { rewrite close_all_length. apply nth_error_Some. congruence. }
        apply nth_error_Some in Hlen.
        destruct (nth_error (close_all (cleanupFns s) (requests s)) rid) as [r' |] eqn:E;
          [| contradiction].
        exists r'. split; [reflexivity |].
        apply (close_all_closes (cleanupFns s) (requests s) rid r'); auto.
        apply (wf_active s W). now exists r.
      * rewrite (closes_map_absent rid _ Hout) in Hc. discriminate.
    + intros (r & Hr & Hs). apply closes_map_absent. intros Hin.
      apply (wf_active s W) in Hin. destruct Hin as (r' & Hr' & Hs'). congruence.
Qed.

Lemma run_closes : forall ins s rid,
  wf s ->
  (closes rid (snd (run ins s)) <= 1)%nat
  /\ (idle s rid -> closes rid (snd (run ins s)) = O).
Proof.
  induction ins as [| i ins IH]; intros s rid W.
  - cbn. split; [lia | reflexivity].
  - rewrite run_cons. cbn [snd]. rewrite closes_app.
    pose proof (step_outcome s i W) as O.
    destruct (outcome_closes s i _ _ rid W O) as (Hle & Hidle & Hzero).
    destruct (IH (fst (step i s)) rid (step_wf s i W)) as [Hle2 Hzero2].
    split.
    + destruct (Nat.eq_dec (closes rid (snd (step i s))) 1) as [E | E].
      * rewrite (Hzero2 (Hidle E)). lia.
      * lia.
    + intros Hi. rewrite (Hzero Hi).
      destruct (outcome_idle s i _ _ rid O Hi) as [Hi' _].
      now rewrite (Hzero2 Hi').
Qed.

(** X7.  No socket is closed twice: over everything that happens to a
    session, [socket.close()] runs at most once for each request, and never
    again for a request that was cleaned up. *)
Theorem socket_closed_at_most_once : forall self ins rid,
  reachable self ->
  (closes rid (snd (run ins self)) <= 1)%nat
  /\ (idle self rid -> closes rid (snd (run ins self)) = O).
Proof. intros self ins rid R. apply run_closes. now apply reachable_wf. Qed.

(** X8.  The transaction check compares bytes: for a datagram and a 4-byte
    transaction id made of octets, the top-level test of [onSocketMessage]
    passes exactly when the datagram has at least 8 bytes and its bytes 4 to
    7 are the transaction id. *)
Theorem transaction_check_compares_bytes : forall msg tid,
  Forall is_byte msg -> Forall is_byte tid -> List.length tid = 4%nat ->
  (invalid_transaction msg tid = false
   <-> (8 <= List.length msg)%nat /\ slice msg 4 8 = tid).
Proof.
  intros msg tid Hm Ht Hl.
  destruct tid as [| t0 [| t1 [| t2 [| t3 [| ? ?]]]]]; try discriminate.
  destruct msg as [| m0 [| m1 [| m2 [| m3 [| m4 [| m5 [| m6 [| m7 rest]]]]]]]];
    try (cbn; split; [discriminate | intros [H _]; lia]).
  unfold invalid_transaction, readUInt32BE, slice.
  cbn [List.length Nat.ltb Nat.leb orb nth Nat.add firstn skipn Nat.sub].
  repeat (match goal with H : Forall _ (_ :: _) |- _ => inversion H; clear H; subst end).
  unfold is_byte in *.
  rewrite negb_false_iff, Z.eqb_eq.
  change (2 ^ 24) with 16777216. change (2 ^ 16) with 65536. change (2 ^ 8) with 256.
  split.
  - intros E. split; [lia |].
    assert (m4 = t0 /\ m5 = t1 /\ m6 = t2 /\ m7 = t3) as (-> & -> & -> & ->) by lia.
    reflexivity.
  - intros [_ E]. injection E as -> -> -> ->. reflexivity.
Qed.

(** X9.  A reply with a matching transaction id and an action code other
    than 0, 1, 2 and 3 ends the request: it is cleaned up, nothing is sent,
    and one warning 'tracker sent invalid action (<announce URL>)' is
    emitted unless the session is destroyed. *)
Theorem unknown_action_rejected : forall self rid r msg,
  reachable self -> listening self rid r ->
  invalid_transaction msg (transactionId r) = false ->
  readUInt32BE msg 0 <> 0 -> readUInt32BE msg 0 <> 1 ->
  readUInt32BE msg 0 <> 2 -> readUInt32BE msg 0 <> 3 ->
  let res := step (Socket_message rid msg) self in
  emitted (snd res)
  = (if destroyed self then []
     else [warning ("tracker sent invalid action (" ++ announceUrl self ++ ")")])
  /\ cleaned_up (fst res) rid
  /\ sent (snd res) = [].
Proof.
  intros self rid r msg R H Hi H0 H1 H2 H3 res. subst res.
  pose proof (reachable_wf self R) as W.
  rewrite (step_message_listening self rid r msg H).
  rewrite (onSocketMessage_valid self rid r msg H Hi). cbv zeta.
  apply Z.eqb_neq in H0, H1, H2, H3. rewrite H0, H1, H2, H3.
  rewrite (onError_listening self rid r _ H). cbn [fst snd].
  split; [| split].
  - rewrite emitted_cleanup_prefix, emitted_error_warning.
    destruct (destroyed self); reflexivity.
  - now apply (cleaned_up_after_cleanup self rid r).
  - now rewrite sent_cleanup_prefix, sent_error_warning.
Qed.

(** X10.  An error of the socket ends the request: it is cleaned up and the
    error is passed on as one warning, its message followed by the announce
    URL in brackets (an empty message is left empty), unless the session is
    destroyed; a further error of the same socket is swallowed. *)
Theorem socket_error_reported : forall self rid r message,
  reachable self -> listening self rid r ->
  let res := step (Socket_error rid message) self in
  emitted (snd res)
  = (if destroyed self then []
     else [warning (if String.eqb message "" then message
                    else (message ++ " (" ++ announceUrl self ++ ")")%string)])
  /\ cleaned_up (fst res) rid
  /\ closes rid (snd res) = 1%nat
  /\ forall message', step (Socket_error rid message') (fst res) = (fst res, []).
Proof.
  intros self rid r message R H res. subst res.
  pose proof (reachable_wf self R) as W.
  assert (E : step (Socket_error rid message) self = onError rid message self).
  { cbn [step]. unfold withRequest. destruct H as [Hr Hs]. now rewrite Hr, Hs. }
  rewrite E, (onError_listening self rid r _ H). cbn [fst snd].
  pose proof (cleaned_up_after_cleanup self rid r W H) as Hc.
  split; [| split; [exact Hc | split]].
  - rewrite emitted_cleanup_prefix, emitted_error_warning. reflexivity.
  - change (SocketClose rid :: completion self rid ++ error_warning self message)
      with ([SocketClose rid] ++ completion self rid ++ error_warning self message).
    rewrite !closes_app, closes_completion.
    rewrite error_warning_map, closes_emits.
    unfold closes. cbn. now rewrite Nat.eqb_refl.
  - intros message'. destruct Hc as [(r' & Hr' & _ & Hs') _].
    cbn [step]. unfold withRequest. now rewrite Hr', Hs'.
Qed.

Lemma chunks6_nth : forall n buf i,
  (i < n)%nat -> nth_error (chunks6 n buf) i = Some (firstn 6 (skipn (6 * i) buf)).
Proof.
  induction n as [| n IH]; intros buf i Hi; [lia |].
  destruct i as [| i]; [reflexivity |].
  cbn [chunks6 nth_error]. rewrite IH by lia. rewrite skipn_skipn.
  do 3 f_equal. lia.
Qed.

Lemma chunks6_length : forall n buf, List.length (chunks6 n buf) = n.
Proof. induction n; intros; cbn; [reflexivity | now rewrite IHn]. Qed.

(** X11.  An announce reply of 20 bytes or more whose peer list is a whole
    number of 6-byte units, on a session that is not destroyed: the events
    are the update followed by one peer event per unit, in the order of the
    reply, the i-th decoded from bytes 20 + 6 i to 25 + 6 i; a reply of
    exactly 20 bytes yields the update alone. *)
Theorem announce_reply_peers : forall self rid r msg,
  listening self rid r ->
  invalid_transaction msg (transactionId r) = false ->
  readUInt32BE msg 0 = common.ACTIONS.ANNOUNCE ->
  destroyed self = false ->
  (20 <= List.length msg)%nat ->
  ((List.length msg - 20) mod 6 = 0)%nat ->
  let evs := emitted (snd (step (Socket_message rid msg) self)) in
  let n := ((List.length msg - 20) / 6)%nat in
  List.length evs = S n
  /\ nth_error evs 0
     = Some (update (announceUrl self) (readUInt32BE msg 16) (readUInt32BE msg 12))
  /\ (forall i, (i < n)%nat ->
        nth_error evs (S i)
        = Some (peer (compact2string (slice msg (20 + 6 * i) (26 + 6 * i)))))
  /\ (List.length msg = 20%nat ->
      evs = [update (announceUrl self) (readUInt32BE msg 16) (readUInt32BE msg 12)]).
Proof.
  intros self rid r msg H Hi Ha Hd Hl Hm evs n. subst evs n.
  rewrite (announce_branch self rid r msg H Hi Ha).
  rewrite (onAnnounceReply_ok self rid r msg H Hd Hl). cbn [snd].
  rewrite emitted_cleanup_prefix.
  assert (Hc : compact2string_multi (slice_from msg 20)
               = inr (map compact2string
                        (chunks6 ((List.length msg - 20) / 6) (skipn 20 msg)))).
  { unfold compact2string_multi, slice_from. rewrite length_skipn, Hm. reflexivity. }
  rewrite Hc. cbn [emitted flat_map app].
  fold (emitted (map (fun a => Emit (peer a))
                   (map compact2string
                      (chunks6 ((List.length msg - 20) / 6) (skipn 20 msg))))).
  rewrite (emitted_map peer).
  split; [| split; [| split]].
  - cbn [List.length]. now rewrite !length_map, chunks6_length.
  - reflexivity.
  - intros i Hlt. cbn [nth_error]. rewrite !nth_error_map, chunks6_nth by assumption.
    cbn [option_map]. unfold slice. rewrite skipn_skipn.
    replace (26 + 6 * i - (20 + 6 * i))%nat with 6%nat by lia.
    replace (6 * i + 20)%nat with (20 + 6 * i)%nat by lia. reflexivity.
  - intros E. rewrite E. reflexivity.
Qed.

Lemma followup_listening : forall self rid r tid,
  listening self rid r ->
  listening (after_followup rid tid self) rid (ensure_port (with_transactionId tid r))
  /\ transactionId (ensure_port (with_transactionId tid r)) = tid
  /\ timeout (ensure_port (with_transactionId tid r)) = timeout r
  /\ opts (ensure_port (with_transactionId tid r)) = opts r.
Proof.
  intros self rid r tid [Hr Hs]. unfold ensure_port. cbn [parsedUrl with_transactionId].
  split; [split |].
  - unfold after_followup, update_request, set_requests, set_entropy. cbn [requests].
    rewrite (nth_error_list_update_eq _ _ _ _ Hr). unfold ensure_port.
    reflexivity.
  - destruct (port (parsedUrl r)); exact Hs.
  - destruct (port (parsedUrl r)); repeat split; reflexivity.
Qed.

Lemma thrown_listening : forall self rid r tid,
  listening self rid r ->
  listening (after_thrown rid tid self) rid (with_transactionId tid r).
Proof.
  intros self rid r tid [Hr Hs]. split; [| exact Hs].
  unfold after_thrown, update_request, set_requests, set_entropy. cbn [requests].
  now apply nth_error_list_update_eq.
Qed.

(** X12.  A connect reply of 16 bytes or more with the request's transaction
    id makes an announce request send exactly one message and nothing else:
    the connection id of the reply (its bytes 8 to 15), action 1, a fresh
    transaction id, info-hash, peer id, downloaded, left, uploaded, event,
    ip 0, key 0, numwant and port, 98 bytes for 20-byte identities.  The
    fields are taken in the range of their encoders, where the 64-bit fields
    are 8 bytes big-endian (left is eight 0xFF octets when it is not given)
    and the port 2 bytes.  The request keeps listening, now for the fresh
    transaction id, with its timeout as it was. *)
Theorem handshake_sends_announce : forall self rid r msg,
  listening self rid r ->
  invalid_transaction msg (transactionId r) = false ->
  readUInt32BE msg 0 = common.ACTIONS.CONNECT ->
  (16 <= List.length msg)%nat ->
  _scrape (opts r) = false ->
  announce_encodable (client self) (opts r) ->
  let res := step (Socket_message rid msg) self in
  let tid := randombytes4 (entropy self) in
  let c := client self in
  let o := opts r in
  let left :=
    match opts_left o with
    | Some l => be_bytes 8 (numeric_value l)
    | None => repeat 255 8
    end in
  let request :=
    slice msg 8 16 ++ common.toUInt32 1 ++ tid
    ++ _infoHashBuffer c ++ _peerIdBuffer c
    ++ be_bytes 8 (numeric_value (downloaded o)) ++ left
    ++ be_bytes 8 (numeric_value (uploaded o))
    ++ common.toUInt32 (common.EVENTS_or_0 (event o))
    ++ common.toUInt32 0 ++ common.toUInt32 0
    ++ common.toUInt32 (numwant o) ++ be_bytes 2 (_port c) in
  snd res = [SocketSend rid request (port_or_80 r) (hostname (parsedUrl r))]
  /\ (exists r', listening (fst res) rid r' /\ transactionId r' = tid
                 /\ timeout r' = timeout r /\ opts r' = opts r)
  /\ cleanupFns (fst res) = cleanupFns self
  /\ (List.length (_infoHashBuffer c) = 20%nat ->
      List.length (_peerIdBuffer c) = 20%nat ->
      List.length request = 98%nat).
Proof.
  intros self rid r msg H Hi Ha Hl Hsc Henc res tid c o left request.
  subst res request.
  rewrite (step_message_listening self rid r msg H).
  rewrite (onSocketMessage_valid self rid r msg H Hi). cbv zeta.
  rewrite Ha. change (common.ACTIONS.CONNECT =? 0) with true. cbv iota.
  pose proof Hl as Hl'. apply Nat.ltb_ge in Hl'. rewrite Hl', Hsc.
  rewrite (announce_spec self rid r _ _ (proj1 H)).
  rewrite (announce_fields_encodable _ _ _ _ Henc). cbn [fst snd].
  fold tid. fold c. fold o. fold left.
  split; [| split; [| split]].
  - cbn [List.concat]. rewrite app_nil_r. reflexivity.
  - destruct (followup_listening self rid r tid H) as (L & E1 & E2 & E3).
    now exists (ensure_port (with_transactionId tid r)).
  - reflexivity.
  - intros Hih Hpid.
    assert (Hlf : List.length left = 8%nat).
    { subst left. destruct (opts_left o); [apply be_bytes_length | reflexivity]. }
    rewrite !length_app, (slice_connection_id msg Hl), Hih, Hpid, Hlf.
    unfold common.toUInt32. rewrite !be_bytes_length.
    subst tid. now rewrite randombytes4_length.
Qed.

Lemma concat_length_20 : forall l : list Buffer,
  Forall (fun h => List.length h = 20%nat) l ->
  List.length (List.concat l) = (20 * List.length l)%nat.
Proof.
  induction l as [| h l IH]; intros F; [reflexivity |].
  inversion F as [| ? ? Hh Hl]; subst.
  cbn [List.concat List.length]. rewrite length_app, Hh, (IH Hl). lia.
Qed.

(** X13.  A connect reply of 16 bytes or more with the request's transaction
    id makes a scrape request send exactly one message and nothing else: the
    connection id of the reply, action 2, a fresh transaction id and the
    hashes, with no count.  The hashes are those of a non-empty array in
    order, else the buffer given, else the client's info-hash; N hashes of 20
    bytes give a message of 16 + 20 N bytes.  With an empty array of hashes
    nothing is sent: building the message throws, and the exception leaves
    the handler.  In every case the request keeps listening, now for the
    fresh transaction id. *)
Theorem handshake_sends_scrape : forall self rid r msg,
  listening self rid r ->
  invalid_transaction msg (transactionId r) = false ->
  readUInt32BE msg 0 = common.ACTIONS.CONNECT ->
  (16 <= List.length msg)%nat ->
  _scrape (opts r) = true ->
  let res := step (Socket_message rid msg) self in
  let tid := randombytes4 (entropy self) in
  let request hashes := slice msg 8 16 ++ common.toUInt32 2 ++ tid ++ hashes in
  let sends hashes :=
    snd res = [SocketSend rid (request hashes) (port_or_80 r) (hostname (parsedUrl r))] in
  (exists r', listening (fst res) rid r' /\ transactionId r' = tid
              /\ timeout r' = timeout r /\ opts r' = opts r)
  /\ (forall h t, opts_infoHash (opts r) = IH_array (h :: t) ->
        sends (List.concat (h :: t))
        /\ (Forall (fun x => List.length x = 20%nat) (h :: t) ->
            List.length (request (List.concat (h :: t)))
            = (16 + 20 * List.length (h :: t))%nat))
  /\ (forall b, opts_infoHash (opts r) = IH_buffer b -> sends b)
  /\ (opts_infoHash (opts r) = IH_undefined -> sends (_infoHashBuffer (client self)))
  /\ (opts_infoHash (opts r) = IH_array [] -> snd res = [Uncaught]).
Proof.
  intros self rid r msg H Hi Ha Hl Hsc res tid request sends.
  subst res sends request.
  rewrite (step_message_listening self rid r msg H).
  rewrite (onSocketMessage_valid self rid r msg H Hi). cbv zeta.
  rewrite Ha. change (common.ACTIONS.CONNECT =? 0) with true. cbv iota.
  pose proof Hl as Hl'. apply Nat.ltb_ge in Hl'. rewrite Hl', Hsc.
  rewrite (scrape_spec self rid r _ (proj1 H)). fold tid.
  split; [| split; [| split; [| split]]].
  - destruct (scrape_hashes (client self) (opts r)); cbn [fst].
    + destruct (followup_listening self rid r tid H) as (L & E1 & E2 & E3).
      now exists (ensure_port (with_transactionId tid r)).
    + exists (with_transactionId tid r). split; [now apply thrown_listening |].
      repeat split; reflexivity.
  - intros h t E. unfold scrape_hashes. rewrite E. cbn [snd].
    split; [cbn [List.concat]; now rewrite app_nil_r |]. intros F.
    rewrite !length_app, (slice_connection_id msg Hl), (concat_length_20 _ F).
    unfold common.toUInt32. rewrite be_bytes_length.
    subst tid. rewrite randombytes4_length. lia.
  - intros b E. unfold scrape_hashes. rewrite E. cbn [snd List.concat].
    now rewrite app_nil_r.
  - intros E. unfold scrape_hashes. rewrite E. cbn [snd List.concat].
    now rewrite app_nil_r.
  - intros E. unfold scrape_hashes. now rewrite E.
Qed.

(** X14.  Above 2^64 - 1 [toUInt64] does not truncate: for a byte count
    given as a string of decimal digits the result is the big-endian
    representation of the whole number, nine bytes or more, so the field is
    longer than the 8 bytes of the wire format. *)
Theorem toUInt64_does_not_truncate : forall v,
  is_string v = true ->
  2 ^ 64 <= numeric_value v ->
  exists bytes,
    toUInt64 v = Some bytes
    /\ bytes = BN_toArray (numeric_value v)
    /\ (9 <= List.length bytes)%nat
    /\ be_value bytes = numeric_value v.
Proof.
  intros v Hstr Hv. set (n := numeric_value v) in *.
  assert (Hpos : 0 < n) by lia.
  assert (Hlog : 64 <= Z.log2 n).
  { apply Z.log2_le_pow2; lia. }
  assert (Hq : 8 <= Z.log2 n / 8).
  { apply Z.div_le_lower_bound; lia. }
  assert (Hk : BN_byteLength n = Z.to_nat (Z.log2 n / 8 + 1)).
  { unfold BN_byteLength. destruct (Z.leb_spec n 0); [lia | reflexivity]. }
  assert (Hlen : List.length (BN_toArray n) = Z.to_nat (Z.log2 n / 8 + 1)).
  { unfold BN_toArray. rewrite Z.abs_eq by lia. rewrite be_bytes_length, Hk. lia. }
  assert (Hbn : new_BN v = Some n).
  { destruct v; [discriminate | reflexivity]. }
  assert (E : toUInt64 v = Some (BN_toArray n)).
  { unfold toUInt64. fold n. rewrite Hbn.
    destruct (Z.gtb_spec n MAX_UINT) as [_ | Hle]; [| unfold MAX_UINT in Hle; lia].
    cbn [orb unshift_to_8].
    destruct (Nat.ltb_spec (List.length (BN_toArray n)) 8) as [Hlt | _]; [| reflexivity].
    rewrite Hlen in Hlt. lia. }
  exists (BN_toArray n). split; [exact E |]. split; [reflexivity |].
  split; [rewrite Hlen; lia |].
  unfold BN_toArray. rewrite Z.abs_eq by lia. rewrite be_value_be_bytes by lia.
  apply Z.mod_small. split; [lia |].
  rewrite Hk.
  replace (Z.of_nat (Nat.max 1 (Z.to_nat (Z.log2 n / 8 + 1)))) with (Z.log2 n / 8 + 1) by lia.
  change 256 with (2 ^ 8). rewrite <- Z.pow_mul_r by lia.
  apply Z.log2_lt_pow2; [lia |].
  pose proof (Z.mod_pos_bound (Z.log2 n) 8 ltac:(lia)).
  pose proof (Z.div_mod (Z.log2 n) 8 ltac:(lia)). lia.
Qed.

Lemma readUInt32BE_skip : forall pre buf off,
  readUInt32BE (pre ++ buf) (List.length pre + off) = readUInt32BE buf off.
Proof.
  intros. unfold readUInt32BE. rewrite <- !Nat.add_assoc.
  now rewrite !app_nth2_plus.
Qed.

Lemma readUInt32BE_word : forall w rest,
  List.length w = 4%nat -> readUInt32BE (w ++ rest) 0 = readUInt32BE w 0.
Proof.
  intros w rest H.
  destruct w as [| a [| b [| c [| d [| ? ?]]]]]; try discriminate. reflexivity.
Qed.

Lemma readUInt32BE_at : forall pre w rest k,
  List.length pre = k -> List.length w = 4%nat ->
  readUInt32BE (pre ++ w ++ rest) k = readUInt32BE w 0.
Proof.
  intros pre w rest k <- Hw. rewrite <- (Nat.add_0_r (List.length pre)).
  rewrite readUInt32BE_skip. now apply readUInt32BE_word.
Qed.

Lemma readUInt32BE_toUInt32 : forall n,
  0 <= n < 2 ^ 32 -> readUInt32BE (common.toUInt32 n) 0 = n.
Proof.
  intros n Hn.
  assert (E : readUInt32BE (common.toUInt32 n) 0 = be_value (common.toUInt32 n)).
  { unfold common.toUInt32. cbn [be_bytes]. unfold readUInt32BE, be_value.
    cbn [nth Nat.add fold_left].
    change (2 ^ 24) with 16777216. change (2 ^ 16) with 65536. change (2 ^ 8) with 256.
    ring. }
  rewrite E. unfold common.toUInt32. rewrite be_value_be_bytes by lia.
  apply Z.mod_small. change (256 ^ Z.of_nat 4) with (2 ^ 32). lia.
Qed.

(** X15.  A whole announce exchange on a new session: [announce], then a
    connect reply that echoes the first transaction id, then an announce
    reply without peers that echoes the second one.  The effects are, in
    this order and nothing else: the CONNECT message, the announce request
    with the connection id of the tracker, the close of the socket, and one
    update event with the counts of the reply; afterwards no request is
    active and the periodic timer runs at interval * 1000 ms (it is left
    alone for interval 0).  The fields of the announce request are taken in
    the range of their encoders, and the request is spelled out field by
    field. *)
Theorem announce_exchange : forall c url o connectionId iv leechers seeders,
  _scrape o = false ->
  announce_encodable c o ->
  List.length connectionId = 8%nat ->
  0 <= iv < 2 ^ 32 -> 0 <= leechers < 2 ^ 32 -> 0 <= seeders < 2 ^ 32 ->
  let tid0 := randombytes4 0 in
  let tid1 := randombytes4 1 in
  let connect_reply := common.toUInt32 0 ++ tid0 ++ connectionId in
  let announce_reply :=
    common.toUInt32 1 ++ tid1 ++ common.toUInt32 iv
    ++ common.toUInt32 leechers ++ common.toUInt32 seeders in
  let to_port := match port (url_parse url) with Some p => p | None => 80 end in
  let to_host := hostname (url_parse url) in
  let left :=
    match opts_left o with
    | Some l => be_bytes 8 (numeric_value l)
    | None => repeat 255 8
    end in
  let request :=
    connectionId ++ common.toUInt32 1 ++ tid1
    ++ _infoHashBuffer c ++ _peerIdBuffer c
    ++ be_bytes 8 (numeric_value (downloaded o)) ++ left
    ++ be_bytes 8 (numeric_value (uploaded o))
    ++ common.toUInt32 (common.EVENTS_or_0 (event o))
    ++ common.toUInt32 0 ++ common.toUInt32 0
    ++ common.toUInt32 (numwant o) ++ be_bytes 2 (_port c) in
  let res := run [Call_announce o; Socket_message 0 connect_reply;
                  Socket_message 0 announce_reply] (new_UDPTracker c url) in
  snd res
  = [SocketSend 0 (connect_message tid0) to_port to_host;
     SocketSend 0 request to_port to_host;
     SocketClose 0;
     Emit (update url seeders leechers)]
  /\ cleanupFns (fst res) = []
  /\ idle (fst res) 0
  /\ interval (fst res) = (if iv =? 0 then None else Some (iv * 1000)).
Proof.
  intros c url o connectionId iv leechers seeders Hsc Henc Hcid Hiv Hle Hse
         tid0 tid1 connect_reply announce_reply to_port to_host left request res.
  subst res.
  pose proof (randombytes4_length 0) as Ht0. fold tid0 in Ht0.
  pose proof (randombytes4_length 1) as Ht1. fold tid1 in Ht1.
  set (s0 := new_UDPTracker c url).
  (* announce *)
  assert (E1 : step (Call_announce o) s0
               = (after_request (ensure_port (fresh_request o s0)) s0,
                  [SocketSend 0 (connect_message tid0) to_port to_host])).
  { cbn [step]. unfold UDPTracker_announce. cbn [destroyed s0 new_UDPTracker].
    rewrite request_spec. reflexivity. }
  set (r1 := ensure_port (fresh_request o s0)) in *.
  set (s1 := after_request r1 s0) in *.
  assert (Hr1 : transactionId r1 = tid0 /\ opts r1 = o /\ socket r1 = true
                /\ port_or_80 r1 = to_port /\ hostname (parsedUrl r1) = to_host).
  { subst r1 to_port to_host. unfold ensure_port, port_or_80, fresh_request.
    cbn. destruct (port (url_parse url)) eqn:E; cbn; rewrite ?E; repeat split; reflexivity. }
  destruct Hr1 as (Hr1t & Hr1o & Hr1s & Hr1p & Hr1h).
  assert (L1 : listening s1 0 r1) by (split; [reflexivity | exact Hr1s]).
  (* connect reply *)
  assert (Hc4 : readUInt32BE connect_reply 4 = readUInt32BE tid0 0).
  { subst connect_reply. apply readUInt32BE_at; [reflexivity | exact Ht0]. }
  assert (Hc0 : readUInt32BE connect_reply 0 = 0).
  { subst connect_reply. rewrite readUInt32BE_word by reflexivity. reflexivity. }
  assert (Hclen : List.length connect_reply = 16%nat).
  { subst connect_reply. rewrite !length_app, Ht0, Hcid. reflexivity. }
  assert (Hcslice : slice connect_reply 8 16 = connectionId).
  { subst connect_reply. unfold slice. rewrite app_assoc, skipn_exact.
    - rewrite <- (app_nil_r connectionId) at 1.
      rewrite firstn_exact; [reflexivity | exact Hcid].
    - rewrite length_app, Ht0. reflexivity. }
  assert (E2 : step (Socket_message 0 connect_reply) s1
               = (after_followup 0 tid1 s1,
                  [SocketSend 0 request to_port to_host])).
  { rewrite (step_message_listening s1 0 r1 _ L1).
    rewrite (onSocketMessage_valid s1 0 r1 _ L1).
    - cbv zeta. rewrite Hc0. change (0 =? 0) with true. cbv iota.
      rewrite Hclen. change (16 <? 16)%nat with false. cbv iota.
      rewrite Hr1o, Hsc.
      rewrite (announce_spec s1 0 r1 _ _ (proj1 L1)).
      change (client s1) with c.
      rewrite (announce_fields_encodable _ _ _ _ Henc).
      rewrite Hcslice, Hr1p, Hr1h. cbn [List.concat]. rewrite app_nil_r. reflexivity.
    - unfold invalid_transaction. rewrite Hclen, Hr1t, Hc4, Z.eqb_refl. reflexivity. }
  set (s2 := after_followup 0 tid1 s1) in *.
  destruct (followup_listening s1 0 r1 tid1 L1) as (L2 & Hr2t & _ & _).
  fold s2 in L2. set (r2 := ensure_port (with_transactionId tid1 r1)) in *.
  (* announce reply *)
  assert (Ha0 : readUInt32BE announce_reply 0 = common.ACTIONS.ANNOUNCE).
  { subst announce_reply. rewrite readUInt32BE_word by reflexivity. reflexivity. }
  assert (Ha4 : readUInt32BE announce_reply 4 = readUInt32BE tid1 0).
  { subst announce_reply. apply readUInt32BE_at; [reflexivity | exact Ht1]. }
  assert (Halen : List.length announce_reply = 20%nat).
  { subst announce_reply. rewrite !length_app, Ht1. reflexivity. }
  assert (Ha8 : readUInt32BE announce_reply 8 = iv).
  { subst announce_reply. rewrite app_assoc.
    rewrite readUInt32BE_at; [now apply readUInt32BE_toUInt32 | | reflexivity].
    rewrite length_app, Ht1. reflexivity. }
  assert (Ha12 : readUInt32BE announce_reply 12 = leechers).
  { subst announce_reply. rewrite !app_assoc. rewrite <- (app_assoc _ (common.toUInt32 leechers)).
    rewrite readUInt32BE_at; [now apply readUInt32BE_toUInt32 | | reflexivity].
    rewrite !length_app, Ht1. reflexivity. }
  assert (Ha16 : readUInt32BE announce_reply 16 = seeders).
  { subst announce_reply. rewrite !app_assoc.
    rewrite <- (app_nil_r (common.toUInt32 seeders)).
    rewrite readUInt32BE_at; [now apply readUInt32BE_toUInt32 | | reflexivity].
    rewrite !length_app, Ht1. reflexivity. }
  assert (Hv : invalid_transaction announce_reply (transactionId r2) = false).
  { unfold invalid_transaction. rewrite Halen, Hr2t, Ha4, Z.eqb_refl. reflexivity. }
  assert (Htail : compact2string_multi (slice_from announce_reply 20) = inr []).
  { unfold compact2string_multi, slice_from. rewrite length_skipn, Halen. reflexivity. }
  assert (E3 : step (Socket_message 0 announce_reply) s2
               = ((if iv =? 0 then after_cleanup 0 s2
                   else set_interval (Some (iv * 1000)) (after_cleanup 0 s2)),
                  [SocketClose 0; Emit (update url seeders leechers)])).
  { rewrite (announce_branch s2 0 r2 _ L2 Hv Ha0).
    rewrite (onAnnounceReply_ok s2 0 r2 _ L2 eq_refl); [| rewrite Halen; lia].
    rewrite Ha8, Ha12, Ha16, Htail. reflexivity. }
  rewrite !run_cons. cbn [run forEach skip fst snd].
  rewrite E1. cbn [fst snd]. fold s1. rewrite E2. cbn [fst snd]. fold s2.
  rewrite E3. cbn [fst snd app].
  split; [reflexivity |].
  destruct (iv =? 0); cbn.
  - repeat split. exists (closed r2). split; reflexivity.
  - repeat split. exists (closed r2). split; reflexivity.
Qed.

(** X16.  The transaction id changes with the phase: once a connect reply has
    been accepted, the same datagram delivered again no longer matches
    (unless the fresh id happens to equal the old one) and aborts the
    request like any datagram with a wrong id. *)
Theorem stale_transaction_id_rejected : forall self rid r msg,
  listening self rid r ->
  invalid_transaction msg (transactionId r) = false ->
  readUInt32BE msg 0 = common.ACTIONS.CONNECT ->
  (16 <= List.length msg)%nat ->
  readUInt32BE (randombytes4 (entropy self)) 0 <> readUInt32BE (transactionId r) 0 ->
  let accepted := fst (step (Socket_message rid msg) self) in
  let res := step (Socket_message rid msg) accepted in
  emitted (snd res)
  = (if destroyed self then []
     else [warning ("tracker sent invalid transaction id ("
                      ++ announceUrl self ++ ")")])
  /\ idle (fst res) rid
  /\ sent (snd res) = [].
Proof.
  intros self rid r msg H Hi Ha Hl Hne accepted res. subst res accepted.
  set (tid := randombytes4 (entropy self)) in *.
  assert (E : exists s1 r',
             fst (step (Socket_message rid msg) self) = s1
             /\ listening s1 rid r' /\ transactionId r' = tid
             /\ destroyed s1 = destroyed self /\ announceUrl s1 = announceUrl self).
  { rewrite (step_message_listening self rid r msg H).
    rewrite (onSocketMessage_valid self rid r msg H Hi). cbv zeta.
    rewrite Ha. change (common.ACTIONS.CONNECT =? 0) with true. cbv iota.
    pose proof Hl as Hl'. apply Nat.ltb_ge in Hl'. rewrite Hl'.
    destruct (followup_listening self rid r tid H) as (L & Et & _ & _).
    pose proof (thrown_listening self rid r tid H) as L'.
    destruct (_scrape (opts r)).
    - rewrite (scrape_spec self rid r _ (proj1 H)). fold tid.
      destruct (scrape_hashes _ _); eexists _, _; cbn [fst];
        (split; [reflexivity |]); (split; [eassumption |]); repeat split; auto.
    - rewrite (announce_spec self rid r _ _ (proj1 H)). fold tid.
      destruct (announce_fields _ _ _ _); eexists _, _; cbn [fst];
        (split; [reflexivity |]); (split; [eassumption |]); repeat split; auto. }
  destruct E as (s1 & r' & -> & L & Et & Ed & Eu).
  assert (Hbad : invalid_transaction msg (transactionId r') = true).
  { unfold invalid_transaction in *. rewrite Et.
    apply orb_false_iff in Hi. destruct Hi as [Hlen Heq]. rewrite Hlen. cbn [orb].
    apply negb_false_iff, Z.eqb_eq in Heq. rewrite Heq.
    apply negb_true_iff, Z.eqb_neq. congruence. }
  rewrite (step_message_listening _ rid r' msg L).
  rewrite (onSocketMessage_invalid _ rid r' msg L Hbad).
  rewrite (onError_listening _ rid r' _ L). cbn [fst snd].
  split; [| split].
  - rewrite emitted_cleanup_prefix, emitted_error_warning. now rewrite Ed, Eu.
  - exists (closed r'). split; [| reflexivity].
    unfold after_cleanup. cbn [requests]. apply nth_error_list_update_eq. apply L.
  - now rewrite sent_cleanup_prefix, sent_error_warning.
Qed.

(** X17.  A whole scrape exchange on a new session, for the client's own
    info-hash: [scrape], then a connect reply that echoes the first
    transaction id, then a scrape reply with one record that echoes the
    second one.  The effects are, in this order and nothing else: the
    CONNECT message, the scrape request (connection id of the tracker,
    action 2, second transaction id, the client's info-hash), the close of
    the socket, and one scrape event with the client's info-hash and the
    three counts of the record; afterwards no request is active. *)
Theorem scrape_exchange : forall c url o connectionId seeders completed leechers,
  opts_infoHash o = IH_undefined ->
  List.length connectionId = 8%nat ->
  0 <= seeders < 2 ^ 32 -> 0 <= completed < 2 ^ 32 -> 0 <= leechers < 2 ^ 32 ->
  let tid0 := randombytes4 0 in
  let tid1 := randombytes4 1 in
  let connect_reply := common.toUInt32 0 ++ tid0 ++ connectionId in
  let scrape_reply :=
    common.toUInt32 2 ++ tid1 ++ common.toUInt32 seeders
    ++ common.toUInt32 completed ++ common.toUInt32 leechers in
  let to_port := match port (url_parse url) with Some p => p | None => 80 end in
  let to_host := hostname (url_parse url) in
  let res := run [Call_scrape o; Socket_message 0 connect_reply;
                  Socket_message 0 scrape_reply] (new_UDPTracker c url) in
  snd res
  = [SocketSend 0 (connect_message tid0) to_port to_host;
     SocketSend 0 (connectionId ++ common.toUInt32 2 ++ tid1 ++ _infoHashBuffer c)
       to_port to_host;
     SocketClose 0;
     Emit (scrape_event url (Some (infoHash c)) seeders completed leechers)]
  /\ cleanupFns (fst res) = []
  /\ idle (fst res) 0.
Proof.
  intros c url o connectionId seeders completed leechers Hih Hcid Hse Hco Hle
         tid0 tid1 connect_reply scrape_reply to_port to_host res.
  subst res.
  pose proof (randombytes4_length 0) as Ht0. fold tid0 in Ht0.
  pose proof (randombytes4_length 1) as Ht1. fold tid1 in Ht1.
  set (s0 := new_UDPTracker c url).
  assert (E1 : step (Call_scrape o) s0
               = (after_request (ensure_port (fresh_request (set_scrape o) s0)) s0,
                  [SocketSend 0 (connect_message tid0) to_port to_host])).
  { cbn [step]. unfold UDPTracker_scrape. cbn [destroyed s0 new_UDPTracker].
    unfold andThen. cbn [modify].
    change (write_scrape (object_id o) (new_UDPTracker c url)) with s0.
    rewrite request_spec. reflexivity. }
  set (r1 := ensure_port (fresh_request (set_scrape o) s0)) in *.
  set (s1 := after_request r1 s0) in *.
  assert (Hr1 : transactionId r1 = tid0 /\ opts r1 = set_scrape o /\ socket r1 = true
                /\ port_or_80 r1 = to_port /\ hostname (parsedUrl r1) = to_host).
  { subst r1 to_port to_host. unfold ensure_port, port_or_80, fresh_request.
    cbn. destruct (port (url_parse url)) eqn:E; cbn; rewrite ?E; repeat split; reflexivity. }
  destruct Hr1 as (Hr1t & Hr1o & Hr1s & Hr1p & Hr1h).
  assert (L1 : listening s1 0 r1) by (split; [reflexivity | exact Hr1s]).
  assert (Hc4 : readUInt32BE connect_reply 4 = readUInt32BE tid0 0).
  { subst connect_reply. apply readUInt32BE_at; [reflexivity | exact Ht0]. }
  assert (Hc0 : readUInt32BE connect_reply 0 = 0).
  { subst connect_reply. rewrite readUInt32BE_word by reflexivity. reflexivity. }
  assert (Hclen : List.length connect_reply = 16%nat).
  { subst connect_reply. rewrite !length_app, Ht0, Hcid. reflexivity. }
  assert (Hcslice : slice connect_reply 8 16 = connectionId).
  { subst connect_reply. unfold slice. rewrite app_assoc, skipn_exact.
    - rewrite <- (app_nil_r connectionId) at 1.
      rewrite firstn_exact; [reflexivity | exact Hcid].
    - rewrite length_app, Ht0. reflexivity. }
  assert (E2 : step (Socket_message 0 connect_reply) s1
               = (after_followup 0 tid1 s1,
                  [SocketSend 0
                     (connectionId ++ common.toUInt32 2 ++ tid1 ++ _infoHashBuffer c)
                     to_port to_host])).
  { rewrite (step_message_listening s1 0 r1 _ L1).
    rewrite (onSocketMessage_valid s1 0 r1 _ L1).
    - cbv zeta. rewrite Hc0. change (0 =? 0) with true. cbv iota.
      rewrite Hclen. change (16 <? 16)%nat with false. cbv iota.
      rewrite Hr1o. cbn [_scrape set_scrape].
      rewrite (scrape_spec s1 0 r1 _ (proj1 L1)).
      rewrite Hcslice, Hr1p, Hr1h, Hr1o. unfold scrape_hashes.
      cbn [opts_infoHash set_scrape]. rewrite Hih.
      cbn [List.concat]. rewrite app_nil_r. reflexivity.
    - unfold invalid_transaction. rewrite Hclen, Hr1t, Hc4, Z.eqb_refl. reflexivity. }
  set (s2 := after_followup 0 tid1 s1) in *.
  destruct (followup_listening s1 0 r1 tid1 L1) as (L2 & Hr2t & _ & Hr2o).
  fold s2 in L2. set (r2 := ensure_port (with_transactionId tid1 r1)) in *.
  assert (Ha0 : readUInt32BE scrape_reply 0 = common.ACTIONS.SCRAPE).
  { subst scrape_reply. rewrite readUInt32BE_word by reflexivity. reflexivity. }
  assert (Ha4 : readUInt32BE scrape_reply 4 = readUInt32BE tid1 0).
  { subst scrape_reply. apply readUInt32BE_at; [reflexivity | exact Ht1]. }
  assert (Halen : List.length scrape_reply = 20%nat).
  { subst scrape_reply. rewrite !length_app, Ht1. reflexivity. }
  assert (Ha8 : readUInt32BE scrape_reply 8 = seeders).
  { subst scrape_reply. rewrite app_assoc.
    rewrite readUInt32BE_at; [now apply readUInt32BE_toUInt32 | | reflexivity].
    rewrite length_app, Ht1. reflexivity. }
  assert (Ha12 : readUInt32BE scrape_reply 12 = completed).
  { subst scrape_reply. rewrite !app_assoc. rewrite <- (app_assoc _ (common.toUInt32 completed)).
    rewrite readUInt32BE_at; [now apply readUInt32BE_toUInt32 | | reflexivity].
    rewrite !length_app, Ht1. reflexivity. }
  assert (Ha16 : readUInt32BE scrape_reply 16 = leechers).
  { subst scrape_reply. rewrite !app_assoc.
    rewrite <- (app_nil_r (common.toUInt32 leechers)).
    rewrite readUInt32BE_at; [now apply readUInt32BE_toUInt32 | | reflexivity].
    rewrite !length_app, Ht1. reflexivity. }
  assert (Hv : invalid_transaction scrape_reply (transactionId r2) = false).
  { unfold invalid_transaction. rewrite Halen, Hr2t, Ha4, Z.eqb_refl. reflexivity. }
  assert (Hok : invalid_scrape scrape_reply = false).
  { unfold invalid_scrape. rewrite Halen. reflexivity. }
  assert (E3 : step (Socket_message 0 scrape_reply) s2
               = (after_cleanup 0 s2,
                  [SocketClose 0;
                   Emit (scrape_event url (Some (infoHash c)) seeders completed leechers)])).
  { rewrite (scrape_branch s2 0 r2 _ L2 Hv Ha0).
    rewrite (onScrapeReply_ok s2 0 r2 _ _ L2 eq_refl Hok).
    rewrite Halen. cbn [Nat.sub Nat.div Nat.divmod fst seq map].
    unfold scrape_record. rewrite Hr2o, Hr1o. unfold infoHashes.
    cbn [opts_infoHash set_scrape]. rewrite Hih. cbn [nth_error Nat.mul Nat.add].
    rewrite Ha8, Ha12, Ha16. reflexivity. }
  rewrite !run_cons. cbn [run forEach skip fst snd].
  rewrite E1. cbn [fst snd]. fold s1. rewrite E2. cbn [fst snd]. fold s2.
  rewrite E3. cbn [fst snd app].
  split; [reflexivity |]. split; [reflexivity |].
  exists (closed r2). split; reflexivity.
Qed.

End Further.

(* ================================================================== *)
(** * The further properties at concrete sessions *)
(* ================================================================== *)

Lemma reachable_timed_out : reachable (rt := example_runtime) timed_out.
Proof.
  exists example_client, example_url, [Call_announce example_opts; Request_timeout 0].
  reflexivity.
Qed.

Lemma reachable_scrape_connecting : reachable (rt := example_runtime) scrape_connecting.
Proof.
  exists example_client, example_url, [Call_scrape example_opts]. reflexivity.
Qed.

Lemma example_connect_reply_bytes : Forall is_byte example_connect_reply.
Proof. repeat constructor; unfold is_byte; lia. Qed.

(** X1: [announce] on the destroyed session creates no request. *)
Lemma destroyed_is_final_witness :
  reachable (rt := example_runtime) connecting_destroyed
  /\ destroyed connecting_destroyed = true
  /\ List.length
       (requests (fst (run (rt := example_runtime) [Call_announce example_opts]
                         connecting_destroyed))) = 1%nat.
Proof.
  assert (H1 : destroyed connecting_destroyed = true) by reflexivity.
  destruct (destroyed_is_final (rt := example_runtime) connecting_destroyed
              [Call_announce example_opts] reachable_connecting_destroyed H1)
    as (_ & Tn & _).
  split; [exact reachable_connecting_destroyed |]. split; [exact H1 | exact Tn].
Defined.

(** X2: a bad datagram on the destroyed session emits nothing. *)
Lemma destroyed_is_silent_witness :
  reachable (rt := example_runtime) connecting_destroyed
  /\ destroyed connecting_destroyed = true
  /\ emitted (snd (run (rt := example_runtime) [Socket_message 0 [0; 0; 0]]
                     connecting_destroyed)) = [].
Proof.
  assert (H1 : destroyed connecting_destroyed = true) by reflexivity.
  destruct (destroyed_is_silent (rt := example_runtime) connecting_destroyed
              [Socket_message 0 [0; 0; 0]] reachable_connecting_destroyed H1)
    as (Te & _).
  split; [exact reachable_connecting_destroyed |]. split; [exact H1 | exact Te].
Defined.

(** X3 *)
Lemma active_set_is_open_sockets_witness :
  reachable (rt := example_runtime) announcing /\ NoDup (cleanupFns announcing).
Proof.
  destruct (active_set_is_open_sockets (rt := example_runtime) announcing
              reachable_announcing) as (Tn & _).
  split; [exact reachable_announcing | exact Tn].
Defined.

(** X4 *)
Lemma cleanup_idempotent_witness :
  reachable (rt := example_runtime) connecting
  /\ cleanup 0 (fst (cleanup 0 connecting)) = (fst (cleanup 0 connecting), []).
Proof.
  split; [exact reachable_connecting |].
  exact (cleanup_idempotent (rt := example_runtime) connecting 0 reachable_connecting).
Defined.

(** X5: a connect reply that arrives after the timeout is dropped. *)
Lemma late_inputs_dropped_witness :
  reachable (rt := example_runtime) timed_out
  /\ idle timed_out 0
  /\ target (Socket_message 0 example_connect_reply) = Some 0%nat
  /\ step (rt := example_runtime) (Socket_message 0 example_connect_reply) timed_out
     = (timed_out, []).
Proof.
  assert (H1 : idle timed_out 0).
  { exists (closed (example_request false 0)). split; reflexivity. }
  split; [exact reachable_timed_out |]. split; [exact H1 |]. split; [reflexivity |].
  exact (late_inputs_dropped (rt := example_runtime) timed_out 0
           (Socket_message 0 example_connect_reply) reachable_timed_out H1 eq_refl).
Defined.

(** X6: a [scrape] called with the options object of a pending announce
    request leaves its transaction id, timer and socket alone, and sets
    [_scrape] in the options it reads. *)
Lemma requests_are_independent_witness :
  reachable (rt := example_runtime) connecting
  /\ listening connecting 0 (example_request false 0)
  /\ target (Call_scrape example_opts) <> Some 0%nat
  /\ Call_scrape example_opts <> Destroy_timeout
  /\ listening (fst (step (rt := example_runtime) (Call_scrape example_opts) connecting))
       0 (example_request true 0)
  /\ listening (fst (step (rt := example_runtime) (Call_scrape example_two_hashes)
                       connecting))
       0 (example_request false 0).
Proof.
  assert (H1 : listening connecting 0 (example_request false 0)) by (split; reflexivity).
  assert (H2 : forall o, target (Call_scrape o) <> Some 0%nat) by discriminate.
  assert (H3 : forall o, Call_scrape o <> Destroy_timeout) by discriminate.
  destruct (requests_are_independent (rt := example_runtime) connecting 0
              (example_request false 0) (Call_scrape example_opts)
              reachable_connecting H1 (H2 _) (H3 _)) as (Tl & _).
  destruct (requests_are_independent (rt := example_runtime) connecting 0
              (example_request false 0) (Call_scrape example_two_hashes)
              reachable_connecting H1 (H2 _) (H3 _)) as (Tl' & _).
  split; [exact reachable_connecting |]. split; [exact H1 |]. split; [exact (H2 _) |].
  split; [exact (H3 _) |]. split; [exact Tl | exact Tl'].
Defined.

(** X7: timeout, then the grace timer of a later destroy: one close. *)
Lemma socket_closed_at_most_once_witness :
  reachable (rt := example_runtime) connecting
  /\ (closes 0 (snd (run (rt := example_runtime)
                       [Request_timeout 0; Call_destroy 7; Destroy_timeout]
                       connecting)) <= 1)%nat.
Proof.
  destruct (socket_closed_at_most_once (rt := example_runtime) connecting
              [Request_timeout 0; Call_destroy 7; Destroy_timeout] 0
              reachable_connecting) as (Tc & _).
  split; [exact reachable_connecting | exact Tc].
Defined.

(** X8 *)
Lemma transaction_check_compares_bytes_witness :
  Forall is_byte example_connect_reply
  /\ Forall is_byte [0; 0; 0; 0]
  /\ List.length [0; 0; 0; 0] = 4%nat
  /\ (invalid_transaction example_connect_reply [0; 0; 0; 0] = false
      <-> (8 <= List.length example_connect_reply)%nat
          /\ slice example_connect_reply 4 8 = [0; 0; 0; 0]).
Proof.
  assert (H2 : Forall is_byte [0; 0; 0; 0]) by (repeat constructor; unfold is_byte; lia).
  split; [exact example_connect_reply_bytes |]. split; [exact H2 |].
  split; [reflexivity |].
  exact (transaction_check_compares_bytes example_connect_reply [0; 0; 0; 0]
           example_connect_reply_bytes H2 eq_refl).
Defined.

(** X9: action 9. *)
Lemma unknown_action_rejected_witness :
  reachable (rt := example_runtime) connecting
  /\ listening connecting 0 (example_request false 0)
  /\ invalid_transaction [0;0;0;9; 0;0;0;0] [0; 0; 0; 0] = false
  /\ readUInt32BE [0;0;0;9; 0;0;0;0] 0 = 9
  /\ emitted (snd (step (rt := example_runtime) (Socket_message 0 [0;0;0;9; 0;0;0;0])
                     connecting))
     = [warning "tracker sent invalid action (udp://tracker.example.org:6969)"].
Proof.
  assert (H1 : listening connecting 0 (example_request false 0)) by (split; reflexivity).
  assert (H2 : invalid_transaction [0;0;0;9; 0;0;0;0] [0; 0; 0; 0] = false) by reflexivity.
  pose proof (unknown_action_rejected (rt := example_runtime) connecting 0
                (example_request false 0) [0;0;0;9; 0;0;0;0]
                reachable_connecting H1 H2
                ltac:(discriminate) ltac:(discriminate)
                ltac:(discriminate) ltac:(discriminate)) as T.
  cbv zeta in T. destruct T as (Te & _).
  split; [exact reachable_connecting |]. split; [exact H1 |]. split; [exact H2 |].
  split; [reflexivity | exact Te].
Defined.

(** X10 *)
Lemma socket_error_reported_witness :
  reachable (rt := example_runtime) connecting
  /\ listening connecting 0 (example_request false 0)
  /\ emitted (snd (step (rt := example_runtime) (Socket_error 0 "ECONNREFUSED")
                     connecting))
     = [warning "ECONNREFUSED (udp://tracker.example.org:6969)"].
Proof.
  assert (H1 : listening connecting 0 (example_request false 0)) by (split; reflexivity).
  pose proof (socket_error_reported (rt := example_runtime) connecting 0
                (example_request false 0) "ECONNREFUSED" reachable_connecting H1) as T.
  cbv zeta in T. destruct T as (Te & _).
  split; [exact reachable_connecting |]. split; [exact H1 | exact Te].
Defined.

(** X11: one peer, 10.0.0.1:6881. *)
Lemma announce_reply_peers_witness :
  listening announcing 0 (example_request false 1)
  /\ invalid_transaction example_announce_reply [0; 0; 0; 1] = false
  /\ readUInt32BE example_announce_reply 0 = common.ACTIONS.ANNOUNCE
  /\ destroyed announcing = false
  /\ (20 <= List.length example_announce_reply)%nat
  /\ ((List.length example_announce_reply - 20) mod 6 = 0)%nat
  /\ nth_error
       (emitted (snd (step (rt := example_runtime)
                        (Socket_message 0 example_announce_reply) announcing))) 1
     = Some (peer "10.0.0.1:6881").
Proof.
  assert (H1 : listening announcing 0 (example_request false 1)) by (split; reflexivity).
  assert (H2 : invalid_transaction example_announce_reply [0; 0; 0; 1] = false)
    by reflexivity.
  assert (H3 : readUInt32BE example_announce_reply 0 = common.ACTIONS.ANNOUNCE)
    by reflexivity.
  assert (H4 : destroyed announcing = false) by reflexivity.
  assert (H5 : (20 <= List.length example_announce_reply)%nat) by (cbn; lia).
  assert (H6 : ((List.length example_announce_reply - 20) mod 6 = 0)%nat) by reflexivity.
  pose proof (announce_reply_peers (rt := example_runtime) announcing 0
                (example_request false 1) example_announce_reply
                H1 H2 H3 H4 H5 H6) as T.
  cbv zeta in T. destruct T as (_ & _ & Tp & _).
  split; [exact H1 |]. split; [exact H2 |]. split; [exact H3 |]. split; [exact H4 |].
  split; [exact H5 |]. split; [exact H6 |].
  exact (Tp 0%nat ltac:(cbn; lia)).
Defined.

(** X12 *)
Lemma handshake_sends_announce_witness :
  listening connecting 0 (example_request false 0)
  /\ invalid_transaction example_connect_reply [0; 0; 0; 0] = false
  /\ readUInt32BE example_connect_reply 0 = common.ACTIONS.CONNECT
  /\ (16 <= List.length example_connect_reply)%nat
  /\ _scrape (opts (example_request false 0)) = false
  /\ announce_encodable (client connecting) (opts (example_request false 0))
  /\ map (fun e => match e with SocketSend _ m _ _ => List.length m | _ => O end)
       (snd (step (rt := example_runtime) (Socket_message 0 example_connect_reply)
               connecting)) = [98%nat]
  /\ cleanupFns (fst (step (rt := example_runtime)
                        (Socket_message 0 example_connect_reply) connecting))
     = [0%nat].
Proof.
  assert (H1 : listening connecting 0 (example_request false 0)) by (split; reflexivity).
  assert (H2 : invalid_transaction example_connect_reply [0; 0; 0; 0] = false)
    by reflexivity.
  assert (H3 : readUInt32BE example_connect_reply 0 = common.ACTIONS.CONNECT)
    by reflexivity.
  assert (H4 : (16 <= List.length example_connect_reply)%nat) by (cbn; lia).
  assert (H5 : _scrape (opts (example_request false 0)) = false) by reflexivity.
  assert (H6 : announce_encodable (client connecting) (opts (example_request false 0))).
  { unfold announce_encodable, encodable. cbn.
    split; [split; [lia | intros _; lia] |].
    split; [split; [lia | intros _; lia] |].
    split; [intros l E; discriminate E | lia]. }
  pose proof (handshake_sends_announce (rt := example_runtime) connecting 0
                (example_request false 0) example_connect_reply H1 H2 H3 H4 H5 H6) as T.
  cbv zeta in T. destruct T as (Ts & _ & Tc & _).
  split; [exact H1 |]. split; [exact H2 |]. split; [exact H3 |]. split; [exact H4 |].
  split; [exact H5 |]. split; [exact H6 |]. split; [| exact Tc].
  rewrite Ts. reflexivity.
Defined.

(** X13: two hashes, sent in the order of the array. *)
Lemma handshake_sends_scrape_witness :
  listening scrape_two_connecting 0
    {| opts := set_scrape example_two_hashes; transactionId := [0; 0; 0; 0];
       timeout := true; socket := true;
       parsedUrl := {| port := Some 6969; hostname := "tracker.example.org" |} |}
  /\ invalid_transaction example_connect_reply [0; 0; 0; 0] = false
  /\ readUInt32BE example_connect_reply 0 = common.ACTIONS.CONNECT
  /\ (16 <= List.length example_connect_reply)%nat
  /\ _scrape (set_scrape example_two_hashes) = true
  /\ sent (snd (step (rt := example_runtime) (Socket_message 0 example_connect_reply)
                  scrape_two_connecting))
     = [[1;2;3;4;5;6;7;8; 0;0;0;2; 0;0;0;1] ++ repeat 17 20 ++ repeat 34 20].
Proof.
  set (r := {| opts := set_scrape example_two_hashes; transactionId := [0; 0; 0; 0];
               timeout := true; socket := true;
               parsedUrl := {| port := Some 6969; hostname := "tracker.example.org" |} |}).
  assert (H1 : listening scrape_two_connecting 0 r) by (split; reflexivity).
  assert (H2 : invalid_transaction example_connect_reply [0; 0; 0; 0] = false)
    by reflexivity.
  assert (H3 : readUInt32BE example_connect_reply 0 = common.ACTIONS.CONNECT)
    by reflexivity.
  assert (H4 : (16 <= List.length example_connect_reply)%nat) by (cbn; lia).
  pose proof (handshake_sends_scrape (rt := example_runtime) scrape_two_connecting 0
                r example_connect_reply H1 H2 H3 H4 eq_refl) as T.
  cbv zeta in T. destruct T as (_ & Ta & _).
  destruct (Ta (repeat 17 20) [repeat 34 20] eq_refl) as (Ts & _).
  split; [exact H1 |]. split; [exact H2 |]. split; [exact H3 |]. split; [exact H4 |].
  split; [reflexivity |]. rewrite Ts. reflexivity.
Defined.

(** X14: 2^64 as a decimal string gives nine bytes. *)
Lemma toUInt64_does_not_truncate_witness :
  is_string (JString 18446744073709551616) = true
  /\ 2 ^ 64 <= numeric_value (JString 18446744073709551616)
  /\ toUInt64 (JString 18446744073709551616) = Some [1; 0; 0; 0; 0; 0; 0; 0; 0].
Proof.
  assert (H1 : 2 ^ 64 <= numeric_value (JString 18446744073709551616)) by (cbn; lia).
  destruct (toUInt64_does_not_truncate (JString 18446744073709551616) eq_refl H1)
    as (bytes & Te & Eb & _).
  split; [reflexivity |]. split; [exact H1 |]. rewrite Te, Eb. reflexivity.
Defined.

(** X15 *)
Lemma announce_exchange_witness :
  _scrape example_opts = false
  /\ announce_encodable example_client example_opts
  /\ List.length [1;2;3;4;5;6;7;8] = 8%nat
  /\ 0 <= 1800 < 2 ^ 32 /\ 0 <= 5 < 2 ^ 32 /\ 0 <= 9 < 2 ^ 32
  /\ emitted
       (snd (run (rt := example_runtime)
               [Call_announce example_opts;
                Socket_message 0 example_connect_reply;
                Socket_message 0 [0;0;0;1; 0;0;0;1; 0;0;7;8; 0;0;0;5; 0;0;0;9]]
               example_session))
     = [update example_url 9 5].
Proof.
  assert (H1 : 0 <= 1800 < 2 ^ 32) by lia.
  assert (H2 : 0 <= 5 < 2 ^ 32) by lia.
  assert (H3 : 0 <= 9 < 2 ^ 32) by lia.
  assert (H4 : announce_encodable example_client example_opts).
  { unfold announce_encodable, encodable. cbn.
    split; [split; [lia | intros _; lia] |].
    split; [split; [lia | intros _; lia] |].
    split; [intros l E; discriminate E | lia]. }
  pose proof (announce_exchange (rt := example_runtime) example_client example_url
                example_opts [1;2;3;4;5;6;7;8] 1800 5 9 eq_refl H4 eq_refl H1 H2 H3) as T.
  cbv zeta in T. destruct T as (Ts & _).
  split; [reflexivity |]. split; [exact H4 |]. split; [reflexivity |]. split; [exact H1 |].
  split; [exact H2 |]. split; [exact H3 |].
  exact (f_equal emitted Ts).
Defined.

(** X16 *)
Lemma stale_transaction_id_rejected_witness :
  listening connecting 0 (example_request false 0)
  /\ invalid_transaction example_connect_reply [0; 0; 0; 0] = false
  /\ readUInt32BE example_connect_reply 0 = common.ACTIONS.CONNECT
  /\ (16 <= List.length example_connect_reply)%nat
  /\ readUInt32BE (randombytes4 (Runtime := example_runtime) (entropy connecting)) 0
     <> readUInt32BE [0; 0; 0; 0] 0
  /\ emitted
       (snd (step (rt := example_runtime) (Socket_message 0 example_connect_reply)
               (fst (step (rt := example_runtime)
                       (Socket_message 0 example_connect_reply) connecting))))
     = [warning "tracker sent invalid transaction id (udp://tracker.example.org:6969)"].
Proof.
  assert (H1 : listening connecting 0 (example_request false 0)) by (split; reflexivity).
  assert (H2 : invalid_transaction example_connect_reply [0; 0; 0; 0] = false)
    by reflexivity.
  assert (H3 : readUInt32BE example_connect_reply 0 = common.ACTIONS.CONNECT)
    by reflexivity.
  assert (H4 : (16 <= List.length example_connect_reply)%nat) by (cbn; lia).
  assert (H5 : readUInt32BE (randombytes4 (Runtime := example_runtime) (entropy connecting)) 0
               <> readUInt32BE [0; 0; 0; 0] 0) by discriminate.
  pose proof (stale_transaction_id_rejected (rt := example_runtime) connecting 0
                (example_request false 0) example_connect_reply H1 H2 H3 H4 H5) as T.
  cbv zeta in T. destruct T as (Te & _).
  split; [exact H1 |]. split; [exact H2 |]. split; [exact H3 |]. split; [exact H4 |].
  split; [exact H5 | exact Te].
Defined.

(** X17 *)
Lemma scrape_exchange_witness :
  opts_infoHash example_opts = IH_undefined
  /\ List.length [1;2;3;4;5;6;7;8] = 8%nat
  /\ 0 <= 9 < 2 ^ 32 /\ 0 <= 4 < 2 ^ 32 /\ 0 <= 5 < 2 ^ 32
  /\ emitted
       (snd (run (rt := example_runtime)
               [Call_scrape example_opts;
                Socket_message 0 example_connect_reply;
                Socket_message 0 example_scrape_reply]
               example_session))
     = [scrape_event example_url (Some (toString_hex (repeat 170 20))) 9 4 5].
Proof.
  assert (H1 : 0 <= 9 < 2 ^ 32) by lia.
  assert (H2 : 0 <= 4 < 2 ^ 32) by lia.
  assert (H3 : 0 <= 5 < 2 ^ 32) by lia.
  pose proof (scrape_exchange (rt := example_runtime) example_client example_url
                example_opts [1;2;3;4;5;6;7;8] 9 4 5 eq_refl eq_refl H1 H2 H3) as T.
  cbv zeta in T. destruct T as (Ts & _).
  split; [reflexivity |]. split; [reflexivity |]. split; [exact H1 |].
  split; [exact H2 |]. split; [exact H3 |].
  exact (f_equal emitted Ts).
Defined.
